(** * IntersectionObserver polyfill: a shallow embedding and its properties

    The JavaScript sources embedded here are
      - src/geometry.js
      - src/IntersectionObservation.js   (with IntersectionObserverEntry.js)
      - src/_IntersectionObserver.js
      - src/IntersectionObserverController.js   (with debounce)
      - src/IntersectionObserver.js       (the public wrapper)
      - src/shims/es6-collections.js      (the Map, as built in dist/app.build.js)

    Numbers.  A JavaScript number is modelled as an extended rational:
    [NaN], the two infinities, or a finite value in [Q].  Arithmetic on
    finite values is exact (binary64 rounding is not modelled) and the two
    zeros are identified; a division by zero takes the sign of its
    numerator.  On integers of magnitude below [2 ^ 53] the sums, the
    differences and the products of the code are exact too, which is why
    the statements on rectangles are made at whole pixels.  Every
    definition computes. *)

From Stdlib Require Import ZArith QArith Qminmax List String Ascii Bool Lia Lqa.
From Stdlib Require Import Permutation Sorted.
Import ListNotations.

(** ** JavaScript values *)

Module JS.

Local Open Scope Q_scope.

Inductive number : Type :=
| NaN
| PosInf
| NegInf
| Fin (q : Q).

Definition zero : number := Fin 0.
Definition one : number := Fin 1.

Definition Qsgn (q : Q) : comparison := Z.compare (Qnum q) 0.

Definition isFinite (x : number) : bool :=
  match x with Fin _ => true | _ => false end.

Definition neg (x : number) : number :=
  match x with
  | NaN => NaN
  | PosInf => NegInf
  | NegInf => PosInf
  | Fin q => Fin (Qred (- q))
  end.

Definition add (x y : number) : number :=
  match x, y with
  | NaN, _ | _, NaN => NaN
  | PosInf, NegInf | NegInf, PosInf => NaN
  | PosInf, _ | _, PosInf => PosInf
  | NegInf, _ | _, NegInf => NegInf
  | Fin a, Fin b => Fin (Qred (a + b))
  end.

Definition sub (x y : number) : number := add x (neg y).

(** An infinity with the sign of [c], or [NaN] when [c] is [Eq]
    (infinity times zero, zero divided by zero). *)
Definition signed_inf (c : comparison) : number :=
  match c with Gt => PosInf | Lt => NegInf | Eq => NaN end.

Definition sgn (x : number) : comparison :=
  match x with
  | NaN => Eq
  | PosInf => Gt
  | NegInf => Lt
  | Fin q => Qsgn q
  end.

Definition mul_sgn (a b : comparison) : comparison :=
  match a, b with
  | Eq, _ | _, Eq => Eq
  | Gt, c => c
  | Lt, c => CompOpp c
  end.

Definition mul (x y : number) : number :=
  match x, y with
  | NaN, _ | _, NaN => NaN
  | Fin a, Fin b => Fin (Qred (a * b))
  | _, _ => signed_inf (mul_sgn (sgn x) (sgn y))
  end.

Definition div (x y : number) : number :=
  match x, y with
  | NaN, _ | _, NaN => NaN
  | Fin a, Fin b =>
      match Qsgn b with
      | Eq => signed_inf (Qsgn a)
      | _ => Fin (Qred (a / b))
      end
  | Fin _, _ => zero
  | _, Fin b =>
      match Qsgn b with
      | Lt => neg x
      | _ => x
      end
  | _, _ => NaN
  end.

(** The relational operators; every comparison with [NaN] is false. *)
Definition lt (x y : number) : bool :=
  match x, y with
  | NaN, _ | _, NaN => false
  | Fin a, Fin b => match a ?= b with Lt => true | _ => false end
  | NegInf, NegInf => false
  | NegInf, _ => true
  | _, PosInf => match x with PosInf => false | _ => true end
  | _, _ => false
  end.

Definition strict_eq (x y : number) : bool :=
  match x, y with
  | Fin a, Fin b => Qeq_bool a b
  | PosInf, PosInf | NegInf, NegInf => true
  | _, _ => false
  end.

Definition gt (x y : number) : bool := lt y x.
Definition le (x y : number) : bool := lt x y || strict_eq x y.
Definition ge (x y : number) : bool := le y x.

(** [Math.max] and [Math.min] of two numbers. *)
Definition max (x y : number) : number :=
  match x, y with
  | NaN, _ | _, NaN => NaN
  | _, _ => if lt x y then y else x
  end.

Definition min (x y : number) : number :=
  match x, y with
  | NaN, _ | _, NaN => NaN
  | _, _ => if lt y x then y else x
  end.

(** ToBoolean on a number: [NaN] and zero are falsy. *)
Definition truthy (x : number) : bool :=
  match x with
  | NaN => false
  | Fin q => negb (Qeq_bool q 0)
  | _ => true
  end.

(** [x || y] on numbers. *)
Definition or_else (x y : number) : number := if truthy x then x else y.

(** Unary plus on a boolean. *)
Definition of_bool (b : bool) : number := if b then one else zero.

Definition of_Z (z : Z) : number := Fin (inject_Z z).

(** *** Strings

    A string is a sequence of code units below 256.  [is_space] is the
    class [\s] of regular expressions, which is also the white space
    that [Number] and [parseFloat] strip, restricted to that range. *)

Local Open Scope string_scope.
Local Open Scope Z_scope.

Definition code (c : ascii) : Z := Z.of_N (N_of_ascii c).

Definition is_space (c : ascii) : bool :=
  let n := code c in
  ((9 <=? n) && (n <=? 13)) || (n =? 32) || (n =? 160).

Definition is_digit (c : ascii) : bool :=
  let n := code c in (48 <=? n) && (n <=? 57).

Definition digit_char (d : Z) : ascii := ascii_of_N (Z.to_N (48 + d)).

(** Value of a digit in a radix up to 16, if the character is one. *)
Definition radix_digit (radix : Z) (c : ascii) : option Z :=
  let n := code c in
  let v := if (48 <=? n) && (n <=? 57) then n - 48
           else if (97 <=? n) && (n <=? 102) then n - 87
           else if (65 <=? n) && (n <=? 70) then n - 55
           else 16 in
  if v <? radix then Some v else None.

Fixpoint trim_left (s : string) : string :=
  match s with
  | String c r => if is_space c then trim_left r else s
  | EmptyString => s
  end.

Fixpoint rev_string (acc s : string) : string :=
  match s with
  | EmptyString => acc
  | String c r => rev_string (String c acc) r
  end.

Definition trim (s : string) : string :=
  rev_string "" (trim_left (rev_string "" (trim_left s))).

(** The longest run of decimal digits at the start of [s]: its value, its
    length and the rest of the string. *)
Fixpoint take_digits (acc : Z) (len : Z) (s : string) : Z * Z * string :=
  match s with
  | String c r =>
      if is_digit c then take_digits (10 * acc + (code c - 48)) (len + 1) r
      else (acc, len, s)
  | EmptyString => (acc, len, s)
  end.

Definition pow10 (e : Z) : Q :=
  if 0 <=? e then inject_Z (10 ^ e) else Qmake 1 (Z.to_pos (10 ^ (- e))).

(** ExponentPart, when a complete one starts [s]; otherwise nothing is
    consumed. *)
Definition take_exponent (s : string) : Z * string :=
  match s with
  | String c r =>
      if (code c =? 101) || (code c =? 69) then
        let '(sign, r1) :=
          match r with
          | String d r' =>
              if code d =? 45 then (-1, r')
              else if code d =? 43 then (1, r') else (1, r)
          | EmptyString => (1, r)
          end in
        let '(v, len, rest) := take_digits 0 0 r1 in
        if 0 <? len then (sign * v, rest) else (0, s)
      else (0, s)
  | EmptyString => (0, s)
  end.

(** The longest prefix of [s] that is a StrUnsignedDecimalLiteral. *)
Definition take_unsigned_decimal (s : string) : option (number * string) :=
  if prefix "Infinity" s then Some (PosInf, substring 8 (length s - 8) s)
  else
    let '(i, ilen, r) := take_digits 0 0 s in
    let with_fraction :=
      match r with
      | String c r' =>
          if code c =? 46 then
            let '(f, flen, r'') := take_digits 0 0 r' in
            if (0 <? ilen) || (0 <? flen)
            then Some (i, f, flen, r'') else None
          else if 0 <? ilen then Some (i, 0, 0, r) else None
      | EmptyString => if 0 <? ilen then Some (i, 0, 0, r) else None
      end in
    match with_fraction with
    | None => None
    | Some (i, f, flen, r1) =>
        let '(e, rest) := take_exponent r1 in
        Some (Fin (Qred ((inject_Z i + inject_Z f * pow10 (- flen)) * pow10 e)),
              rest)
    end.

(** The longest prefix of [s] that is a StrDecimalLiteral. *)
Definition take_decimal (s : string) : option (number * string) :=
  match s with
  | String c r =>
      if code c =? 45 then
        match take_unsigned_decimal r with
        | Some (v, rest) => Some (neg v, rest)
        | None => None
        end
      else if code c =? 43 then take_unsigned_decimal r
      else take_unsigned_decimal s
  | EmptyString => None
  end.

(** The global [parseFloat] on a string. *)
Definition parseFloat (s : string) : number :=
  match take_decimal (trim_left s) with
  | Some (v, _) => v
  | None => NaN
  end.

Fixpoint radix_value (radix : Z) (acc : Z) (s : string) : option Z :=
  match s with
  | EmptyString => Some acc
  | String c r =>
      match radix_digit radix c with
      | Some d => radix_value radix (radix * acc + d) r
      | None => None
      end
  end.

(** NonDecimalIntegerLiteral: [0x], [0o] and [0b] literals. *)
Definition non_decimal (s : string) : option number :=
  match s with
  | String z (String p (String d r)) =>
      if code z =? 48 then
        let radix :=
          if (code p =? 120) || (code p =? 88) then 16
          else if (code p =? 111) || (code p =? 79) then 8
          else if (code p =? 98) || (code p =? 66) then 2
          else 0 in
        match radix_value radix 0 (String d r) with
        | Some v => Some (of_Z v)
        | None => None
        end
      else None
  | _ => None
  end.

(** StringToNumber, the conversion [Number] applies to a string. *)
Definition StringToNumber (s : string) : number :=
  let t := trim s in
  match t with
  | EmptyString => zero
  | _ =>
      match non_decimal t with
      | Some v => v
      | None =>
          match take_decimal t with
          | Some (v, EmptyString) => v
          | _ => NaN
          end
      end
  end.

(** *** Number::toString

    The digits [s] and the exponent [n] of the specification are read off
    the decimal expansion of the rational.  For a literal of at most 15
    significant digits they are the digits binary64 prints; an expansion
    longer than 17 digits is cut there. *)

Fixpoint exponent_ge1 (fuel : nat) (a b n : Z) : Z :=
  match fuel with
  | O => n
  | S f => if a <? b * 10 ^ n then n else exponent_ge1 f a b (n + 1)
  end.

Fixpoint exponent_lt1 (fuel : nat) (a b m : Z) : Z :=
  match fuel with
  | O => m
  | S f => if b <=? a * 10 ^ m then m else exponent_lt1 f a b (m + 1)
  end.

Fixpoint expand (fuel : nat) (num den : Z) : list Z :=
  match fuel with
  | O => []
  | S f =>
      let d := num / den in
      let r := num mod den in
      d :: (if r =? 0 then [] else expand f (10 * r) den)
  end.

(** [(digits, n)] with [q = 0.digits * 10^n], for [q > 0]. *)
Definition decimal_digits (q : Q) : list Z * Z :=
  let a := Qnum q in
  let b := Zpos (Qden q) in
  if b <=? a then
    let n := exponent_ge1 400 a b 1 in
    (expand 17 a (b * 10 ^ (n - 1)), n)
  else
    let m := exponent_lt1 400 a b 1 in
    (expand 17 (a * 10 ^ m) b, 1 - m).

Definition digits_string (ds : list Z) : string :=
  string_of_list_ascii (map digit_char ds).

Fixpoint zeros (n : nat) : string :=
  match n with O => "" | S k => String "0" (zeros k) end.

(** Decimal digits of a non-negative integer. *)
Definition integer_string (z : Z) : string :=
  if z =? 0 then "0"
  else
    let '(ds, n) := decimal_digits (inject_Z z) in
    digits_string ds ++ zeros (Z.to_nat n - List.length ds).

Definition positive_to_string (q : Q) : string :=
  let '(ds, n) := decimal_digits q in
  let k := Z.of_nat (List.length ds) in
  if (k <=? n) && (n <=? 21) then
    digits_string ds ++ zeros (Z.to_nat (n - k))
  else if (0 <? n) && (n <=? 21) then
    digits_string (firstn (Z.to_nat n) ds) ++ "."
      ++ digits_string (skipn (Z.to_nat n) ds)
  else if (-6 <? n) && (n <=? 0) then
    "0." ++ zeros (Z.to_nat (- n)) ++ digits_string ds
  else
    let e := n - 1 in
    let sign := if e <? 0 then "-" else "+" in
    digits_string (firstn 1 ds)
      ++ (if k =? 1 then "" else "." ++ digits_string (skipn 1 ds))
      ++ "e" ++ sign ++ integer_string (Z.abs e).

Definition NumberToString (x : number) : string :=
  match x with
  | NaN => "NaN"
  | PosInf => "Infinity"
  | NegInf => "-Infinity"
  | Fin q =>
      match Qsgn q with
      | Eq => "0"
      | Gt => positive_to_string q
      | Lt => "-" ++ positive_to_string (Qopp q)
      end
  end.

(** *** Values

    An object carries what its [toString] returns, which is also what
    [Number] converts; [ElementObject] marks the instances of [Element],
    named by a node identifier. *)

Definition element := nat.

Inductive object_kind : Type :=
| PlainObject
| FunctionObject
| ElementObject (e : element).

Inductive value : Type :=
| Undefined
| Null
| Bool (b : bool)
| Num (n : number)
| Str (s : string)
| Object (kind : object_kind) (text : string).

Definition typeof (v : value) : string :=
  match v with
  | Undefined => "undefined"
  | Null => "object"
  | Bool _ => "boolean"
  | Num _ => "number"
  | Str _ => "string"
  | Object FunctionObject _ => "function"
  | Object _ _ => "object"
  end.

(** [v instanceof Element] *)
Definition as_element (v : value) : option element :=
  match v with
  | Object (ElementObject e) _ => Some e
  | _ => None
  end.

Definition ToString (v : value) : string :=
  match v with
  | Undefined => "undefined"
  | Null => "null"
  | Bool true => "true"
  | Bool false => "false"
  | Num n => NumberToString n
  | Str s => s
  | Object _ text => text
  end.

(** The function [Number]. *)
Definition Number (v : value) : number :=
  match v with
  | Undefined => NaN
  | Null => zero
  | Bool b => of_bool b
  | Num n => n
  | Str s => StringToNumber s
  | Object _ text => StringToNumber text
  end.

(** [s < n] between a string and a number: the string is converted. *)
Definition string_lt_number (s : string) (n : number) : bool :=
  lt (StringToNumber s) n.

(** *** Thrown errors *)

Inductive exn : Type :=
| TypeError (message : string)
| RangeError (message : string)
| Error (message : string).

Definition result (A : Type) : Type := exn + A.

Definition ret {A : Type} (a : A) : result A := inr a.
Definition throw {A : Type} (e : exn) : result A := inl e.

Definition bind {A B : Type} (m : result A) (k : A -> result B) : result B :=
  match m with
  | inl e => inl e
  | inr a => k a
  end.

(** [Array.prototype.map] with a callback that may throw: the first
    exception ends the traversal. *)
Fixpoint map_result {A B : Type} (f : A -> result B) (l : list A)
  : result (list B) :=
  match l with
  | [] => ret []
  | a :: l' =>
      bind (f a) (fun b => bind (map_result f l') (fun bs => ret (b :: bs)))
  end.

End JS.

Import JS.
Local Open Scope string_scope.
Local Open Scope nat_scope.

(** ** geometry.js *)

Record rect : Type := {
  left : number;
  top : number;
  width : number;
  height : number;
  bottom : number;
  right : number
}.

Definition createRectangle (left top width height : number) : rect :=
  {| left := left; top := top; width := width; height := height;
     bottom := add top height;
     right := add left width |}.

(** [createRectangle()], every argument defaulted. *)
Definition emptyRect : rect := createRectangle zero zero zero zero.

(** What the host answers about the page. [ancestors e] lists the element
    ancestors of [e] from its parent upwards; above the last of them is a
    node that is not an element (the document) or nothing. *)
Record document : Type := {
  documentElement : element;
  clientWidth : number;
  clientHeight : number;
  getBoundingClientRect : element -> rect;
  overflow : element -> string;
  ancestors : element -> list element
}.

Definition getRectangle (doc : document) (target : element) : rect :=
  if Nat.eqb target (documentElement doc) then
    createRectangle zero zero (clientWidth doc) (clientHeight doc)
  else getBoundingClientRect doc target.

Definition getArea (r : rect) : number := mul (width r) (height r).

Definition isEmpty (r : rect) : bool :=
  strict_eq (height r) zero && strict_eq (width r) zero.

Definition isEqual (first second : rect) : bool :=
  strict_eq (top first) (top second) &&
  strict_eq (left first) (left second) &&
  strict_eq (right first) (right second) &&
  strict_eq (bottom first) (bottom second).

(** [mapToClientRect] copies every own property into a frozen object. *)
Definition mapToClientRect (r : rect) : rect := r.

(** ** IntersectionObserverEntry.js *)

Module Entry.

Record entry : Type := {
  boundingClientRect : rect;
  intersectionRatio : number;
  intersectionRect : rect;
  rootBounds : rect;
  target : element;
  time : number
}.

Definition IntersectionObserverEntry
  (target : element) (targetRect intersecRect : rect) (intersecRatio : number)
  (rootBounds : rect) (time : number) : entry :=
  {| boundingClientRect := targetRect;
     intersectionRatio := intersecRatio;
     intersectionRect := mapToClientRect intersecRect;
     rootBounds := mapToClientRect rootBounds;
     target := target;
     time := time |}.

End Entry.

(** ** IntersectionObserverController.js

    The controller holds its observers by reference; here an observer is
    named by its identifier.  Calls into the host (animation frames, event
    listeners, the debounced repeat handler, the MutationObserver) are
    appended to [host], the latest last. *)

Module Controller.

Inductive host_call : Type :=
| requestAnimFrame
| addEventListener (type : string)
| removeEventListener (type : string)
| repeatHandler
| mutationsObserve
| mutationsDisconnect.

Record controller : Type := {
  _idleTimeout : number;
  _trackHovers : bool;
  _cycleStartTime : number;
  _isUpdateScheduled : bool;
  _repeatCycle : bool;
  _hoverInitiated : bool;
  _mutationsObserver : bool;
  _isListening : bool;
  _observers : list nat;
  host : list host_call
}.

Definition set_idleTimeout (v : number) (c : controller) : controller :=
  {| _idleTimeout := v; _trackHovers := _trackHovers c;
     _cycleStartTime := _cycleStartTime c;
     _isUpdateScheduled := _isUpdateScheduled c;
     _repeatCycle := _repeatCycle c; _hoverInitiated := _hoverInitiated c;
     _mutationsObserver := _mutationsObserver c;
     _isListening := _isListening c; _observers := _observers c;
     host := host c |}.

Definition set_trackHovers (v : bool) (c : controller) : controller :=
  {| _idleTimeout := _idleTimeout c; _trackHovers := v;
     _cycleStartTime := _cycleStartTime c;
     _isUpdateScheduled := _isUpdateScheduled c;
     _repeatCycle := _repeatCycle c; _hoverInitiated := _hoverInitiated c;
     _mutationsObserver := _mutationsObserver c;
     _isListening := _isListening c; _observers := _observers c;
     host := host c |}.

Definition set_cycleStartTime (v : number) (c : controller) : controller :=
  {| _idleTimeout := _idleTimeout c; _trackHovers := _trackHovers c;
     _cycleStartTime := v;
     _isUpdateScheduled := _isUpdateScheduled c;
     _repeatCycle := _repeatCycle c; _hoverInitiated := _hoverInitiated c;
     _mutationsObserver := _mutationsObserver c;
     _isListening := _isListening c; _observers := _observers c;
     host := host c |}.

Definition set_isUpdateScheduled (v : bool) (c : controller) : controller :=
  {| _idleTimeout := _idleTimeout c; _trackHovers := _trackHovers c;
     _cycleStartTime := _cycleStartTime c;
     _isUpdateScheduled := v;
     _repeatCycle := _repeatCycle c; _hoverInitiated := _hoverInitiated c;
     _mutationsObserver := _mutationsObserver c;
     _isListening := _isListening c; _observers := _observers c;
     host := host c |}.

Definition set_repeatCycle (v : bool) (c : controller) : controller :=
  {| _idleTimeout := _idleTimeout c; _trackHovers := _trackHovers c;
     _cycleStartTime := _cycleStartTime c;
     _isUpdateScheduled := _isUpdateScheduled c;
     _repeatCycle := v; _hoverInitiated := _hoverInitiated c;
     _mutationsObserver := _mutationsObserver c;
     _isListening := _isListening c; _observers := _observers c;
     host := host c |}.

Definition set_hoverInitiated (v : bool) (c : controller) : controller :=
  {| _idleTimeout := _idleTimeout c; _trackHovers := _trackHovers c;
     _cycleStartTime := _cycleStartTime c;
     _isUpdateScheduled := _isUpdateScheduled c;
     _repeatCycle := _repeatCycle c; _hoverInitiated := v;
     _mutationsObserver := _mutationsObserver c;
     _isListening := _isListening c; _observers := _observers c;
     host := host c |}.

Definition set_mutationsObserver (v : bool) (c : controller) : controller :=
  {| _idleTimeout := _idleTimeout c; _trackHovers := _trackHovers c;
     _cycleStartTime := _cycleStartTime c;
     _isUpdateScheduled := _isUpdateScheduled c;
     _repeatCycle := _repeatCycle c; _hoverInitiated := _hoverInitiated c;
     _mutationsObserver := v;
     _isListening := _isListening c; _observers := _observers c;
     host := host c |}.

Definition set_isListening (v : bool) (c : controller) : controller :=
  {| _idleTimeout := _idleTimeout c; _trackHovers := _trackHovers c;
     _cycleStartTime := _cycleStartTime c;
     _isUpdateScheduled := _isUpdateScheduled c;
     _repeatCycle := _repeatCycle c; _hoverInitiated := _hoverInitiated c;
     _mutationsObserver := _mutationsObserver c;
     _isListening := v; _observers := _observers c;
     host := host c |}.

Definition set_observers (v : list nat) (c : controller) : controller :=
  {| _idleTimeout := _idleTimeout c; _trackHovers := _trackHovers c;
     _cycleStartTime := _cycleStartTime c;
     _isUpdateScheduled := _isUpdateScheduled c;
     _repeatCycle := _repeatCycle c; _hoverInitiated := _hoverInitiated c;
     _mutationsObserver := _mutationsObserver c;
     _isListening := _isListening c; _observers := v;
     host := host c |}.

Definition call (h : host_call) (c : controller) : controller :=
  {| _idleTimeout := _idleTimeout c; _trackHovers := _trackHovers c;
     _cycleStartTime := _cycleStartTime c;
     _isUpdateScheduled := _isUpdateScheduled c;
     _repeatCycle := _repeatCycle c; _hoverInitiated := _hoverInitiated c;
     _mutationsObserver := _mutationsObserver c;
     _isListening := _isListening c; _observers := _observers c;
     host := host c ++ [h] |}.

(** [new IntersectionObserverController(idleTimeout = 50, trackHovers = false)] *)
Definition IntersectionObserverController
  (idleTimeout : number) (trackHovers : bool) : controller :=
  {| _idleTimeout := idleTimeout;
     _trackHovers := trackHovers;
     _cycleStartTime := of_Z (-1);
     _isUpdateScheduled := false;
     _repeatCycle := false;
     _hoverInitiated := false;
     _mutationsObserver := false;
     _isListening := false;
     _observers := [];
     host := [] |}.

Definition get_idleTimeout (c : controller) : number := _idleTimeout c.

(** [array.indexOf(x)], [None] for -1. *)
Fixpoint indexOf (x : nat) (l : list nat) : option nat :=
  match l with
  | [] => None
  | y :: l' =>
      if Nat.eqb y x then Some O
      else match indexOf x l' with Some i => Some (S i) | None => None end
  end.

(** [array.splice(index, 1)] *)
Fixpoint splice1 {A : Type} (index : nat) (l : list A) : list A :=
  match l, index with
  | [], _ => []
  | _ :: l', O => l'
  | y :: l', S i => y :: splice1 i l'
  end.

Definition isConnected (observer : nat) (c : controller) : bool :=
  match indexOf observer (_observers c) with Some _ => true | None => false end.

Definition _wasCycleStarted (c : controller) : bool :=
  negb (strict_eq (_cycleStartTime c) (of_Z (-1))).

Definition _hasIdleTimeEnded (now : number) (c : controller) : bool :=
  gt (sub now (_cycleStartTime c)) (_idleTimeout c).

(** [scheduleUpdate()] called without a number: the branch that requests
    a frame. [scheduleUpdate] below calls it where the source calls itself
    without a timestamp. *)
Definition requestUpdate (c : controller) : controller :=
  if negb (_isUpdateScheduled c)
  then set_isUpdateScheduled true (call requestAnimFrame c)
  else c.

Definition startUpdateCycle (now : number) (c : controller) : controller :=
  requestUpdate (set_cycleStartTime now c).

Definition _onCycleEnded (c : controller) : controller :=
  let c := set_cycleStartTime (of_Z (-1)) c in
  if _repeatCycle c
  then call repeatHandler (set_cycleStartTime zero c)
  else c.

Definition _addHoverListener (c : controller) : controller :=
  if _hoverInitiated c then c
  else set_hoverInitiated true (call (addEventListener "mouseover") c).

Definition _removeHoverListener (c : controller) : controller :=
  if negb (_hoverInitiated c) then c
  else set_hoverInitiated false (call (removeEventListener "mouseover") c).

Definition enableHover (c : controller) : controller :=
  let c := set_trackHovers true c in
  if _isListening c then _addHoverListener c else c.

Definition disableHover (c : controller) : controller :=
  _removeHoverListener (set_trackHovers false c).

Definition isHoverEnabled (c : controller) : bool := _trackHovers c.

Section Host.

(** [typeof window.MutationObserver === 'function'] *)
Variable mutationsSupported : bool.

(** What [_updateObservers] returns and what it leaves of the controller:
    it runs the observers' callbacks, which may call back into the
    controller through [observe], [unobserve] and [disconnect]. *)
Variable _updateObservers : controller -> bool * controller.

Definition _initListeners (now : number) (c : controller) : controller :=
  if _isListening c then c
  else
    let c := set_isListening true c in
    let c := call (addEventListener "resize") c in
    let c := call (addEventListener "scroll") c in
    let c := if _trackHovers c then _addHoverListener c else c in
    if negb mutationsSupported then
      let c := set_repeatCycle true c in
      let c := call (addEventListener "click") c in
      startUpdateCycle now c
    else
      call mutationsObserve (set_mutationsObserver true c).

Definition _removeListeners (c : controller) : controller :=
  if negb (_isListening c) then c
  else
    let c := call (removeEventListener "resize") c in
    let c := call (removeEventListener "scroll") c in
    let c := _removeHoverListener c in
    let c :=
      if negb mutationsSupported then
        call (removeEventListener "click") (set_repeatCycle false c)
      else if _mutationsObserver c then
        set_mutationsObserver false (call mutationsDisconnect c)
      else c in
    set_isListening false c.

Definition connect (observer : nat) (now : number) (c : controller)
  : controller :=
  let c := if negb (isConnected observer c)
           then set_observers (_observers c ++ [observer]) c else c in
  if negb (_isListening c) then _initListeners now c else c.

Definition disconnect (observer : nat) (c : controller) : controller :=
  let c := match indexOf observer (_observers c) with
           | Some index => set_observers (splice1 index (_observers c)) c
           | None => c
           end in
  if match _observers c with [] => true | _ => false end && _isListening c
  then _removeListeners c else c.

(** [scheduleUpdate(timestamp)]. [now] is the reading of the clock taken
    after the observers were updated, by [startUpdateCycle] or by
    [_hasIdleTimeEnded]. *)
Definition scheduleUpdate (timestamp : value) (now : number) (c : controller)
  : controller :=
  let calledFromRAF := String.eqb (typeof timestamp) "number" in
  if calledFromRAF then
    let '(hasChanges, c) := _updateObservers c in
    let c := set_isUpdateScheduled false c in
    if negb (_wasCycleStarted c) then c
    else if hasChanges then startUpdateCycle now c
    else if negb (_hasIdleTimeEnded now c) then requestUpdate c
    else _onCycleEnded c
  else requestUpdate c.

(** [_onMutation(entries)], each record given by its [type]. *)
Definition _onMutation (entries : list string) (now : number) (c : controller)
  : controller :=
  let runSingleUpdate :=
    forallb (fun type => negb (String.eqb type "attributes")) entries in
  if runSingleUpdate then requestUpdate c else startUpdateCycle now c.

End Host.

End Controller.

(** ** shims/es6-collections.js

    The [Map] of the shim keeps an array of key and value pairs in the
    order of insertion; the native [Map] answers [has], [set], [delete],
    [clear], [size] and [forEach] alike. *)

Module Map.

Definition t (V : Type) : Type := list (element * V).

Section Entries.

Context {V : Type}.

Fixpoint getIndex (arr : t V) (key : element) : option nat :=
  match arr with
  | [] => None
  | (k, _) :: arr' =>
      if Nat.eqb k key then Some O
      else match getIndex arr' key with Some i => Some (S i) | None => None end
  end.

Fixpoint replace (index : nat) (v : V) (arr : t V) : t V :=
  match arr, index with
  | [], _ => []
  | (k, _) :: arr', O => (k, v) :: arr'
  | e :: arr', S i => e :: replace i v arr'
  end.

Definition has (key : element) (m : t V) : bool :=
  match getIndex m key with Some _ => true | None => false end.

Definition set (key : element) (v : V) (m : t V) : t V :=
  match getIndex m key with
  | Some index => replace index v m
  | None => (m ++ [(key, v)])%list
  end.

Definition delete (key : element) (m : t V) : t V :=
  match getIndex m key with
  | Some index => Controller.splice1 index m
  | None => m
  end.

Definition clear (m : t V) : t V := [].

Definition size (m : t V) : nat := List.length m.

End Entries.

End Map.

(** ** _IntersectionObserver.js and IntersectionObservation.js *)

Record margin : Type := {
  value_ : number;
  pixels : bool
}.

Record observation : Type := {
  target : element;
  observer_ : nat;
  prevTargetRect : rect;
  prevThreshold : nat;
  prevRatio : number
}.

Record observer : Type := {
  root : option element;
  rootMargin : string;
  thresholds : list number;
  _root : element;
  _callback : value;
  _rootMargin : list margin;
  _targets : Map.t observation;
  _quedEntries : list Entry.entry
}.

Definition set_targets (m : Map.t observation) (o : observer) : observer :=
  {| root := root o; rootMargin := rootMargin o; thresholds := thresholds o;
     _root := _root o; _callback := _callback o;
     _rootMargin := _rootMargin o; _targets := m;
     _quedEntries := _quedEntries o |}.

Definition set_quedEntries (q : list Entry.entry) (o : observer) : observer :=
  {| root := root o; rootMargin := rootMargin o; thresholds := thresholds o;
     _root := _root o; _callback := _callback o;
     _rootMargin := _rootMargin o; _targets := _targets o;
     _quedEntries := q |}.

(** *** parseThresholds *)

(** [options.threshold]: an array of values, or any other value. *)
Inductive threshold_option : Type :=
| Scalar (v : value)
| Array (items : list value).

(** [Array.prototype.sort()] without a comparison function orders the
    elements by their string conversions, compared code unit by code
    unit; elements that convert alike keep their order. *)
Definition sorts_before (x y : number) : bool :=
  String.ltb (NumberToString x) (NumberToString y).

Fixpoint insert_sorted (x : number) (l : list number) : list number :=
  match l with
  | [] => [x]
  | y :: l' => if sorts_before x y then x :: l else y :: insert_sorted x l'
  end.

Definition sort (l : list number) : list number :=
  fold_left (fun acc x => insert_sorted x acc) l [].

Definition parseThresholds (thresholds : threshold_option)
  : result (list number) :=
  let thresholds :=
    match thresholds with
    | Scalar Undefined => Scalar (Num zero)
    | _ => thresholds
    end in
  let result :=
    match thresholds with
    | Scalar v => [v]
    | Array [] => [Num zero]
    | Array items => items
    end in
  bind
    (map_result
       (fun threshold =>
          let threshold := Number threshold in
          if negb (isFinite threshold) then
            throw (TypeError "The provided double value is non-finite.")
          else if lt threshold zero || gt threshold one then
            throw (RangeError "Threshold values must be between 0 and 1.")
          else ret threshold)
       result)
    (fun numbers => ret (sort numbers)).

(** *** parseMargins *)

(** [string.split(/\s+/)]: the pieces between the maximal runs of white
    space; a run at either end leaves an empty piece there. [in_run] tells
    that the character before was white space, [piece] is the piece read
    so far. *)
Fixpoint split_go (in_run : bool) (piece : string) (s : string) : list string :=
  match s with
  | EmptyString => [piece]
  | String c r =>
      if is_space c then
        if in_run then split_go true piece r
        else piece :: split_go true "" r
      else split_go false (piece ++ String c "") r
  end.

Definition split (s : string) : list string := split_go false "" s.

(** [array.join(' ')] *)
Fixpoint join (l : list string) : string :=
  match l with
  | [] => ""
  | [x] => x
  | x :: l' => x ++ " " ++ join l'
  end.

(** [a || b] where [a] is an array element: a hole and the empty string
    are falsy. *)
Definition or_string (a : option string) (b : string) : string :=
  match a with
  | Some EmptyString | None => b
  | Some x => x
  end.

(** The longest run of digits at the start of [s], and the rest. *)
Fixpoint span_digits (s : string) : string * string :=
  match s with
  | String c r =>
      if is_digit c then let '(d, rest) := span_digits r in (String c d, rest)
      else ("", s)
  | EmptyString => ("", s)
  end.

(** [/^(-?\d*\.?\d+)(px|%)$/.exec(token)]: the two groups of the match.
    A unit cannot start with a digit or a dot, so the first group is the
    sign, every leading digit and, when a dot follows them, the dot and
    the digits after it, of which there must then be one. *)
Definition exec_margin (token : string) : option (string * string) :=
  let '(sign, body) :=
    match token with
    | String "-" r => ("-", r)
    | _ => ("", token)
    end in
  let '(int_part, r) := span_digits body in
  let number_part :=
    match r with
    | String "." r' =>
        let '(frac, r'') := span_digits r' in
        match frac with
        | EmptyString => None
        | _ => Some (sign ++ int_part ++ "." ++ frac, r'')
        end
    | _ =>
        match int_part with
        | EmptyString => None
        | _ => Some (sign ++ int_part, r)
        end
    end in
  match number_part with
  | Some (v, unit) =>
      if String.eqb unit "px" || String.eqb unit "%" then Some (v, unit)
      else None
  | None => None
  end.

Record margins_data : Type := {
  rawData : string;
  parsedData : list margin
}.

Definition parseMargins (margins : value) : result margins_data :=
  let margins := match margins with Undefined => Str "0px" | _ => margins end in
  let margins := split (ToString margins ++ "") in
  if Nat.ltb 4 (List.length margins) then
    throw (Error "Extra text found at the end of rootMargin.")
  else
    (* [split] returns at least one piece and at most four are left here,
       so the four assignments fill exactly the indices 0 to 3. *)
    let m0 := or_string (nth_error margins 0) "0px" in
    let m1 := or_string (nth_error margins 1) m0 in
    let m2 := or_string (nth_error margins 2) m0 in
    let m3 := or_string (nth_error margins 3) m1 in
    let margins := [m0; m1; m2; m3] in
    let rawData := join margins in
    bind
      (map_result
         (fun token =>
            let '(value, unit) :=
              match exec_margin token with
              | Some (v, u) => (Str v, Str u)
              | None => (Undefined, Undefined)
              end in
            let pixels := match unit with Str u => String.eqb u "px" | _ => false end in
            let value := parseFloat (ToString value) in
            if negb (isFinite value) then
              throw (Error "rootMargin must be specified in pixels or percent.")
            else
              let value := if negb pixels then div value (of_Z 100) else value in
              ret {| value_ := value; pixels := pixels |})
         margins)
      (fun parsedData => ret {| rawData := rawData; parsedData := parsedData |}).

(** *** applyMargins *)

Definition applyMargins (targetRect : rect) (margins : list margin) : rect :=
  let margins :=
    map (fun '(index, margin) =>
           let value := value_ margin in
           if negb (pixels margin) then
             mul value (if Nat.odd index then width targetRect
                        else height targetRect)
           else value)
        (combine (seq 0 (List.length margins)) margins) in
  let at_ i := nth i margins NaN in
  let top := sub (top targetRect) (at_ 0%nat) in
  let right := add (right targetRect) (at_ 1%nat) in
  let bottom := add (bottom targetRect) (at_ 2%nat) in
  let left := sub (left targetRect) (at_ 3%nat) in
  {| top := top; right := right; bottom := bottom; left := left;
     width := sub right left;
     height := sub bottom top |}.

Definition getRootRect (doc : document) (o : observer) : rect :=
  applyMargins (getRectangle doc (_root o)) (_rootMargin o).


(** *** The methods of the observer that need no other object *)

Definition takeRecords (o : observer) : list Entry.entry * observer :=
  (_quedEntries o, set_quedEntries [] o).

Definition queueEntry (e : Entry.entry) (o : observer) : observer :=
  set_quedEntries (_quedEntries o ++ [e])%list o.

Definition hasEntries (o : observer) : bool :=
  negb (Nat.eqb (List.length (_quedEntries o)) 0).

(** The loop of [getThresholdGreaterThan], from [index] on, over the
    thresholds not yet visited. *)
Fixpoint thresholdScan (rest : list number) (ratio : number) (index : nat) : nat :=
  match rest with
  | [] => index
  | t :: rest' =>
      if le t ratio then thresholdScan rest' ratio (S index) else index
  end.

Definition getThresholdGreaterThan (o : observer) (ratio : number) : nat :=
  thresholdScan (thresholds o) ratio 0.

(** *** IntersectionObservation *)

Definition IntersectionObservation (target : element) (observer : nat)
  : observation :=
  {| target := target;
     observer_ := observer;
     prevTargetRect := emptyRect;
     prevThreshold := 0;
     prevRatio := zero |}.

(** [a.contains(b)]: [b] is [a] or a descendant of [a]. *)
Definition contains (doc : document) (a b : element) : bool :=
  Nat.eqb a b || existsb (Nat.eqb a) (ancestors doc b).

Definition isDetached (doc : document) (container target : element) : bool :=
  let docElement := documentElement doc in
  (negb (Nat.eqb container docElement) && negb (contains doc docElement container))
  || negb (contains doc container target).

Definition computeIntersection (rootRect targetRect : rect) : rect :=
  let left := max (left targetRect) (left rootRect) in
  let right := min (right targetRect) (right rootRect) in
  let top := max (top targetRect) (top rootRect) in
  let bottom := min (bottom targetRect) (bottom rootRect) in
  let width := sub right left in
  let height := sub bottom top in
  createRectangle left top width height.

(** The loop of [getIntersection] over the element ancestors still above;
    when they are used up the parent is not an element. *)
Fixpoint getIntersectionLoop (doc : document) (container : element)
  (containterRect intersecRect : rect) (parents : list element) : rect :=
  match parents with
  | [] => computeIntersection intersecRect containterRect
  | parent :: parents' =>
      if Nat.eqb parent container then
        computeIntersection intersecRect containterRect
      else
        let intersecRect :=
          if negb (String.eqb (overflow doc parent) "visible")
          then computeIntersection intersecRect (getRectangle doc parent)
          else intersecRect in
        getIntersectionLoop doc container containterRect intersecRect parents'
  end.

Definition getIntersection (doc : document) (container target : element)
  (containterRect targetRect : rect) : rect :=
  getIntersectionLoop doc container containterRect targetRect
    (ancestors doc target).

Record intersection : Type := {
  rect_ : rect;
  ratio : number;
  exists_ : bool
}.

Definition getIntersectionData (doc : document) (this : observation)
  (container : element) (containterRect targetRect : option rect)
  : intersection :=
  let target := target this in
  let targetRect :=
    match targetRect with
    | Some r => r
    | None => getRectangle doc target
    end in
  let containterRect :=
    match containterRect with
    | Some r => r
    | None => getRectangle doc container
    end in
  let detached := isDetached doc container target in
  let intersecRect :=
    if negb detached
    then getIntersection doc container target containterRect targetRect
    else emptyRect in
  let intersects :=
    negb detached && ge (width intersecRect) zero
    && ge (height intersecRect) zero in
  let intersecRatio :=
    or_else (div (getArea intersecRect) (getArea targetRect)) zero in
  {| rect_ := intersecRect; ratio := intersecRatio; exists_ := intersects |}.

Record changes : Type := {
  ratioChanged : bool;
  thresholdChanged : bool;
  targetRectChanged : bool
}.

(** [updateIntersection(root, rootRect)] of the observation [this] of the
    observer [o]; [now] is the reading of the clock for a new entry. *)
Definition updateIntersection (doc : document) (now : number)
  (root : element) (rootRect : rect) (this : observation) (o : observer)
  : changes * observation * observer :=
  let targetRect := getRectangle doc (target this) in
  let intersection :=
    getIntersectionData doc this root (Some rootRect) (Some targetRect) in
  let threshold := if exists_ intersection then 1%nat else 0%nat in
  let ratioChanged := negb (strict_eq (ratio intersection) (prevRatio this)) in
  let targetRectChanged := negb (isEqual targetRect (prevTargetRect this)) in
  let threshold :=
    if exists_ intersection && negb (isEmpty targetRect)
    then getThresholdGreaterThan o (ratio intersection)
    else threshold in
  let thresholdChanged := negb (Nat.eqb threshold (prevThreshold this)) in
  let this' :=
    {| target := target this;
       observer_ := observer_ this;
       prevTargetRect := targetRect;
       prevThreshold := threshold;
       prevRatio := ratio intersection |} in
  let intersection :=
    if negb (exists_ intersection)
    then {| rect_ := emptyRect; ratio := zero;
            exists_ := exists_ intersection |}
    else intersection in
  let o' :=
    if thresholdChanged then
      queueEntry
        (Entry.IntersectionObserverEntry (target this) targetRect
           (rect_ intersection) (ratio intersection) rootRect now)
        o
    else o in
  ({| ratioChanged := ratioChanged;
      thresholdChanged := thresholdChanged;
      targetRectChanged := targetRectChanged |}, this', o').

(** [updateObservations()]: the registry is visited in insertion order;
    [now e] is the reading of the clock when the entry of [e] is built. *)
Fixpoint updateEach (doc : document) (now : element -> number)
  (root : element) (rootRect : rect)
  (entries : Map.t observation) (o : observer)
  : bool * Map.t observation * observer :=
  match entries with
  | [] => (false, [], o)
  | (key, observation) :: entries' =>
      let '(changes, observation', o1) :=
        updateIntersection doc (now key) root rootRect observation o in
      let '(hasChanges, rest, o2) :=
        updateEach doc now root rootRect entries' o1 in
      (ratioChanged changes || targetRectChanged changes || hasChanges,
       (key, observation') :: rest, o2)
  end.

Definition updateObservations (doc : document) (now : element -> number)
  (o : observer) : bool * observer :=
  let root := _root o in
  let rootRect := getRootRect doc o in
  let '(hasChanges, targets, o') :=
    updateEach doc now root rootRect (_targets o) o in
  (hasChanges, set_targets targets o').

(** *** The constructor *)

(** The second argument of the constructor: an object with the members
    read from it ([root] is [None] when the object has no such member),
    or a value that has none of them. *)
Inductive options_arg : Type :=
| OptionsObject (root : option value) (threshold : threshold_option)
    (rootMargin : value)
| OptionsValue (v : value).

Definition new_IntersectionObserver (doc : document)
  (callback : value) (options : options_arg) : result observer :=
  let options :=
    match options with
    | OptionsValue Undefined => OptionsObject None (Scalar Undefined) Undefined
    | _ => options
    end in
  let typeof_options :=
    match options with
    | OptionsObject _ _ _ => "object"
    | OptionsValue v => typeof v
    end in
  if negb (String.eqb (typeof callback) "function") then
    throw (TypeError "The callback provided as parameter 1 is not a function.")
  else if negb (String.eqb typeof_options "object") then
    throw (TypeError "parameter 2 is not an object.")
  else
    match options with
    | OptionsValue Null =>
        throw (TypeError "Cannot use 'in' operator to search for 'root' in null")
    | _ =>
        let '(root, threshold, margin) :=
          match options with
          | OptionsObject r t m => (r, t, m)
          | OptionsValue _ => (None, Scalar Undefined, Undefined)
          end in
        let root_element :=
          match root with
          | Some v => as_element v
          | None => None
          end in
        match root, root_element with
        | Some _, None =>
            throw (TypeError "member root is not of type Element.")
        | _, _ =>
            bind (parseThresholds threshold) (fun thresholds =>
            bind (parseMargins margin) (fun rootMargin =>
            ret {| root := root_element;
                   rootMargin := rawData rootMargin;
                   thresholds := thresholds;
                   _root := match root_element with
                            | Some e => e
                            | None => documentElement doc
                            end;
                   _callback := callback;
                   _rootMargin := parsedData rootMargin;
                   _targets := [];
                   _quedEntries := [] |}))
        end
    end.

(** *** observe, unobserve, disconnect

    These reach the controller, so they act on the observers and the
    controller they share. An observer is named by its index among the
    constructed observers. *)

Record world : Type := {
  controller_ : Controller.controller;
  observers : list observer
}.

Fixpoint store {A : Type} (index : nat) (a : A) (l : list A) : list A :=
  match l, index with
  | [], _ => []
  | _ :: l', O => a :: l'
  | x :: l', S i => x :: store i a l'
  end.

Definition with_observer (this : nat) (o : observer) (w : world) : world :=
  {| controller_ := controller_ w; observers := store this o (observers w) |}.

Definition with_controller (c : Controller.controller) (w : world) : world :=
  {| controller_ := c; observers := observers w |}.

Definition quote : string := String (ascii_of_nat 34) EmptyString.

Definition not_an_element : exn :=
  TypeError ("parameter 1 is not of type " ++ quote ++ "Element" ++ quote ++ ".").

Section Methods.

Variable mutationsSupported : bool.

(** [observe(target)] on the observer [this], called with [arguments].
    [now_connect] is the clock read if connecting starts a cycle,
    [now] the clock read by the call of [startUpdateCycle]. *)
Definition observe (this : nat) (arguments : list value)
  (now_connect now : number) (w : world) : result world :=
  match nth_error (observers w) this with
  | None => ret w
  | Some o =>
      match arguments with
      | [] => throw (TypeError "1 argument required, but only 0 present.")
      | target :: _ =>
          match as_element target with
          | None => throw not_an_element
          | Some target =>
              let targets := _targets o in
              if Map.has target targets then ret w
              else
                let targets :=
                  Map.set target (IntersectionObservation target this) targets in
                let w := with_observer this (set_targets targets o) w in
                let c := controller_ w in
                let c :=
                  if negb (Controller.isConnected this c)
                  then Controller.connect mutationsSupported this now_connect c
                  else c in
                let c := Controller.startUpdateCycle now c in
                ret (with_controller c w)
          end
      end
  end.

(** [disconnect()] *)
Definition disconnect (this : nat) (w : world) : world :=
  match nth_error (observers w) this with
  | None => w
  | Some o =>
      let w := with_observer this (set_targets (Map.clear (_targets o)) o) w in
      with_controller
        (Controller.disconnect mutationsSupported this (controller_ w)) w
  end.

(** [unobserve(target)] *)
Definition unobserve (this : nat) (arguments : list value) (w : world)
  : result world :=
  match nth_error (observers w) this with
  | None => ret w
  | Some o =>
      match arguments with
      | [] => throw (TypeError "1 argument required, but only 0 present.")
      | target :: _ =>
          match as_element target with
          | None => throw not_an_element
          | Some target =>
              let targets := _targets o in
              let targets :=
                if Map.has target targets then Map.delete target targets
                else targets in
              let w := with_observer this (set_targets targets o) w in
              if Nat.eqb (Map.size targets) 0
              then ret (disconnect this w)
              else ret w
          end
      end
  end.

End Methods.

(** ** IntersectionObserver.js, the public class *)

Module Wrapper.

(** [const controller = new IntersectionObserverController()] *)
Definition controller : Controller.controller :=
  Controller.IntersectionObserverController (of_Z 50) false.

(** The state when the module is loaded: no observer constructed yet. *)
Definition loaded : world := {| controller_ := controller; observers := [] |}.

(** [new IntersectionObserver(callback, options)], called with or without
    a first argument. The observer made is the last of [observers]. *)
Definition construct (doc : document) (callback : option value)
  (options : options_arg) (w : world) : result world :=
  match callback with
  | None => throw (TypeError "1 argument required, but only 0 present.")
  | Some callback =>
      bind (new_IntersectionObserver doc callback options) (fun observer =>
      ret {| controller_ := controller_ w;
             observers := (observers w ++ [observer])%list |})
  end.

Definition get_idleTimeout (c : Controller.controller) : number :=
  Controller.get_idleTimeout c.

(** [static set idleTimeout(value)] *)
Definition set_idleTimeout (value : value) (c : Controller.controller)
  : result Controller.controller :=
  if negb (String.eqb (typeof value) "number") then
    throw (TypeError ("type of " ++ quote ++ "idleTimeout" ++ quote
                      ++ " value must be a number."))
  else if string_lt_number (typeof value) zero then
    throw (TypeError (quote ++ "idleTimeout" ++ quote
                      ++ " value must be greater than 0."))
  else
    match value with
    | Num n => ret (Controller.set_idleTimeout n c)
    | _ => ret c
    end.

Definition get_trackHovers (c : Controller.controller) : bool :=
  Controller.isHoverEnabled c.

(** [static set trackHovers(value)] *)
Definition set_trackHovers (value : value) (c : Controller.controller)
  : result Controller.controller :=
  match value with
  | Bool b =>
      ret (if b then Controller.enableHover c else Controller.disableHover c)
  | _ =>
      throw (TypeError ("type of " ++ quote ++ "trackHovers" ++ quote
                        ++ " value must be a boolean."))
  end.

End Wrapper.

(** ** Sequences of calls *)

Inductive operation : Type :=
| Construct (doc : document) (callback : option value) (options : options_arg)
| Observe (this : nat) (arguments : list value) (now_connect now : number)
| Unobserve (this : nat) (arguments : list value)
| Disconnect (this : nat).

Section Runs.

Variable mutationsSupported : bool.

(** One call; a call that throws leaves the state as it was. *)
Definition step (w : world) (op : operation) : world :=
  match op with
  | Construct doc callback options =>
      match Wrapper.construct doc callback options w with
      | inr w' => w'
      | inl _ => w
      end
  | Observe this arguments now_connect now =>
      match observe mutationsSupported this arguments now_connect now w with
      | inr w' => w'
      | inl _ => w
      end
  | Unobserve this arguments =>
      match unobserve mutationsSupported this arguments w with
      | inr w' => w'
      | inl _ => w
      end
  | Disconnect this => disconnect mutationsSupported this w
  end.

Definition run (ops : list operation) (w : world) : world :=
  fold_left step ops w.

End Runs.

(** ** Notions used by the statements *)

(** Ascending numeric order. *)
Fixpoint ascending (l : list number) : bool :=
  match l with
  | x :: (y :: _) as rest => le x y && ascending rest
  | _ => true
  end.

(** How many thresholds are at most [ratio]. *)
Definition count_le (thresholds : list number) (ratio : number) : nat :=
  List.length (filter (fun t => le t ratio) thresholds).

(** The tokens of a string are its maximal runs of characters that are
    not white space; [count_tokens after_space s] counts those that start
    in [s], the first character starting one only after white space. *)
Fixpoint count_tokens (after_space : bool) (s : string) : nat :=
  match s with
  | EmptyString => 0
  | String c r =>
      if is_space c then count_tokens true r
      else (if after_space then 1 else 0) + count_tokens false r
  end.

Definition token_count (s : string) : nat := count_tokens true s.

(** Frames requested from the host. *)
Definition frames (c : Controller.controller) : nat :=
  List.length
    (filter (fun h => match h with Controller.requestAnimFrame => true | _ => false end)
            (Controller.host c)).

(** An element as an argument of a call. *)
Definition node (e : element) : value :=
  Object (ElementObject e) "[object HTMLDivElement]".

(** Every connected observer exists and observes something. *)
Definition connected_observe (w : world) : Prop :=
  forall this, In this (Controller._observers (controller_ w)) ->
    exists o, nth_error (observers w) this = Some o /\ _targets o <> [].

(** A page whose document element 0 holds the root 1, which holds the
    target 2; nothing clips its content. *)
Definition page (rootRect targetRect : rect) : document :=
  {| documentElement := 0;
     clientWidth := of_Z 100;
     clientHeight := of_Z 100;
     getBoundingClientRect :=
       fun e => match e with
                | 1 => rootRect
                | 2 => targetRect
                | _ => emptyRect
                end;
     overflow := fun _ => "visible";
     ancestors :=
       fun e => match e with
                | 2 => [1; 0]
                | 1 => [0]
                | _ => []
                end |}.

Definition callback : value := Object FunctionObject "function () {}".

(** The observer of the examples: root 1, no margins, the default
    threshold. *)
Definition watcher : observer :=
  {| root := Some 1;
     rootMargin := "0px 0px 0px 0px";
     thresholds := [zero];
     _root := 1;
     _callback := callback;
     _rootMargin := [ {| value_ := zero; pixels := true |};
                      {| value_ := zero; pixels := true |};
                      {| value_ := zero; pixels := true |};
                      {| value_ := zero; pixels := true |} ];
     _targets := [];
     _quedEntries := [] |}.

(** The bucket an update computes, in the words of the update algorithm:
    the bucket of the ratio when the intersection exists and the target
    rectangle is not empty, otherwise 1 or 0 as the intersection exists
    or not. *)
Definition bucket (doc : document) (root : element) (rootRect : rect)
  (this : observation) (o : observer) : nat :=
  let targetRect := getRectangle doc (target this) in
  let data :=
    getIntersectionData doc this root (Some rootRect) (Some targetRect) in
  if exists_ data && negb (isEmpty targetRect)
  then getThresholdGreaterThan o (ratio data)
  else if exists_ data then 1 else 0.

Definition px (q : Q) : margin := {| value_ := Fin q; pixels := true |}.
Definition percent (q : Q) : margin := {| value_ := Fin q; pixels := false |}.

(** The controller of the examples: a cycle started at time 100, with the
    default idle timeout of 50. *)
Definition cycling : Controller.controller :=
  Controller.set_cycleStartTime (of_Z 100) Wrapper.controller.

(** No observer reports a change and no callback touches the controller. *)
Definition quiet (c : Controller.controller) : bool * Controller.controller :=
  (false, c).

(** The controller lists no observer twice, and every observer it lists
    exists and observes something. *)
Definition invariant (w : world) : Prop :=
  NoDup (Controller._observers (controller_ w)) /\ connected_observe w.

(** A target of 10 by 10 inside a root of 100 by 100. *)
Definition inside : document :=
  page (createRectangle zero zero (of_Z 100) (of_Z 100))
       (createRectangle (of_Z 10) (of_Z 10) (of_Z 10) (of_Z 10)).

(** An observer of root 1 is constructed and observes the target 2. *)
Definition observing : world :=
  run true [Construct inside (Some callback)
              (OptionsObject (Some (node 1)) (Scalar Undefined) Undefined);
            Observe 0 [node 2] zero zero]
      Wrapper.loaded.

(** An observer of the root 1 with the thresholds 0, 0.25, 0.5 and 1. *)
Definition graded : observer :=
  {| root := Some 1;
     rootMargin := rootMargin watcher;
     thresholds := [Fin 0; Fin 0.25; Fin 0.5; Fin 1];
     _root := 1;
     _callback := callback;
     _rootMargin := _rootMargin watcher;
     _targets := [];
     _quedEntries := [] |}.

(** The values [parseThresholds] converts: the option itself, the items
    of an array, or 0 for nothing. *)
Definition threshold_items (thresholds : threshold_option) : list value :=
  match thresholds with
  | Scalar Undefined => [Num zero]
  | Scalar v => [v]
  | Array [] => [Num zero]
  | Array items => items
  end.

(** A number [parseThresholds] lets through. *)
Definition valid_threshold (n : number) : bool :=
  isFinite n && negb (lt n zero || gt n one).

(** What is thrown for a number that is not let through. *)
Definition threshold_error (n : number) : exn :=
  if isFinite n then RangeError "Threshold values must be between 0 and 1."
  else TypeError "The provided double value is non-finite.".

(** The callback [parseThresholds] maps over the items. *)
Definition threshold_check (threshold : value) : result number :=
  let threshold := Number threshold in
  if negb (isFinite threshold) then
    throw (TypeError "The provided double value is non-finite.")
  else if lt threshold zero || gt threshold one then
    throw (RangeError "Threshold values must be between 0 and 1.")
  else ret threshold.

(** No number of the list sorts before the one in front of it. *)
Definition text_ordered : list number -> Prop :=
  Sorted (fun x y => sorts_before y x = false).

(** The four tokens [parseMargins] makes of the pieces of its argument. *)
Definition expand_margins (pieces : list string) : list string :=
  let m0 := or_string (nth_error pieces 0) "0px" in
  let m1 := or_string (nth_error pieces 1) m0 in
  let m2 := or_string (nth_error pieces 2) m0 in
  let m3 := or_string (nth_error pieces 3) m1 in
  [m0; m1; m2; m3].

(** The callback [parseMargins] maps over the four tokens. *)
Definition margin_of_token (token : string) : result margin :=
  let '(value, unit) :=
    match exec_margin token with
    | Some (v, u) => (Str v, Str u)
    | None => (Undefined, Undefined)
    end in
  let pixels := match unit with Str u => String.eqb u "px" | _ => false end in
  let value := parseFloat (ToString value) in
  if negb (isFinite value) then
    throw (Error "rootMargin must be specified in pixels or percent.")
  else
    let value := if negb pixels then div value (of_Z 100) else value in
    ret {| value_ := value; pixels := pixels |}.

(** A string without white space. *)
Fixpoint no_space (s : string) : bool :=
  match s with
  | EmptyString => true
  | String c r => negb (is_space c) && no_space r
  end.

(** ** The rest of the tick

    [notifySubscriber()] takes the records and calls the callback when
    there are some: the batch handed to the callback, if any. *)
Definition notifySubscriber (o : observer)
  : option (list Entry.entry) * observer :=
  let '(entries, o) := takeRecords o in
  (if negb (Nat.eqb (List.length entries) 0) then Some entries else None, o).

(** The loop of [_updateObservers()] over the connected observers still to
    visit, for callbacks that do not call back into the observers: what
    they are handed is listed, the observer first. [now this e] is the
    clock read when the observer [this] builds an entry for [e]. *)
Fixpoint updateObserversLoop (doc : document)
  (now : nat -> element -> number) (rest : list nat) (w : world)
  : bool * world * list (nat * list Entry.entry) :=
  match rest with
  | [] => (false, w, [])
  | this :: rest' =>
      match nth_error (observers w) this with
      | None => updateObserversLoop doc now rest' w
      | Some o =>
          let '(changed, o) := updateObservations doc (now this) o in
          let '(batch, o) :=
            if hasEntries o then notifySubscriber o else (None, o) in
          let '(hasChanges, w', batches) :=
            updateObserversLoop doc now rest' (with_observer this o w) in
          (changed || hasChanges, w',
           match batch with
           | Some entries => (this, entries) :: batches
           | None => batches
           end)
      end
  end.

Definition updateObservers (doc : document) (now : nat -> element -> number)
  (w : world) : bool * world * list (nat * list Entry.entry) :=
  updateObserversLoop doc now (Controller._observers (controller_ w)) w.

(** The callback of an animation frame: [scheduleUpdate(timestamp)] on
    the observers as they are, [t] being the clock read after they were
    updated. *)
Definition frame (doc : document) (now : nat -> element -> number)
  (timestamp t : number) (w : world)
  : world * list (nat * list Entry.entry) :=
  let '(hasChanges, w', batches) := updateObservers doc now w in
  (with_controller
     (Controller.scheduleUpdate (fun c => (hasChanges, c)) (Num timestamp) t
        (controller_ w'))
     w',
   batches).

(** What happens to the observers: a call from the page, [takeRecords()]
    on an observer, or a frame. *)
Inductive activity : Type :=
| Api (op : operation)
| Records (this : nat)
| Frame (doc : document) (now : nat -> element -> number) (timestamp t : number).

Definition act (mutationsSupported : bool) (w : world) (a : activity) : world :=
  match a with
  | Api op => step mutationsSupported w op
  | Records this =>
      match nth_error (observers w) this with
      | Some o => with_observer this (snd (takeRecords o)) w
      | None => w
      end
  | Frame doc now timestamp t => fst (frame doc now timestamp t w)
  end.

Definition play (mutationsSupported : bool) (l : list activity) (w : world)
  : world :=
  fold_left (act mutationsSupported) l w.

(** The registry of the observer [this] holds each target once, under the
    observation made for it. *)
Definition registry_ok (this : nat) (o : observer) : Prop :=
  NoDup (map fst (_targets o))
  /\ Forall (fun e => target (snd e) = fst e /\ observer_ (snd e) = this)
            (_targets o).

(** ** The controller and its host

    What reaches the controller: the calls its observers and the wrapper
    make, and the events it listens to. *)
Inductive controller_call : Type :=
| Connecting (observer : nat) (now : number)
| Disconnecting (observer : nat)
| Starting (now : number)
| Scheduling
| Mutating (entries : list string) (now : number)
| HoverOn
| HoverOff
| IdleTimeout (value : number).

Definition call_controller (mutationsSupported : bool)
  (c : Controller.controller) (a : controller_call) : Controller.controller :=
  match a with
  | Connecting observer now => Controller.connect mutationsSupported observer now c
  | Disconnecting observer => Controller.disconnect mutationsSupported observer c
  | Starting now => Controller.startUpdateCycle now c
  | Scheduling => Controller.requestUpdate c
  | Mutating entries now => Controller._onMutation entries now c
  | HoverOn => Controller.enableHover c
  | HoverOff => Controller.disableHover c
  | IdleTimeout value => Controller.set_idleTimeout value c
  end.

(** The host either passes on a call, or runs the frame it was asked for:
    during the update of the observers their callbacks make [callbacks],
    and [hasChanges] is what the update returns. In [FailFrame] the update
    does not return: a callback throws after [callbacks] were made, and
    the exception leaves [scheduleUpdate], which catches nothing, at the
    call of [_updateObservers]. *)
Inductive host_event : Type :=
| Call (a : controller_call)
| RunFrame (timestamp : number) (hasChanges : bool)
    (callbacks : list controller_call) (now : number)
| FailFrame (timestamp : number) (callbacks : list controller_call).

(** The frame returns. *)
Definition returning (e : host_event) : bool :=
  match e with FailFrame _ _ => false | _ => true end.

(** The controller and the number of frames the host has run. A frame
    runs only if one was requested and has not run yet. *)
Record hosted : Type := {
  controlled : Controller.controller;
  ran : nat
}.

Definition host_step (mutationsSupported : bool) (h : hosted) (e : host_event)
  : hosted :=
  match e with
  | Call a =>
      {| controlled := call_controller mutationsSupported (controlled h) a;
         ran := ran h |}
  | RunFrame timestamp hasChanges callbacks now =>
      if Nat.ltb (ran h) (frames (controlled h)) then
        {| controlled :=
             Controller.scheduleUpdate
               (fun c => (hasChanges,
                          fold_left (call_controller mutationsSupported) callbacks c))
               (Num timestamp) now (controlled h);
           ran := S (ran h) |}
      else h
  | FailFrame timestamp callbacks =>
      if Nat.ltb (ran h) (frames (controlled h)) then
        {| controlled :=
             fold_left (call_controller mutationsSupported) callbacks
               (controlled h);
           ran := S (ran h) |}
      else h
  end.

Definition host_run (mutationsSupported : bool) (l : list host_event)
  (h : hosted) : hosted :=
  fold_left (host_step mutationsSupported) l h.

Definition hosted_start : hosted :=
  {| controlled := Wrapper.controller; ran := 0 |}.

(** Listeners of a type the controller has added and not removed. *)
Definition installed (type : string) (c : Controller.controller) : Z :=
  fold_left
    (fun n h =>
       match h with
       | Controller.addEventListener t =>
           if String.eqb t type then (n + 1)%Z else n
       | Controller.removeEventListener t =>
           if String.eqb t type then (n - 1)%Z else n
       | _ => n
       end)
    (Controller.host c) 0%Z.

(** MutationObservers the controller has started and not disconnected. *)
Definition observing_mutations (c : Controller.controller) : Z :=
  fold_left
    (fun n h =>
       match h with
       | Controller.mutationsObserve => (n + 1)%Z
       | Controller.mutationsDisconnect => (n - 1)%Z
       | _ => n
       end)
    (Controller.host c) 0%Z.

Definition Z_of_bool (b : bool) : Z := if b then 1%Z else 0%Z.

(** The controller listens exactly while it has observers, which it
    lists once each; and each listener it has added and not removed is
    one it accounts for. *)
Definition listening_ok (mutationsSupported : bool) (c : Controller.controller)
  : Prop :=
  NoDup (Controller._observers c)
  /\ Controller._isListening c
     = negb (match Controller._observers c with [] => true | _ => false end)
  /\ Controller._hoverInitiated c
     = Controller._trackHovers c && Controller._isListening c
  /\ Controller._repeatCycle c
     = negb mutationsSupported && Controller._isListening c
  /\ Controller._mutationsObserver c
     = mutationsSupported && Controller._isListening c
  /\ installed "resize" c = Z_of_bool (Controller._isListening c)
  /\ installed "scroll" c = Z_of_bool (Controller._isListening c)
  /\ installed "click" c
     = Z_of_bool (negb mutationsSupported && Controller._isListening c)
  /\ installed "mouseover" c = Z_of_bool (Controller._hoverInitiated c)
  /\ observing_mutations c = Z_of_bool (Controller._mutationsObserver c).

(** What a call may do to the frames: nothing, or request one when none
    was scheduled. *)
Definition frame_effect (c c' : Controller.controller) : Prop :=
  (Controller._isUpdateScheduled c' = Controller._isUpdateScheduled c
   /\ frames c' = frames c)
  \/ (Controller._isUpdateScheduled c = false
      /\ Controller._isUpdateScheduled c' = true
      /\ frames c' = S (frames c)).

(** The frames requested are those that ran, and one more exactly when
    an update is scheduled. *)
Definition frames_ok (h : hosted) : Prop :=
  frames (controlled h)
  = ran h + (if Controller._isUpdateScheduled (controlled h) then 1 else 0).

(** No frame is pending and none will be requested: an update counts as
    scheduled, and every frame requested has run. *)
Definition stalled (h : hosted) : Prop :=
  Controller._isUpdateScheduled (controlled h) = true
  /\ frames (controlled h) = ran h.

(** The bucket of the observation changes in an update against
    [rootRect]. *)
Definition bucket_changes (doc : document) (root : element) (rootRect : rect)
  (o : observer) (this : observation) : bool :=
  negb (Nat.eqb (bucket doc root rootRect this o) (prevThreshold this)).

(** Between two activities: every registry is in order and no observer
    has an entry queued. *)
Definition settled (w : world) : Prop :=
  forall this o, nth_error (observers w) this = Some o ->
    registry_ok this o /\ _quedEntries o = [].

(** ** Rectangles with finite edges *)

Definition finite_edges (r : rect) : bool :=
  isFinite (left r) && isFinite (top r) && isFinite (right r)
  && isFinite (bottom r).

(** A rectangle with finite edges whose width and height are exactly the
    differences of its edges and not negative. *)
Definition isClientRect (r : rect) : bool :=
  finite_edges r
  && strict_eq (width r) (sub (right r) (left r))
  && strict_eq (height r) (sub (bottom r) (top r))
  && le zero (width r) && le zero (height r).

(** [inner] lies within [outer]. *)
Definition within (inner outer : rect) : bool :=
  le (left outer) (left inner) && le (top outer) (top inner)
  && le (right inner) (right outer) && le (bottom inner) (bottom outer).

(** [a] lies wholly on one side of [b]. *)
Definition beside (a b : rect) : bool :=
  lt (right a) (left b) || lt (right b) (left a)
  || lt (bottom a) (top b) || lt (bottom b) (top a).

(** The ancestors that clip in [getIntersection]: those below the
    container whose overflow is not visible. *)
Fixpoint clippers (doc : document) (container : element)
  (parents : list element) : list element :=
  match parents with
  | [] => []
  | parent :: parents' =>
      if Nat.eqb parent container then []
      else if negb (String.eqb (overflow doc parent) "visible")
           then parent :: clippers doc container parents'
           else clippers doc container parents'
  end.

(** The rational a finite number is. *)
Definition qval (x : number) : Q :=
  match x with Fin q => q | _ => 0%Q end.

(** A rectangle with finite edges whose width and height are finite and
    the differences of its edges. *)
Definition boxed (r : rect) : Prop :=
  finite_edges r = true
  /\ isFinite (width r) = true /\ isFinite (height r) = true
  /\ (qval (width r) == qval (right r) - qval (left r))%Q
  /\ (qval (height r) == qval (bottom r) - qval (top r))%Q.

(** A ratio within 0 and 1. *)
Definition unit_ratio (x : number) : bool := le zero x && le x one.

(** What the constructor establishes of the options of an observer. *)
Definition configured (o : observer) : Prop :=
  thresholds o <> []
  /\ Forall (fun t => unit_ratio t = true) (thresholds o)
  /\ List.length (_rootMargin o) = 4
  /\ Forall (fun m => isFinite (value_ m) = true) (_rootMargin o).

(** Margins that move no edge. *)
Definition no_margin (m : margin) : bool := strict_eq (value_ m) zero.

(** A page whose root 1 holds a scroller 3 of 50 by 50, which clips its
    content and holds the target 2 of 20 by 20 at its corner. *)
Definition scroller : document :=
  {| documentElement := 0;
     clientWidth := of_Z 100;
     clientHeight := of_Z 100;
     getBoundingClientRect :=
       fun e => match e with
                | 1 => createRectangle zero zero (of_Z 100) (of_Z 100)
                | 2 => createRectangle (of_Z 40) (of_Z 40) (of_Z 20) (of_Z 20)
                | 3 => createRectangle zero zero (of_Z 50) (of_Z 50)
                | _ => emptyRect
                end;
     overflow := fun e => match e with 3 => "hidden" | _ => "visible" end;
     ancestors :=
       fun e => match e with
                | 2 => [3; 1; 0]
                | 3 => [1; 0]
                | 1 => [0]
                | _ => []
                end |}.

(** What the constructor stores of its arguments. *)
Definition options_of (o : observer)
  : option element * string * list number * element * value * list margin :=
  (root o, rootMargin o, thresholds o, _root o, _callback o, _rootMargin o).

(** An observer as the constructor returns one. *)
Definition constructed (o : observer) : Prop :=
  exists doc callback options,
    new_IntersectionObserver doc callback options = ret o.

(** Every rectangle of the page has a width and a height that are
    exactly the differences of its edges. *)
Definition measured (doc : document) : Prop :=
  forall e, isClientRect (getRectangle doc e) = true.

(** *** The pixel grid

    An integer of magnitude at most [2 ^ n]. The sums, differences and
    products of such numbers that the statements below meet stay below
    [2 ^ 53], where the arithmetic of the code is exact as that of the
    embedding is. *)
Definition on_grid (n : Z) (x : number) : bool :=
  match x with
  | Fin q =>
      Z.eqb (Qnum q mod Zpos (Qden q)) 0
      && Z.leb (Z.abs (Qnum q)) (2 ^ n * Zpos (Qden q))
  | _ => false
  end.

Definition grid_edges (n : Z) (r : rect) : bool :=
  on_grid n (left r) && on_grid n (top r) && on_grid n (right r)
  && on_grid n (bottom r).

(** A rectangle as the host reports one at whole pixels: [x], [y],
    [width] and [height] on the grid, the sizes not negative, [right]
    being [x + width] and [bottom] being [y + height]. *)
Definition grid_rect (n : Z) (r : rect) : bool :=
  on_grid n (left r) && on_grid n (top r)
  && on_grid n (width r) && on_grid n (height r)
  && le zero (width r) && le zero (height r)
  && strict_eq (right r) (add (left r) (width r))
  && strict_eq (bottom r) (add (top r) (height r)).

(** Every rectangle of the page is reported at whole pixels. *)
Definition on_pixel_grid (doc : document) : Prop :=
  forall e, grid_rect 25 (getRectangle doc e) = true.

(** The root margins of the observer are whole pixels. *)
Definition pixel_margins (o : observer) : bool :=
  forallb (fun m => pixels m && on_grid 25 (value_ m)) (_rootMargin o).

(** What a margin moves an edge by: its value, or that fraction of the
    dimension. *)
Definition margin_amount_of (m : margin) (dimension : number) : number :=
  if negb (pixels m) then mul (value_ m) dimension else value_ m.

(** *** The shorthand of margins

    A token is not empty and has no white space; a separator is a run of
    white space that is not empty. *)
Definition is_token (s : string) : bool :=
  no_space s && negb (String.eqb s "").

Fixpoint all_space (s : string) : bool :=
  match s with
  | EmptyString => true
  | String c r => is_space c && all_space r
  end.

Definition is_separator (s : string) : bool :=
  all_space s && negb (String.eqb s "").

(** The margins of the four sides, each parsed as [parseMargins] parses a
    token, and their canonical text. *)
Definition shorthand (top right bottom left : string) : result margins_data :=
  bind (map_result margin_of_token [top; right; bottom; left])
       (fun parsedData =>
          ret {| rawData := join [top; right; bottom; left];
                 parsedData := parsedData |}).

(** Every entry queued has a ratio within 0 and 1. *)
Definition unit_ratios (entries : list Entry.entry) : Prop :=
  Forall (fun e => unit_ratio (Entry.intersectionRatio e) = true) entries.

(** ** debounce

    [debounce(callback, delay)] keeps the identifier of the timeout it
    has set, or [false]. The host is modelled by the timeouts that are
    pending, each with the time it is due at and the arguments its
    closure holds, and by the identifier it gives next; the clock is in
    milliseconds. What the callback does is left open: its calls are
    listed, with the time and the arguments of each; a call it makes back
    into the wrapper is an invocation that follows the timeout, since
    [timeoutID] is reset before the callback is applied. *)

Module Debounce.

Section Debounced.

Variable A : Type.
Variable delay : Z.

Record state : Type := {
  timeoutID : option nat;
  timers : list (nat * (Z * A));
  fresh : nat;
  calls : list (Z * A)
}.

(** [debounce(callback, delay)], before the function it returns is
    called. *)
Definition debounce : state :=
  {| timeoutID := None; timers := []; fresh := 1; calls := [] |}.

Definition clearTimeout (id : nat) (pending : list (nat * (Z * A)))
  : list (nat * (Z * A)) :=
  filter (fun t => negb (Nat.eqb (fst t) id)) pending.

(** A call of the function [debounce] returned, with [args], at the time
    [now]. *)
Definition invoke (now : Z) (args : A) (s : state) : state :=
  let pending :=
    match timeoutID s with
    | Some id => clearTimeout id (timers s)
    | None => timers s
    end in
  {| timeoutID := Some (fresh s);
     timers := (pending ++ [(fresh s, ((now + delay)%Z, args))])%list;
     fresh := S (fresh s);
     calls := calls s |}.

(** The host, at the time [now], runs the first pending timeout that is
    due, if there is one. *)
Definition timeout (now : Z) (s : state) : state :=
  match find (fun t => Z.leb (fst (snd t)) now) (timers s) with
  | Some (id, (_, args)) =>
      {| timeoutID := None;
         timers := clearTimeout id (timers s);
         fresh := fresh s;
         calls := (calls s ++ [(now, args)])%list |}
  | None => s
  end.

Inductive event : Type :=
| Invoke (now : Z) (args : A)
| Timeout (now : Z).

Definition invocation (e : event) : bool :=
  match e with Invoke _ _ => true | Timeout _ => false end.

Definition handle (s : state) (e : event) : state :=
  match e with
  | Invoke now args => invoke now args s
  | Timeout now => timeout now s
  end.

Definition run (events : list event) (s : state) : state :=
  fold_left handle events s.

(** What a debounced function is to do, with one slot for the last
    invocation not yet answered: the calls of the callback. *)
Fixpoint debounced (slot : option (Z * A)) (events : list event)
  : list (Z * A) :=
  match events with
  | [] => []
  | Invoke now args :: rest => debounced (Some ((now + delay)%Z, args)) rest
  | Timeout now :: rest =>
      match slot with
      | Some (due, args) =>
          if Z.leb due now then (now, args) :: debounced None rest
          else debounced slot rest
      | None => debounced None rest
      end
  end.

(** The timeout kept is the only one pending, and holds [slot]. *)
Definition keeps (s : state) (slot : option (Z * A)) : Prop :=
  match slot with
  | Some p => exists id, timeoutID s = Some id /\ timers s = [(id, p)]
  | None => timers s = []
  end.

End Debounced.

End Debounce.

(** ** Properties *)

(** *** Thresholds *)

(** The thresholds of the test suite come out in ascending order. *)
Lemma parseThresholds_test_suite :
  parseThresholds
    (Array [Num (Fin 0); Num (Fin 0.9); Num (Fin 0.2); Num (Fin 1);
            Num (Fin 0.3); Num (Fin 0.1); Num (Fin 0.5)])
  = ret [Fin 0; Fin 0.1; Fin 0.2; Fin 0.3; Fin 0.5; Fin 0.9; Fin 1].
Proof. vm_compute. reflexivity. Qed.

(** C1. [parseThresholds] accepts the thresholds [0.5, 1e-7], both within
    [0, 1], and returns them in that order, which is not ascending: the
    array is sorted by the texts of the numbers, and the text of 1e-7
    starts with the digit 1. *)
Theorem parseThresholds_orders_by_text :
  parseThresholds (Array [Num (Fin 0.5); Num (Fin 0.0000001)])
    = ret [Fin 0.5; Fin 0.0000001]
  /\ NumberToString (Fin 0.5) = "0.5"
  /\ NumberToString (Fin 0.0000001) = "1e-7"
  /\ lt (Fin 0.0000001) (Fin 0.5) = true
  /\ ascending [Fin 0.5; Fin 0.0000001] = false.
Proof. repeat split; vm_compute; reflexivity. Qed.

(** The order of numbers on finite values is the order of [Q]. *)
Lemma le_Fin (a b : Q) : le (Fin a) (Fin b) = true <-> (a <= b)%Q.
Proof.
  unfold le, lt, strict_eq. rewrite orb_true_iff, Qeq_bool_iff, Qle_lteq.
  rewrite Qlt_alt. destruct (a ?= b)%Q; intuition congruence.
Qed.

Lemma le_trans (x y z : number) :
  le x y = true -> le y z = true -> le x z = true.
Proof.
  destruct x as [| | |a], y as [| | |b], z as [| | |c];
    try (cbn; congruence); try (intros; reflexivity).
  rewrite !le_Fin. apply Qle_trans.
Qed.

Section Thresholds.

Variable o : observer.

Lemma thresholdScan_from (l : list number) (ratio : number) (index : nat) :
  thresholdScan l ratio index = index + thresholdScan l ratio 0.
Proof.
  revert index. induction l as [|t l IH]; intros index; simpl.
  - lia.
  - destruct (le t ratio); [|lia].
    rewrite (IH (S index)), (IH 1). lia.
Qed.

(** X2. The bucket is an index into the thresholds, or their number. *)
Lemma getThresholdGreaterThan_range (ratio : number) :
  getThresholdGreaterThan o ratio <= List.length (thresholds o).
Proof.
  unfold getThresholdGreaterThan.
  induction (thresholds o) as [|t l IH]; simpl; [lia|].
  destruct (le t ratio); [|lia].
  rewrite thresholdScan_from. lia.
Qed.

(** X1. A greater ratio never falls into a lower bucket, whatever the
    order of the thresholds. *)
Lemma getThresholdGreaterThan_monotone (r1 r2 : number) :
  le r1 r2 = true ->
  getThresholdGreaterThan o r1 <= getThresholdGreaterThan o r2.
Proof.
  intros Hr. unfold getThresholdGreaterThan.
  induction (thresholds o) as [|t l IH]; simpl; [lia|].
  destruct (le t r1) eqn:Ht; [|lia].
  rewrite (le_trans _ _ _ Ht Hr).
  rewrite (thresholdScan_from l r1 1), (thresholdScan_from l r2 1). lia.
Qed.

Lemma ascending_head (t : number) (l : list number) :
  ascending (t :: l) = true -> Forall (fun u => le t u = true) l.
Proof.
  revert t. induction l as [|u l IH]; intros t H; constructor.
  - simpl in H. apply andb_true_iff in H. tauto.
  - simpl in H. apply andb_true_iff in H. destruct H as [Htu Hl].
    specialize (IH u Hl). rewrite Forall_forall in *.
    intros v Hv. exact (le_trans _ _ _ Htu (IH v Hv)).
Qed.

Lemma ascending_tail (t : number) (l : list number) :
  ascending (t :: l) = true -> ascending l = true.
Proof.
  destruct l as [|u l]; [reflexivity|].
  intros H. change (le t u && ascending (u :: l) = true) in H.
  apply andb_true_iff in H. tauto.
Qed.

(** X3. On ascending thresholds the bucket is the number of thresholds
    that are at most the ratio. *)
Lemma getThresholdGreaterThan_count (ratio : number) :
  ascending (thresholds o) = true ->
  getThresholdGreaterThan o ratio = count_le (thresholds o) ratio.
Proof.
  unfold getThresholdGreaterThan, count_le.
  induction (thresholds o) as [|t l IH]; intros Hasc; [reflexivity|].
  simpl. destruct (le t ratio) eqn:Ht.
  - rewrite thresholdScan_from, (IH (ascending_tail _ _ Hasc)). reflexivity.
  - pose proof (ascending_head _ _ Hasc) as Hall.
    clear IH Hasc. induction Hall as [|u l Hu _ IHl]; [reflexivity|].
    simpl. destruct (le u ratio) eqn:Hur; [|exact IHl].
    rewrite (le_trans _ _ _ Hu Hur) in Ht. discriminate.
Qed.

End Thresholds.

Lemma graded_constructed :
  new_IntersectionObserver (page emptyRect emptyRect) callback
    (OptionsObject (Some (node 1))
       (Array [Num (Fin 0.5); Num (Fin 1); Num (Fin 0); Num (Fin 0.25)])
       Undefined)
  = ret graded.
Proof. vm_compute. reflexivity. Qed.

(** X1 at the ratios 0.3 and 0.7. *)
Lemma getThresholdGreaterThan_monotone_graded :
  le (Fin 0.3) (Fin 0.7) = true
  /\ getThresholdGreaterThan graded (Fin 0.3)
     <= getThresholdGreaterThan graded (Fin 0.7).
Proof.
  split; [reflexivity|].
  apply (getThresholdGreaterThan_monotone graded (Fin 0.3) (Fin 0.7)).
  reflexivity.
Defined.

(** X3 at the ratio 0.3: two of the thresholds 0, 0.25, 0.5 and 1 are at
    most 0.3. *)
Lemma getThresholdGreaterThan_count_graded :
  ascending (thresholds graded) = true
  /\ getThresholdGreaterThan graded (Fin 0.3) = count_le (thresholds graded) (Fin 0.3).
Proof.
  split; [reflexivity|].
  apply (getThresholdGreaterThan_count graded (Fin 0.3)). reflexivity.
Defined.

(** C7. The observer constructed with the thresholds [0.5, 1e-7] stores
    them in that order (see C1); for the ratio 0.1 its bucket is 0, while
    one stored threshold, 1e-7, is at most 0.1. On those thresholds the
    bucket stays within their number and does not decrease from 0.1 to
    0.6. *)
Theorem getThresholdGreaterThan_misses_count :
  exists o,
    new_IntersectionObserver (page emptyRect emptyRect) callback
      (OptionsObject None (Array [Num (Fin 0.5); Num (Fin 0.0000001)]) Undefined)
      = ret o
    /\ thresholds o = [Fin 0.5; Fin 0.0000001]
    /\ getThresholdGreaterThan o (Fin 0.1) = 0
    /\ count_le (thresholds o) (Fin 0.1) = 1
    /\ getThresholdGreaterThan o (Fin 0.6) = 2.
Proof.
  eexists. split; [vm_compute; reflexivity|].
  repeat split; vm_compute; reflexivity.
Qed.

(** *** Observations *)

Lemma watcher_constructed :
  new_IntersectionObserver (page emptyRect emptyRect) callback
    (OptionsObject (Some (node 1)) (Scalar Undefined) Undefined) = ret watcher.
Proof. vm_compute. reflexivity. Qed.

(** C3. A target 0 wide and 10 high at x = 5, left of a root that spans
    x from 10 to 20: the target has area 0, the clipped rectangle is -5
    wide and 10 high, and the ratio returned is -50 / 0, negative
    infinity, not 0. *)
Theorem getIntersectionData_zero_area_infinite :
  let rootRect := createRectangle (of_Z 10) zero (of_Z 10) (of_Z 10) in
  let targetRect := createRectangle (of_Z 5) zero zero (of_Z 10) in
  let doc := page rootRect targetRect in
  let data :=
    getIntersectionData doc (IntersectionObservation 2 0) 1
      (Some rootRect) (Some targetRect) in
  isDetached doc 1 2 = false
  /\ getRootRect doc watcher = rootRect
  /\ getRectangle doc 2 = targetRect
  /\ getArea targetRect = zero
  /\ getArea (rect_ data) = of_Z (-50)
  /\ ratio data = NegInf
  /\ fst (fst (updateIntersection doc zero 1 rootRect
                 (IntersectionObservation 2 0) watcher))
     = {| ratioChanged := true; thresholdChanged := false;
          targetRectChanged := true |}
  /\ prevRatio (snd (fst (updateIntersection doc zero 1 rootRect
                            (IntersectionObservation 2 0) watcher)))
     = NegInf.
Proof. repeat split; vm_compute; reflexivity. Qed.

(** X4. Where the areas are finite and that of the target is not zero,
    the ratio is their quotient. *)
Lemma getIntersectionData_ratio (doc : document) (this : observation)
  (container : element) (containterRect targetRect : rect) (a b : Q) :
  let data :=
    getIntersectionData doc this container
      (Some containterRect) (Some targetRect) in
  getArea (rect_ data) = Fin a -> getArea targetRect = Fin b -> ~ (b == 0)%Q ->
  strict_eq (ratio data) (div (Fin a) (Fin b)) = true.
Proof.
  intros data Ha Hb Hne. unfold data, getIntersectionData in *. cbn [ratio rect_] in *.
  rewrite Ha, Hb. unfold div, Qsgn.
  assert (Hs : (Qnum b ?= 0)%Z <> Eq).
  { intros H. apply Z.compare_eq in H. apply Hne. unfold Qeq. simpl. lia. }
  assert (Hr : forall q, strict_eq (or_else (Fin q) zero) (Fin q) = true).
  { intros q. unfold or_else, truthy. destruct (Qeq_bool q 0) eqn:E; simpl.
    - rewrite Qeq_bool_iff in *. symmetry. exact E.
    - apply Qeq_bool_iff. reflexivity. }
  destruct (Qnum b ?= 0)%Z; [congruence| |]; apply Hr.
Qed.

(** X4 at a target of 10 by 10 within its root: the ratio is 100 / 100. *)
Lemma getIntersectionData_ratio_inside :
  let targetRect := createRectangle (of_Z 10) (of_Z 10) (of_Z 10) (of_Z 10) in
  let rootRect := createRectangle zero zero (of_Z 100) (of_Z 100) in
  let data :=
    getIntersectionData inside (IntersectionObservation 2 0) 1
      (Some rootRect) (Some targetRect) in
  getArea (rect_ data) = Fin 100
  /\ getArea targetRect = Fin 100
  /\ strict_eq (ratio data) (div (Fin 100) (Fin 100)) = true.
Proof.
  intros targetRect rootRect data.
  split; [reflexivity|]. split; [reflexivity|].
  apply (getIntersectionData_ratio inside (IntersectionObservation 2 0) 1
           rootRect targetRect 100 100); [reflexivity|reflexivity|].
  intros H. discriminate H.
Defined.


(** C5. An update queues an entry on the observer exactly when the bucket
    it computes differs from the previous one: then one entry for the
    target is appended to the queue, and otherwise the observer is left as
    it was, whatever became of the ratio and of the rectangle. The bucket
    computed is cached as the previous one. *)
Theorem updateIntersection_queues_iff_bucket_changed
  (doc : document) (now : number) (root : element) (rootRect : rect)
  (this : observation) (o : observer) :
  let '(changes, this', o') := updateIntersection doc now root rootRect this o in
  let new := bucket doc root rootRect this o in
  prevThreshold this' = new
  /\ thresholdChanged changes = negb (Nat.eqb new (prevThreshold this))
  /\ ((exists e, _quedEntries o' = (_quedEntries o ++ [e])%list)
      <-> new <> prevThreshold this)
  /\ (new <> prevThreshold this ->
      exists e, o' = queueEntry e o /\ Entry.target e = target this
                /\ Entry.time e = now)
  /\ (new = prevThreshold this -> o' = o).
Proof.
  unfold updateIntersection, bucket. cbv zeta.
  set (targetRect := getRectangle doc (target this)).
  set (data := getIntersectionData doc this root (Some rootRect) (Some targetRect)).
  set (new := if exists_ data && negb (isEmpty targetRect)
              then getThresholdGreaterThan o (ratio data)
              else if exists_ data then 1 else 0).
  cbn [prevThreshold thresholdChanged].
  destruct (Nat.eqb new (prevThreshold this)) eqn:E; cbn [negb].
  - apply Nat.eqb_eq in E.
    split; [reflexivity|]. split; [reflexivity|]. split; [|split].
    + split; [|tauto]. intros [e He]. apply (f_equal (@List.length _)) in He.
      rewrite length_app in He. simpl in He. lia.
    + tauto.
    + reflexivity.
  - apply Nat.eqb_neq in E.
    split; [reflexivity|]. split; [reflexivity|]. split; [|split].
    + split; [tauto|]. intros _. unfold queueEntry.
      cbn [_quedEntries set_quedEntries]. eauto.
    + intros _. eexists. repeat split.
    + tauto.
Qed.

(** A target that moves from 60% to 70% within the root of [graded],
    whose thresholds are 0, 0.25, 0.5 and 1: the ratio and the rectangle
    change, the bucket stays 3 and nothing is queued. *)
Lemma updateIntersection_within_a_bucket :
  let rootRect := createRectangle zero zero (of_Z 100) (of_Z 100) in
  let before := createRectangle (of_Z (-4)) zero (of_Z 10) (of_Z 10) in
  let after := createRectangle (of_Z (-3)) zero (of_Z 10) (of_Z 10) in
  let this := snd (fst (updateIntersection (page rootRect before) zero 1
                          rootRect (IntersectionObservation 2 0) graded)) in
  prevThreshold this = 3
  /\ prevRatio this = Fin (3 # 5)
  /\ updateIntersection (page rootRect after) zero 1 rootRect this graded
     = ({| ratioChanged := true; thresholdChanged := false;
           targetRectChanged := true |},
        {| target := 2; observer_ := 0; prevTargetRect := after;
           prevThreshold := 3; prevRatio := Fin (7 # 10) |},
        graded).
Proof. repeat split; vm_compute; reflexivity. Qed.

(** *** Margins *)

Lemma count_tokens_after_space (s : string) :
  count_tokens true s <= 1 + count_tokens false s.
Proof. destruct s as [|c r]; simpl; [lia|]. destruct (is_space c); simpl; lia. Qed.

(** [split] leaves at least one piece for each token. *)
Lemma split_go_tokens (s : string) :
  forall piece,
    1 + count_tokens false s <= List.length (split_go false piece s)
    /\ count_tokens true s <= List.length (split_go true piece s).
Proof.
  induction s as [|c r IH]; intros piece; simpl.
  - lia.
  - destruct (is_space c); simpl.
    + destruct (IH piece) as [_ H1]. destruct (IH EmptyString) as [_ H2]. lia.
    + destruct (IH (piece ++ String c EmptyString)) as [H _]. lia.
Qed.

Lemma split_tokens (s : string) : token_count s <= List.length (split s).
Proof.
  unfold token_count, split.
  pose proof (count_tokens_after_space s).
  destruct (split_go_tokens s EmptyString) as [H1 _]. lia.
Qed.

(** *** The controller *)

Section Ticks.

Variable _updateObservers : Controller.controller -> bool * Controller.controller.

(** What the controller does in a tick driven by a frame, with the
    cycle running after the observers were updated and none of them
    reporting a change: it requests exactly one more frame and
    leaves the start of the cycle alone if and only if the time elapsed
    since the start is not greater than the idle timeout; otherwise it
    requests none and ends the cycle (the start becomes -1, or 0 with the
    repeat handler called when cycles repeat). *)
Theorem scheduleUpdate_idle_tick
  (timestamp now : number) (c : Controller.controller) :
  let c1 := snd (_updateObservers c) in
  let c' := Controller.scheduleUpdate _updateObservers (Num timestamp) now c in
  let elapsed := sub now (Controller._cycleStartTime c1) in
  fst (_updateObservers c) = false ->
  Controller._wasCycleStarted c1 = true ->
  (frames c' = S (frames c1) <-> gt elapsed (Controller._idleTimeout c1) = false)
  /\ (gt elapsed (Controller._idleTimeout c1) = false ->
      Controller.host c' = (Controller.host c1 ++ [Controller.requestAnimFrame])%list
      /\ Controller._isUpdateScheduled c' = true
      /\ Controller._cycleStartTime c' = Controller._cycleStartTime c1)
  /\ (gt elapsed (Controller._idleTimeout c1) = true ->
      frames c' = frames c1
      /\ Controller._isUpdateScheduled c' = false
      /\ Controller._cycleStartTime c'
         = (if Controller._repeatCycle c1 then zero else of_Z (-1))
      /\ Controller.host c'
         = (Controller.host c1
              ++ if Controller._repeatCycle c1 then [Controller.repeatHandler] else [])%list).
Proof.
  intros c1 c' elapsed Hchanges Hstarted.
  unfold c', Controller.scheduleUpdate. cbn [typeof String.eqb Ascii.eqb Bool.eqb].
  destruct (_updateObservers c) as [hasChanges c2] eqn:Hupd.
  cbn [fst snd] in *. subst hasChanges c1.
  assert (Hs : Controller._wasCycleStarted
                 (Controller.set_isUpdateScheduled false c2) = true)
    by exact Hstarted.
  rewrite Hs. cbn [negb].
  unfold Controller._hasIdleTimeEnded.
  cbn [Controller.set_isUpdateScheduled Controller._cycleStartTime
       Controller._idleTimeout].
  fold elapsed.
  destruct (gt elapsed (Controller._idleTimeout c2)) eqn:Hgt; cbn [negb].
  - assert (Hf : frames (Controller._onCycleEnded
                           (Controller.set_isUpdateScheduled false c2))
                 = frames c2).
    { unfold Controller._onCycleEnded, frames.
      cbn [Controller.set_cycleStartTime Controller.set_isUpdateScheduled
           Controller._repeatCycle].
      destruct (Controller._repeatCycle c2); cbn [Controller.call Controller.host
        Controller.set_cycleStartTime]; [|reflexivity].
      rewrite filter_app, length_app. simpl. lia. }
    split; [|split].
    + rewrite Hf. split; [lia|discriminate].
    + discriminate.
    + intros _. split; [exact Hf|].
      unfold Controller._onCycleEnded.
      cbn [Controller.set_cycleStartTime Controller.set_isUpdateScheduled
           Controller._repeatCycle].
      destruct (Controller._repeatCycle c2); cbn; rewrite ?app_nil_r; auto.
  - assert (Hh : Controller.host
                   (Controller.requestUpdate
                      (Controller.set_isUpdateScheduled false c2))
                 = (Controller.host c2 ++ [Controller.requestAnimFrame])%list)
      by reflexivity.
    split; [|split].
    + split; [reflexivity|]. intros _. unfold frames. rewrite Hh.
      rewrite filter_app, length_app. simpl. lia.
    + intros _. split; [exact Hh|]. split; reflexivity.
    + discriminate.
Qed.

End Ticks.

(** The tick at time 120 of a cycle started at 100. *)
Lemma scheduleUpdate_idle_tick_at_120 :
  fst (quiet cycling) = false
  /\ Controller._wasCycleStarted (snd (quiet cycling)) = true
  /\ frames (Controller.scheduleUpdate quiet (Num (of_Z 116)) (of_Z 120) cycling)
     = 1.
Proof.
  split; [reflexivity|]. split; [reflexivity|].
  destruct (scheduleUpdate_idle_tick quiet (of_Z 116) (of_Z 120) cycling
              eq_refl eq_refl) as [[_ H] _].
  exact (H eq_refl).
Defined.

(** C4. When the time elapsed equals the idle timeout the timeout is
    reached, and the cycle is to end: at time 150 of a cycle started at
    100 the elapsed 50 is not less than the timeout 50, and yet one more
    frame is requested and the cycle goes on. *)
Theorem scheduleUpdate_at_the_timeout :
  let c' := Controller.scheduleUpdate quiet (Num (of_Z 150)) (of_Z 150) cycling in
  let elapsed := sub (of_Z 150) (Controller._cycleStartTime cycling) in
  strict_eq elapsed (Controller._idleTimeout cycling) = true
  /\ lt elapsed (Controller._idleTimeout cycling) = false
  /\ frames c' = S (frames cycling)
  /\ Controller._isUpdateScheduled c' = true
  /\ Controller._cycleStartTime c' = of_Z 100
  /\ Controller._wasCycleStarted c' = true.
Proof. repeat split; vm_compute; reflexivity. Qed.

(** C9. The static setter accepts -5: the text of [typeof value] is
    compared with 0, and that comparison is never true. The idle timeout
    is then negative. *)
Theorem set_idleTimeout_accepts_negative :
  Wrapper.set_idleTimeout (Num (of_Z (-5))) Wrapper.controller
    = ret (Controller.set_idleTimeout (of_Z (-5)) Wrapper.controller)
  /\ string_lt_number (typeof (Num (of_Z (-5)))) zero = false
  /\ Wrapper.get_idleTimeout
       (Controller.set_idleTimeout (of_Z (-5)) Wrapper.controller)
     = of_Z (-5)
  /\ lt (of_Z (-5)) zero = true.
Proof. repeat split; vm_compute; reflexivity. Qed.

(** *** Connecting and disconnecting *)

Lemma indexOf_split (x : nat) (l : list nat) (i : nat) :
  Controller.indexOf x l = Some i ->
  exists l1 l2, l = (l1 ++ x :: l2)%list
                /\ Controller.splice1 i l = (l1 ++ l2)%list.
Proof.
  revert i. induction l as [|y l IH]; intros i H; simpl in H; [discriminate|].
  destruct (Nat.eqb y x) eqn:E.
  - apply Nat.eqb_eq in E. subst y. injection H as <-.
    exists [], l. split; reflexivity.
  - destruct (Controller.indexOf x l) as [j|] eqn:Hj; [|discriminate].
    injection H as <-. destruct (IH j eq_refl) as (l1 & l2 & -> & Hs).
    exists (y :: l1), l2. simpl. rewrite Hs. split; reflexivity.
Qed.

Lemma indexOf_None (x : nat) (l : list nat) :
  Controller.indexOf x l = None -> ~ In x l.
Proof.
  induction l as [|y l IH]; simpl; [tauto|].
  destruct (Nat.eqb y x) eqn:E; [discriminate|].
  apply Nat.eqb_neq in E.
  destruct (Controller.indexOf x l); [discriminate|]. intros _ [H|H]; tauto.
Qed.

Lemma indexOf_Some (x : nat) (l : list nat) (i : nat) :
  Controller.indexOf x l = Some i -> In x l.
Proof.
  intros H. destruct (indexOf_split _ _ _ H) as (l1 & l2 & -> & _).
  apply in_elt.
Qed.

Section Connection.

Variable mutationsSupported : bool.

Lemma observers_requestUpdate (c : Controller.controller) :
  Controller._observers (Controller.requestUpdate c) = Controller._observers c.
Proof. unfold Controller.requestUpdate. destruct (Controller._isUpdateScheduled c); reflexivity. Qed.

Lemma observers_startUpdateCycle (now : number) (c : Controller.controller) :
  Controller._observers (Controller.startUpdateCycle now c)
  = Controller._observers c.
Proof. unfold Controller.startUpdateCycle. rewrite observers_requestUpdate. reflexivity. Qed.

Lemma observers_addHoverListener (c : Controller.controller) :
  Controller._observers (Controller._addHoverListener c) = Controller._observers c.
Proof. unfold Controller._addHoverListener. destruct (Controller._hoverInitiated c); reflexivity. Qed.

Lemma observers_removeHoverListener (c : Controller.controller) :
  Controller._observers (Controller._removeHoverListener c) = Controller._observers c.
Proof. unfold Controller._removeHoverListener. destruct (Controller._hoverInitiated c); reflexivity. Qed.

Lemma observers_initListeners (now : number) (c : Controller.controller) :
  Controller._observers (Controller._initListeners mutationsSupported now c)
  = Controller._observers c.
Proof.
  unfold Controller._initListeners.
  destruct (Controller._isListening c); [reflexivity|].
  destruct mutationsSupported; cbn [negb];
    rewrite ?observers_startUpdateCycle;
    cbn [Controller.call Controller.set_mutationsObserver Controller.set_repeatCycle
         Controller._observers];
    match goal with
    | |- context [if ?b then _ else _] => destruct b
    end; rewrite ?observers_addHoverListener; reflexivity.
Qed.

Lemma observers_removeListeners (c : Controller.controller) :
  Controller._observers (Controller._removeListeners mutationsSupported c)
  = Controller._observers c.
Proof.
  unfold Controller._removeListeners.
  destruct (Controller._isListening c); [|reflexivity]. cbn [negb].
  set (c1 := Controller._removeHoverListener _).
  transitivity (Controller._observers c1).
  - destruct mutationsSupported; cbn [negb]; [|reflexivity].
    destruct (Controller._mutationsObserver c1); reflexivity.
  - unfold c1. rewrite observers_removeHoverListener. reflexivity.
Qed.

Lemma observers_connect (this : nat) (now : number) (c : Controller.controller) :
  Controller._observers (Controller.connect mutationsSupported this now c)
  = if Controller.isConnected this c then Controller._observers c
    else (Controller._observers c ++ [this])%list.
Proof.
  unfold Controller.connect.
  destruct (Controller.isConnected this c); cbn [negb];
    match goal with
    | |- context [if negb ?b then _ else _] => destruct b
    end; cbn [negb]; rewrite ?observers_initListeners; reflexivity.
Qed.

Lemma observers_disconnect (this : nat) (c : Controller.controller) :
  Controller._observers (Controller.disconnect mutationsSupported this c)
  = match Controller.indexOf this (Controller._observers c) with
    | Some index => Controller.splice1 index (Controller._observers c)
    | None => Controller._observers c
    end.
Proof.
  unfold Controller.disconnect.
  match goal with
  | |- context [if ?b then _ else _] => destruct b
  end; rewrite ?observers_removeListeners;
    destruct (Controller.indexOf this (Controller._observers c)); reflexivity.
Qed.

(** After [disconnect] the observer is not in the list, if it was there
    at most once; the other observers stay. *)
Lemma disconnect_observers (this : nat) (c : Controller.controller) :
  NoDup (Controller._observers c) ->
  NoDup (Controller._observers (Controller.disconnect mutationsSupported this c))
  /\ forall j,
       In j (Controller._observers (Controller.disconnect mutationsSupported this c))
       <-> In j (Controller._observers c) /\ j <> this.
Proof.
  intros Hnd. rewrite observers_disconnect.
  destruct (Controller.indexOf this (Controller._observers c)) as [i|] eqn:Hi.
  - destruct (indexOf_split _ _ _ Hi) as (l1 & l2 & Hl & ->).
    rewrite Hl in Hnd |- *. apply NoDup_remove in Hnd. destruct Hnd as [Hnd Hnot].
    split; [exact Hnd|]. intros j. rewrite !in_app_iff in *. simpl.
    split.
    + intros H. split; [tauto|]. intros ->. tauto.
    + intros [[H|[H|H]] Hne]; [tauto| |tauto]. congruence.
  - split; [exact Hnd|]. intros j. apply indexOf_None in Hi.
    split; [|tauto]. intros H. split; [exact H|]. intros ->. tauto.
Qed.

Lemma isConnected_In (this : nat) (c : Controller.controller) :
  Controller.isConnected this c = true <-> In this (Controller._observers c).
Proof.
  unfold Controller.isConnected.
  destruct (Controller.indexOf this (Controller._observers c)) eqn:H.
  - split; [intros _; exact (indexOf_Some _ _ _ H)|reflexivity].
  - split; [discriminate|]. intros Hin. elim (indexOf_None _ _ H Hin).
Qed.

End Connection.

Lemma nth_error_store_eq {A : Type} (l : list A) (i : nat) (a x : A) :
  nth_error l i = Some x -> nth_error (store i a l) i = Some a.
Proof.
  revert i. induction l as [|y l IH]; intros [|i] H; simpl in *;
    try discriminate; [reflexivity|]. exact (IH i H).
Qed.

Lemma nth_error_store_ne {A : Type} (l : list A) (i j : nat) (a : A) :
  i <> j -> nth_error (store i a l) j = nth_error l j.
Proof.
  revert i j. induction l as [|y l IH]; intros [|i] [|j] H; simpl;
    try reflexivity; [congruence|]. apply IH. congruence.
Qed.

Section Registry.

Variable mutationsSupported : bool.

(** What [disconnect] does to an observer and to the controller. *)
Lemma disconnect_spec (this : nat) (w : world) (o : observer) :
  nth_error (observers w) this = Some o ->
  NoDup (Controller._observers (controller_ w)) ->
  let w' := disconnect mutationsSupported this w in
  nth_error (observers w') this = Some (set_targets [] o)
  /\ (forall j, j <> this -> nth_error (observers w') j = nth_error (observers w) j)
  /\ NoDup (Controller._observers (controller_ w'))
  /\ (forall j, In j (Controller._observers (controller_ w'))
                <-> In j (Controller._observers (controller_ w)) /\ j <> this).
Proof.
  intros Ho Hnd. unfold disconnect. rewrite Ho.
  cbn [with_controller with_observer controller_ observers Map.clear].
  split; [exact (nth_error_store_eq _ _ _ _ Ho)|].
  split; [intros j Hj; apply nth_error_store_ne; congruence|].
  apply disconnect_observers. exact Hnd.
Qed.

Lemma disconnect_invariant (this : nat) (w : world) :
  invariant w -> invariant (disconnect mutationsSupported this w).
Proof.
  intros [Hnd Hc].
  destruct (nth_error (observers w) this) as [o|] eqn:Ho.
  - destruct (disconnect_spec this w o Ho Hnd) as (_ & Hother & Hnd' & Hin).
    split; [exact Hnd'|]. intros j Hj. apply Hin in Hj. destruct Hj as [Hj Hne].
    rewrite (Hother j Hne). exact (Hc j Hj).
  - unfold disconnect. rewrite Ho. split; assumption.
Qed.

(** Storing an observer with a registry that is not empty keeps the
    invariant. *)
Lemma with_observer_invariant (this : nat) (w : world) (o o' : observer) :
  nth_error (observers w) this = Some o ->
  _targets o' <> [] ->
  invariant w -> invariant (with_observer this o' w).
Proof.
  intros Ho Hne [Hnd Hc]. split; [exact Hnd|].
  intros j Hj. cbn [with_observer controller_ observers] in *.
  destruct (Nat.eq_dec this j) as [<-|Hd].
  - exists o'. split; [exact (nth_error_store_eq _ _ _ _ Ho)|exact Hne].
  - rewrite (nth_error_store_ne _ _ _ _ Hd). exact (Hc j Hj).
Qed.

Lemma unobserve_invariant (this : nat) (arguments : list value) (w w' : world) :
  unobserve mutationsSupported this arguments w = ret w' ->
  invariant w -> invariant w'.
Proof.
  unfold unobserve. intros H Hinv.
  destruct (nth_error (observers w) this) as [o|] eqn:Ho;
    [|injection H as <-; exact Hinv].
  destruct arguments as [|v rest]; [discriminate|].
  destruct (as_element v) as [target|]; [|discriminate].
  set (targets := if Map.has target (_targets o)
                  then Map.delete target (_targets o) else _targets o) in H.
  destruct (Nat.eqb (Map.size targets) 0) eqn:Hsize; injection H as <-.
  - destruct Hinv as [Hnd Hc].
    assert (Ho' : nth_error (observers (with_observer this (set_targets targets o) w))
                    this = Some (set_targets targets o))
      by exact (nth_error_store_eq _ _ _ _ Ho).
    destruct (disconnect_spec this _ _ Ho' Hnd) as (_ & Hother & Hnd' & Hin).
    split; [exact Hnd'|]. intros j Hj. apply Hin in Hj. destruct Hj as [Hj Hne].
    rewrite (Hother j Hne). cbn [with_observer observers].
    rewrite nth_error_store_ne by congruence. exact (Hc j Hj).
  - apply (with_observer_invariant this w o _ Ho); [|exact Hinv].
    cbn [set_targets _targets]. intros E. rewrite E in Hsize. discriminate.
Qed.

Lemma observe_invariant (this : nat) (arguments : list value)
  (now_connect now : number) (w w' : world) :
  observe mutationsSupported this arguments now_connect now w = ret w' ->
  invariant w -> invariant w'.
Proof.
  unfold observe. intros H Hinv.
  destruct (nth_error (observers w) this) as [o|] eqn:Ho;
    [|injection H as <-; exact Hinv].
  destruct arguments as [|v rest]; [discriminate|].
  destruct (as_element v) as [target|]; [|discriminate].
  destruct (Map.has target (_targets o)) eqn:Hhas;
    [injection H as <-; exact Hinv|].
  injection H as <-.
  set (o' := set_targets
               (Map.set target (IntersectionObservation target this) (_targets o)) o).
  assert (Hne : _targets o' <> []).
  { unfold o', Map.set, Map.has in *. cbn [set_targets _targets].
    destruct (Map.getIndex (_targets o) target); [discriminate|].
    intros E. apply app_eq_nil in E. destruct E; discriminate. }
  pose proof (with_observer_invariant this w o o' Ho Hne Hinv) as [Hnd Hc].
  cbn [with_observer controller_ observers] in Hnd, Hc.
  split; unfold connected_observe;
    cbn [with_controller with_observer controller_ observers].
  - rewrite observers_startUpdateCycle.
    destruct (Controller.isConnected this (controller_ w)) eqn:Hcon; cbn [negb];
      [exact Hnd|].
    rewrite observers_connect, Hcon.
    apply NoDup_app; [exact Hnd|repeat constructor; simpl; tauto|].
    intros j Hj [<-|[]]. apply isConnected_In in Hj. congruence.
  - intros j Hj. rewrite observers_startUpdateCycle in Hj.
    cbn [with_controller observers].
    destruct (Controller.isConnected this (controller_ w)) eqn:Hcon; cbn [negb] in Hj;
      [exact (Hc j Hj)|].
    rewrite observers_connect, Hcon in Hj. apply in_app_iff in Hj.
    destruct Hj as [Hj|[<-|[]]]; [exact (Hc j Hj)|].
    exists o'. split; [exact (nth_error_store_eq _ _ _ _ Ho)|exact Hne].
Qed.

Lemma construct_invariant (doc : document) (callback : option value)
  (options : options_arg) (w w' : world) :
  Wrapper.construct doc callback options w = ret w' ->
  invariant w -> invariant w'.
Proof.
  unfold Wrapper.construct. intros H [Hnd Hc].
  destruct callback as [cb|]; [|discriminate].
  destruct (new_IntersectionObserver doc cb options) as [e|o]; [discriminate|].
  injection H as <-. split; [exact Hnd|].
  intros j Hj. destruct (Hc j Hj) as (oj & Hoj & Hne).
  exists oj. split; [|exact Hne]. cbn [observers].
  rewrite nth_error_app1; [exact Hoj|].
  apply nth_error_Some. congruence.
Qed.

Lemma step_invariant (w : world) (op : operation) :
  invariant w -> invariant (step mutationsSupported w op).
Proof.
  intros Hinv. destruct op as [doc cb options|this args n1 n2|this args|this];
    unfold step.
  - destruct (Wrapper.construct doc cb options w) eqn:H; [exact Hinv|].
    exact (construct_invariant _ _ _ _ _ H Hinv).
  - destruct (observe mutationsSupported this args n1 n2 w) eqn:H; [exact Hinv|].
    exact (observe_invariant _ _ _ _ _ _ H Hinv).
  - destruct (unobserve mutationsSupported this args w) eqn:H; [exact Hinv|].
    exact (unobserve_invariant _ _ _ _ H Hinv).
  - apply disconnect_invariant. exact Hinv.
Qed.

Lemma run_invariant (ops : list operation) (w : world) :
  invariant w -> invariant (run mutationsSupported ops w).
Proof.
  revert w. induction ops as [|op ops IH]; intros w Hinv; [exact Hinv|].
  apply IH, step_invariant, Hinv.
Qed.

(** C8. After any sequence of constructions and of calls of [observe],
    [unobserve] and [disconnect], throwing or not, every observer in the
    list of the controller has a registry that is not empty. *)
Theorem connected_observers_observe (ops : list operation) :
  let w := run mutationsSupported ops Wrapper.loaded in
  forall this, In this (Controller._observers (controller_ w)) ->
    exists o, nth_error (observers w) this = Some o
              /\ Map.size (_targets o) <> 0.
Proof.
  intros w this Hin.
  assert (Hinv : invariant Wrapper.loaded).
  { split; [constructor|]. intros j []. }
  destruct (run_invariant ops _ Hinv) as [_ Hc].
  destruct (Hc this Hin) as (o & Ho & Hne).
  exists o. split; [exact Ho|]. unfold Map.size.
  destruct (_targets o); [congruence|discriminate].
Qed.

End Registry.

(** C8 on one observer that observes the target 2. *)
Lemma connected_observers_observe_once :
  let ops := [Construct (page emptyRect emptyRect) (Some callback)
                (OptionsValue Undefined);
              Observe 0 [node 2] zero zero] in
  let w := run true ops Wrapper.loaded in
  In 0 (Controller._observers (controller_ w))
  /\ exists o, nth_error (observers w) 0 = Some o /\ Map.size (_targets o) <> 0.
Proof.
  intros ops w. split; [left; reflexivity|].
  apply (connected_observers_observe true ops 0). left. reflexivity.
Defined.

Section LastTarget.

Variable mutationsSupported : bool.

(** When [unobserve] removes the last target of an observer, the
    observer is disconnected: its registry is empty and the controller,
    which listed it at most once, lists it no more. Its queue of entries
    is left as it was. *)
Lemma unobserve_last
  (this : nat) (w : world) (o : observer) (v : value) (rest : list value)
  (target : element) :
  nth_error (observers w) this = Some o ->
  NoDup (Controller._observers (controller_ w)) ->
  as_element v = Some target ->
  Map.has target (_targets o) = true ->
  Map.size (Map.delete target (_targets o)) = 0 ->
  exists w' o',
    unobserve mutationsSupported this (v :: rest) w = ret w'
    /\ nth_error (observers w') this = Some o'
    /\ Map.size (_targets o') = 0
    /\ Controller.isConnected this (controller_ w') = false
    /\ _quedEntries o' = _quedEntries o.
Proof.
  intros Ho Hnd Hv Hhas Hsize.
  unfold unobserve. rewrite Ho, Hv, Hhas, Hsize. cbn [Nat.eqb].
  set (w1 := with_observer this (set_targets (Map.delete target (_targets o)) o) w).
  assert (Ho1 : nth_error (observers w1) this
                = Some (set_targets (Map.delete target (_targets o)) o))
    by exact (nth_error_store_eq _ _ _ _ Ho).
  destruct (disconnect_spec mutationsSupported this w1 _ Ho1 Hnd)
    as (Hthis & _ & _ & Hin).
  eexists. eexists. split; [reflexivity|]. split; [exact Hthis|].
  split; [reflexivity|]. split; [|reflexivity].
  destruct (Controller.isConnected this
              (controller_ (disconnect mutationsSupported this w1))) eqn:E;
    [|reflexivity].
  apply isConnected_In, Hin in E. tauto.
Qed.

End LastTarget.

(** *** More on thresholds *)

Lemma parseThresholds_items (t : threshold_option) :
  parseThresholds t
  = bind (map_result threshold_check (threshold_items t))
         (fun numbers => ret (sort numbers)).
Proof. destruct t as [[]|[]]; reflexivity. Qed.

Lemma check_valid (v : value) :
  threshold_check v = if valid_threshold (Number v) then ret (Number v)
            else throw (threshold_error (Number v)).
Proof.
  unfold threshold_check, valid_threshold, threshold_error. cbv zeta.
  destruct (isFinite (Number v)); cbn [negb andb]; [|reflexivity].
  destruct (lt (Number v) zero || gt (Number v) one); reflexivity.
Qed.

(** The traversal returns the numbers when every item is let through,
    and otherwise throws for the first that is not. *)
Lemma map_result_check (items : list value) :
  match map_result threshold_check items with
  | inr numbers =>
      numbers = map Number items
      /\ Forall (fun v => valid_threshold (Number v) = true) items
  | inl e =>
      exists before v after,
        items = (before ++ v :: after)%list
        /\ Forall (fun v => valid_threshold (Number v) = true) before
        /\ valid_threshold (Number v) = false
        /\ e = threshold_error (Number v)
  end.
Proof.
  induction items as [|v items IH]; [split; [reflexivity|constructor]|].
  cbn [map_result]. rewrite check_valid.
  destruct (valid_threshold (Number v)) eqn:Hv; cbn [bind throw ret].
  - destruct (map_result threshold_check items) as [e|numbers]; cbn [bind ret].
    + destruct IH as (before & u & after & -> & Hb & Hu & ->).
      exists (v :: before), u, after. repeat split; auto.
    + destruct IH as [-> Hall]. split; [reflexivity|]. constructor; assumption.
  - exists [], v, items. repeat split; auto.
Qed.

Lemma insert_sorted_perm (x : number) (l : list number) :
  Permutation (insert_sorted x l) (x :: l).
Proof.
  induction l as [|y l IH]; simpl; [reflexivity|].
  destruct (sorts_before x y); [reflexivity|].
  rewrite IH. apply perm_swap.
Qed.

Lemma sort_perm (l : list number) : Permutation (sort l) l.
Proof.
  unfold sort.
  assert (H : forall acc,
            Permutation (fold_left (fun acc x => insert_sorted x acc) l acc)
                        (acc ++ l)%list).
  { induction l as [|x l IH]; intros acc; simpl.
    - rewrite app_nil_r. reflexivity.
    - rewrite IH, insert_sorted_perm. apply Permutation_middle. }
  exact (H []).
Qed.

Lemma sorts_before_asym (x y : number) :
  sorts_before x y = true -> sorts_before y x = false.
Proof.
  unfold sorts_before, String.ltb.
  rewrite (String.compare_antisym (NumberToString x) (NumberToString y)).
  destruct (String.compare (NumberToString y) (NumberToString x)); simpl; congruence.
Qed.

Lemma insert_sorted_ordered (x : number) (l : list number) :
  text_ordered l -> text_ordered (insert_sorted x l).
Proof.
  unfold text_ordered. induction l as [|y l IH]; intros H; simpl.
  - repeat constructor.
  - destruct (sorts_before x y) eqn:E.
    + constructor; [exact H|]. constructor. exact (sorts_before_asym _ _ E).
    + inversion H as [|? ? Hl Hhd]; subst. constructor; [exact (IH Hl)|].
      destruct l as [|z l]; simpl.
      * constructor. exact E.
      * destruct (sorts_before x z); constructor; [exact E|].
        inversion Hhd; assumption.
Qed.

Lemma sort_ordered (l : list number) : text_ordered (sort l).
Proof.
  unfold sort.
  assert (H : forall acc, text_ordered acc ->
            text_ordered (fold_left (fun acc x => insert_sorted x acc) l acc)).
  { induction l as [|x l IH]; intros acc Hacc; simpl; [exact Hacc|].
    apply IH, insert_sorted_ordered, Hacc. }
  apply H. constructor.
Qed.

(** X5. The thresholds [parseThresholds] returns are the numbers the
    items convert to, none added and none lost; there is at least one;
    each is finite and within 0 and 1; and they are ordered by their
    texts. *)
Theorem parseThresholds_returns (t : threshold_option) (numbers : list number) :
  parseThresholds t = ret numbers ->
  Permutation numbers (map Number (threshold_items t))
  /\ numbers <> []
  /\ Forall (fun n => isFinite n = true /\ le zero n = true /\ le n one = true)
            numbers
  /\ text_ordered numbers.
Proof.
  rewrite parseThresholds_items. intros H.
  pose proof (map_result_check (threshold_items t)) as Hm. cbv zeta in Hm.
  destruct (map_result _ (threshold_items t)) as [e|ns]; [discriminate|].
  cbn [bind ret] in H. injection H as <-. destruct Hm as [-> Hall].
  assert (Hp := sort_perm (map Number (threshold_items t))).
  split; [exact Hp|]. split; [|split; [|apply sort_ordered]].
  - intros E. rewrite E in Hp. apply Permutation_nil in Hp.
    destruct t as [[]|[]]; discriminate.
  - rewrite Forall_forall in *. intros n Hn.
    apply (Permutation_in _ Hp), in_map_iff in Hn. destruct Hn as (v & <- & Hv).
    specialize (Hall v Hv). unfold valid_threshold in Hall.
    apply andb_true_iff in Hall. destruct Hall as [Hf Hr].
    apply negb_true_iff, orb_false_iff in Hr. destruct Hr as [H0 H1].
    split; [exact Hf|]. destruct (Number v) as [| | |q]; try discriminate.
    unfold gt in H1. unfold lt in H0, H1. unfold zero, one in *.
    rewrite !le_Fin. split.
    + destruct (q ?= 0)%Q eqn:E; try discriminate.
      * apply Qeq_alt in E. rewrite E. apply Qle_refl.
      * apply Qgt_alt in E. apply Qlt_le_weak. exact E.
    + destruct (1 ?= q)%Q eqn:E; try discriminate.
      * apply Qeq_alt in E. rewrite E. apply Qle_refl.
      * apply Qgt_alt in E. apply Qlt_le_weak. exact E.
Qed.

(** X5 on the thresholds 0.5, 1, 0 and 0.25. *)
Lemma parseThresholds_returns_graded :
  let t := Array [Num (Fin 0.5); Num (Fin 1); Num (Fin 0); Num (Fin 0.25)] in
  let numbers := [Fin 0; Fin 0.25; Fin 0.5; Fin 1] in
  parseThresholds t = ret numbers
  /\ Permutation numbers (map Number (threshold_items t))
  /\ numbers <> []
  /\ Forall (fun n => isFinite n = true /\ le zero n = true /\ le n one = true)
            numbers
  /\ text_ordered numbers.
Proof.
  intros t numbers. split; [reflexivity|].
  apply (parseThresholds_returns t numbers). reflexivity.
Defined.

(** X6. [parseThresholds] throws exactly when some item converts to a
    number that is not finite or not within 0 and 1; what it throws is
    decided by the first such item: a [TypeError] when its number is not
    finite, a [RangeError] otherwise. *)
Theorem parseThresholds_throws (t : threshold_option) :
  (forall e, parseThresholds t = throw e ->
     exists before v after,
       threshold_items t = (before ++ v :: after)%list
       /\ Forall (fun v => valid_threshold (Number v) = true) before
       /\ valid_threshold (Number v) = false
       /\ e = threshold_error (Number v))
  /\ ((exists v, In v (threshold_items t) /\ valid_threshold (Number v) = false)
      <-> exists e, parseThresholds t = throw e).
Proof.
  rewrite parseThresholds_items.
  pose proof (map_result_check (threshold_items t)) as Hm. cbv zeta in Hm.
  destruct (map_result _ (threshold_items t)) as [e|ns]; cbn [bind ret throw].
  - split.
    + intros e' H. injection H as <-. exact Hm.
    + split; [intros _; eauto|]. intros _.
      destruct Hm as (before & v & after & -> & _ & Hv & _).
      exists v. split; [apply in_elt|exact Hv].
  - destruct Hm as [_ Hall]. split; [discriminate|].
    split; [|intros [e H]; discriminate].
    intros (v & Hin & Hv). rewrite Forall_forall in Hall.
    rewrite (Hall v Hin) in Hv. discriminate.
Qed.

(** *** More on margins *)

Lemma parseMargins_pieces (margins : value) :
  parseMargins margins
  = let pieces :=
      split (ToString (match margins with Undefined => Str "0px" | _ => margins end)
             ++ EmptyString) in
    if Nat.ltb 4 (List.length pieces) then
      throw (Error "Extra text found at the end of rootMargin.")
    else
      bind (map_result margin_of_token (expand_margins pieces))
           (fun parsedData =>
              ret {| rawData := join (expand_margins pieces);
                     parsedData := parsedData |}).
Proof. unfold parseMargins, expand_margins, margin_of_token. reflexivity. Qed.

Lemma append_empty (s : string) : s ++ EmptyString = s.
Proof. induction s; simpl; congruence. Qed.

Lemma append_assoc (a b c : string) : (a ++ b) ++ c = a ++ (b ++ c).
Proof. induction a; simpl; congruence. Qed.

Lemma map_result_length {A B : Type} (f : A -> result B) (l : list A) (r : list B) :
  map_result f l = ret r -> List.length r = List.length l.
Proof.
  revert r. induction l as [|a l IH]; intros r H; simpl in H.
  - injection H as <-. reflexivity.
  - destruct (f a); [discriminate|]. simpl in H.
    destruct (map_result f l) as [|bs]; [discriminate|].
    injection H as <-. simpl. f_equal. apply IH. reflexivity.
Qed.

Lemma map_result_Forall {A B : Type} (f : A -> result B) (P : B -> Prop)
  (l : list A) (r : list B) :
  (forall a b, f a = ret b -> P b) ->
  map_result f l = ret r -> Forall P r.
Proof.
  intros Hf. revert r. induction l as [|a l IH]; intros r H; simpl in H.
  - injection H as <-. constructor.
  - destruct (f a) as [|b] eqn:Hb; [discriminate|]. simpl in H.
    destruct (map_result f l) as [|bs]; [discriminate|].
    injection H as <-. constructor; [exact (Hf a b Hb)|]. apply IH. reflexivity.
Qed.

Lemma margin_of_token_finite (token : string) (m : margin) :
  margin_of_token token = ret m -> isFinite (value_ m) = true.
Proof.
  unfold margin_of_token.
  destruct (exec_margin token) as [[v u]|]; cbv zeta.
  - destruct (parseFloat (ToString (Str v))) as [| | |q]; try discriminate.
    cbn [isFinite negb]. intros H. injection H as <-. cbn [value_].
    destruct (String.eqb u "px"); cbn [negb]; [reflexivity|].
    unfold div, of_Z, Qsgn. reflexivity.
  - destruct (parseFloat (ToString Undefined)); try discriminate.
    cbn [isFinite negb]. intros H. injection H as <-. reflexivity.
Qed.

(** X7. What [parseMargins] returns has exactly four components, each a
    finite number, whatever the number of tokens given. *)
Theorem parseMargins_four (margins : value) (r : margins_data) :
  parseMargins margins = ret r ->
  List.length (parsedData r) = 4
  /\ Forall (fun m => isFinite (value_ m) = true) (parsedData r).
Proof.
  rewrite parseMargins_pieces. cbv zeta.
  destruct (Nat.ltb 4 _); [discriminate|].
  destruct (map_result margin_of_token _) as [|parsed] eqn:Hm; [discriminate|].
  intros H. injection H as <-. cbn [parsedData]. split.
  - rewrite (map_result_length _ _ _ Hm). reflexivity.
  - exact (map_result_Forall _ _ _ _ margin_of_token_finite Hm).
Qed.

(** X7 on three tokens. *)
Lemma parseMargins_four_of_three :
  exists r,
    parseMargins (Str "5px 10% -100px") = ret r
    /\ rawData r = "5px 10% -100px 10%"
    /\ List.length (parsedData r) = 4
    /\ Forall (fun m => isFinite (value_ m) = true) (parsedData r).
Proof.
  eexists. split; [vm_compute; reflexivity|]. split; [reflexivity|].
  apply (parseMargins_four (Str "5px 10% -100px")). vm_compute. reflexivity.
Defined.

Lemma split_go_no_space (s : string) :
  forall in_run piece,
    no_space piece = true ->
    Forall (fun p => no_space p = true) (split_go in_run piece s).
Proof.
  assert (Happ : forall p c, no_space p = true -> is_space c = false ->
                   no_space (p ++ String c EmptyString) = true).
  { induction p as [|d p IH]; intros c Hp Hc; simpl in *.
    - rewrite Hc. reflexivity.
    - apply andb_true_iff in Hp. destruct Hp as [Hd Hp].
      rewrite Hd, (IH c Hp Hc). reflexivity. }
  induction s as [|c r IH]; intros in_run piece Hp; simpl.
  - constructor; [exact Hp|constructor].
  - destruct (is_space c) eqn:Hc.
    + destruct in_run; [apply IH; exact Hp|].
      constructor; [exact Hp|]. apply IH. reflexivity.
    + apply IH, Happ; assumption.
Qed.

(** A token without white space is read into the piece as a whole. *)
Lemma split_go_token (t : string) :
  no_space t = true ->
  forall in_run piece rest,
    t <> EmptyString ->
    split_go in_run piece (t ++ rest) = split_go false (piece ++ t) rest.
Proof.
  intros Ht.
  assert (H : forall piece rest,
            split_go false piece (t ++ rest) = split_go false (piece ++ t) rest).
  { induction t as [|c t IH]; intros piece rest; simpl in *.
    - rewrite append_empty. reflexivity.
    - apply andb_true_iff in Ht. destruct Ht as [Hc Ht].
      apply negb_true_iff in Hc. rewrite Hc, (IH Ht).
      rewrite append_assoc. reflexivity. }
  intros in_run piece rest Hne. destruct in_run; [|apply H].
  destruct t as [|c t]; [congruence|]. simpl in *.
  apply andb_true_iff in Ht. destruct Ht as [Hc Ht].
  apply negb_true_iff in Hc. rewrite Hc.
  assert (H' : forall t, no_space t = true -> forall piece rest,
            split_go false piece (t ++ rest) = split_go false (piece ++ t) rest).
  { clear. induction t as [|c t IH]; intros Ht piece rest; simpl in *.
    - rewrite append_empty. reflexivity.
    - apply andb_true_iff in Ht. destruct Ht as [Hc Ht].
      apply negb_true_iff in Hc. rewrite Hc, (IH Ht).
      rewrite append_assoc. reflexivity. }
  rewrite (H' t Ht). rewrite append_assoc. reflexivity.
Qed.

Lemma split_join_four (m0 m1 m2 m3 : string) :
  Forall (fun p => no_space p = true /\ p <> EmptyString) [m0; m1; m2; m3] ->
  split (join [m0; m1; m2; m3]) = [m0; m1; m2; m3].
Proof.
  intros H.
  inversion H as [|? ? [S0 N0] H1]; subst.
  inversion H1 as [|? ? [S1 N1] H2]; subst.
  inversion H2 as [|? ? [S2 N2] H3]; subst.
  inversion H3 as [|? ? [S3 N3] _]; subst.
  unfold split. cbn [join].
  rewrite (split_go_token m0 S0 false EmptyString _ N0). cbn [append split_go is_space].
  change (is_space " ") with true. cbn iota.
  rewrite (split_go_token m1 S1 true EmptyString _ N1). cbn [append split_go].
  change (is_space " ") with true. cbn iota.
  rewrite (split_go_token m2 S2 true EmptyString _ N2). cbn [append split_go].
  change (is_space " ") with true. cbn iota.
  rewrite <- (append_empty m3) at 1.
  rewrite (split_go_token m3 S3 true EmptyString _ N3). reflexivity.
Qed.

Lemma or_string_token (a : option string) (b : string) :
  (forall p, a = Some p -> no_space p = true) ->
  no_space b = true /\ b <> EmptyString ->
  no_space (or_string a b) = true /\ or_string a b <> EmptyString.
Proof.
  intros Ha Hb. destruct a as [[|c p]|]; simpl; try exact Hb.
  split; [exact (Ha _ eq_refl)|discriminate].
Qed.

Lemma expand_margins_tokens (pieces : list string) :
  Forall (fun p => no_space p = true) pieces ->
  Forall (fun p => no_space p = true /\ p <> EmptyString) (expand_margins pieces).
Proof.
  intros H. rewrite Forall_forall in H.
  assert (Hn : forall i p, nth_error pieces i = Some p -> no_space p = true).
  { intros i p Hp. apply H. exact (nth_error_In _ _ Hp). }
  unfold expand_margins. cbv zeta.
  assert (Hd : no_space "0px" = true /\ "0px" <> EmptyString)
    by (split; [reflexivity|discriminate]).
  assert (H0 := or_string_token (nth_error pieces 0) "0px" (Hn 0) Hd).
  assert (H1 := or_string_token (nth_error pieces 1) _ (Hn 1) H0).
  assert (H2 := or_string_token (nth_error pieces 2) _ (Hn 2) H0).
  assert (H3 := or_string_token (nth_error pieces 3) _ (Hn 3) H1).
  repeat constructor; tauto.
Qed.

Lemma expand_margins_same (m0 m1 m2 m3 : string) :
  Forall (fun p => no_space p = true /\ p <> EmptyString) [m0; m1; m2; m3] ->
  expand_margins [m0; m1; m2; m3] = [m0; m1; m2; m3].
Proof.
  intros H.
  inversion H as [|? ? [_ N0] H1]; subst.
  inversion H1 as [|? ? [_ N1] H2]; subst.
  inversion H2 as [|? ? [_ N2] H3]; subst.
  inversion H3 as [|? ? [_ N3] _]; subst.
  unfold expand_margins. cbn [nth_error].
  destruct m0, m1, m2, m3; try congruence; reflexivity.
Qed.

(** X8. The [rawData] that [parseMargins] returns is a canonical form of
    its argument: parsing it again returns the same [rawData] and the
    same components. *)
Theorem parseMargins_rawData (margins : value) (r : margins_data) :
  parseMargins margins = ret r ->
  parseMargins (Str (rawData r)) = ret r.
Proof.
  rewrite parseMargins_pieces. cbv zeta.
  set (pieces := split _).
  destruct (Nat.ltb 4 (List.length pieces)); [discriminate|].
  destruct (map_result margin_of_token (expand_margins pieces)) as [|parsed] eqn:Hm;
    [discriminate|].
  intros H.
  assert (Hr : r = {| rawData := join (expand_margins pieces);
                      parsedData := parsed |})
    by (change (@inr exn _ {| rawData := join (expand_margins pieces);
                              parsedData := parsed |} = inr r) in H;
        congruence).
  clear H. subst r.
  assert (Ht : Forall (fun p => no_space p = true /\ p <> EmptyString)
                 (expand_margins pieces)).
  { apply expand_margins_tokens. unfold pieces, split.
    apply split_go_no_space. reflexivity. }
  remember (expand_margins pieces) as tokens eqn:Etok.
  change (rawData {| rawData := join tokens; parsedData := parsed |})
    with (join tokens).
  assert (Hfour : exists m0 m1 m2 m3, tokens = [m0; m1; m2; m3]).
  { rewrite Etok. unfold expand_margins. cbv zeta. eauto. }
  clear Etok. destruct Hfour as (m0 & m1 & m2 & m3 & ->).
  rewrite parseMargins_pieces.
  cbv beta iota zeta delta [ToString].
  rewrite append_empty, (split_join_four _ _ _ _ Ht).
  change (Nat.ltb 4 (List.length [m0; m1; m2; m3])) with false. cbv iota.
  rewrite (expand_margins_same _ _ _ _ Ht), Hm. reflexivity.
Qed.

(** X8 on a value with runs of white space. *)
Lemma parseMargins_rawData_spaced :
  exists r,
    parseMargins (Str "5px    10%  -100px -8%") = ret r
    /\ rawData r = "5px 10% -100px -8%"
    /\ parseMargins (Str (rawData r)) = ret r.
Proof.
  eexists. split; [vm_compute; reflexivity|]. split; [reflexivity|].
  apply (parseMargins_rawData (Str "5px    10%  -100px -8%")). vm_compute. reflexivity.
Defined.


(** *** The registry *)

Section Shim.

Context {V : Type}.

Lemma getIndex_indexOf (m : Map.t V) (key : element) :
  Map.getIndex m key = Controller.indexOf key (map fst m).
Proof.
  induction m as [|[k v] m IH]; simpl; [reflexivity|].
  destruct (Nat.eqb k key); [reflexivity|]. rewrite IH. reflexivity.
Qed.

Lemma has_In (m : Map.t V) (key : element) :
  Map.has key m = true <-> In key (map fst m).
Proof.
  unfold Map.has. rewrite getIndex_indexOf.
  destruct (Controller.indexOf key (map fst m)) eqn:H.
  - split; [intros _; exact (indexOf_Some _ _ _ H)|reflexivity].
  - split; [discriminate|]. intros Hin. elim (indexOf_None _ _ H Hin).
Qed.

Lemma keys_replace (index : nat) (v : V) (m : Map.t V) :
  map fst (Map.replace index v m) = map fst m.
Proof.
  revert index. induction m as [|[k u] m IH]; intros [|i]; simpl;
    try reflexivity. rewrite IH. reflexivity.
Qed.

Lemma splice1_map {A B : Type} (f : A -> B) (index : nat) (l : list A) :
  map f (Controller.splice1 index l) = Controller.splice1 index (map f l).
Proof.
  revert index. induction l as [|a l IH]; intros [|i]; simpl;
    try reflexivity. rewrite IH. reflexivity.
Qed.

Lemma keys_set (key : element) (v : V) (m : Map.t V) :
  map fst (Map.set key v m)
  = if Map.has key m then map fst m else (map fst m ++ [key])%list.
Proof.
  unfold Map.set, Map.has. destruct (Map.getIndex m key).
  - apply keys_replace.
  - rewrite map_app. reflexivity.
Qed.

Lemma keys_delete (key : element) (m : Map.t V) :
  NoDup (map fst m) ->
  NoDup (map fst (Map.delete key m))
  /\ forall k, In k (map fst (Map.delete key m)) <-> In k (map fst m) /\ k <> key.
Proof.
  intros Hnd. unfold Map.delete. rewrite getIndex_indexOf.
  destruct (Controller.indexOf key (map fst m)) as [i|] eqn:Hi.
  - rewrite splice1_map.
    destruct (indexOf_split _ _ _ Hi) as (l1 & l2 & Hl & Hs).
    unfold element in *. rewrite Hs.
    rewrite Hl in Hnd |- *. apply NoDup_remove in Hnd. destruct Hnd as [Hnd Hnot].
    split; [exact Hnd|]. intros k. rewrite !in_app_iff in *. simpl. split.
    + intros H. split; [tauto|]. intros ->. tauto.
    + intros [[H|[H|H]] Hne]; [tauto| |tauto]. congruence.
  - split; [exact Hnd|]. intros k. apply indexOf_None in Hi.
    split; [|tauto]. intros H. split; [exact H|]. intros ->. tauto.
Qed.

(** X11. In the [Map] of the shim a key that was set is there; setting a
    key changes no other; a new key makes the size one more and an old one
    leaves it; and deleting a key just set to a map that did not have it
    gives the map back. *)
Theorem Map_set (key : element) (v : V) (m : Map.t V) :
  Map.has key (Map.set key v m) = true
  /\ (forall k, k <> key -> Map.has k (Map.set key v m) = Map.has k m)
  /\ Map.size (Map.set key v m)
     = (if Map.has key m then Map.size m else S (Map.size m))
  /\ (Map.has key m = false -> Map.delete key (Map.set key v m) = m).
Proof.
  assert (Hin : forall k, In k (map fst (Map.set key v m))
                          <-> In k (map fst m) \/ k = key).
  { intros k. rewrite keys_set. destruct (Map.has key m) eqn:E.
    - apply has_In in E. split; [tauto|]. intros [H| ->]; assumption.
    - rewrite in_app_iff. simpl. intuition congruence. }
  split; [apply has_In, Hin; tauto|]. split; [|split].
  - intros k Hk.
    destruct (Map.has k m) eqn:E.
    + apply has_In, Hin. left. apply has_In. exact E.
    + destruct (Map.has k (Map.set key v m)) eqn:E'; [|reflexivity].
      apply has_In, Hin in E'. destruct E' as [H|H]; [|congruence].
      apply has_In in H. congruence.
  - unfold Map.size. rewrite <- !(length_map fst), keys_set.
    destruct (Map.has key m); [reflexivity|]. rewrite length_app. simpl. lia.
  - intros Hfresh. unfold Map.set, Map.delete, Map.has in *.
    destruct (Map.getIndex m key) eqn:E; [discriminate|].
    rewrite getIndex_indexOf in *.
    assert (Hi : Controller.indexOf key (map fst (m ++ [(key, v)]))
                 = Some (List.length m)).
    { clear Hin Hfresh. induction m as [|[k u] m IH]; simpl in *.
      - rewrite Nat.eqb_refl. reflexivity.
      - destruct (Nat.eqb k key); [discriminate|].
        destruct (Controller.indexOf key (map fst m)); [discriminate|].
        rewrite (IH eq_refl). reflexivity. }
    rewrite Hi. clear. induction m as [|e m IH]; simpl; [reflexivity|].
    rewrite IH. reflexivity.
Qed.

(** X12. In a [Map] of the shim that holds each key once, a key that was
    deleted is not there, deleting it changes no other key, and the size
    is one less if the key was there. *)
Theorem Map_delete (key : element) (m : Map.t V) :
  NoDup (map fst m) ->
  Map.has key (Map.delete key m) = false
  /\ (forall k, k <> key -> Map.has k (Map.delete key m) = Map.has k m)
  /\ NoDup (map fst (Map.delete key m))
  /\ (Map.has key m = true -> S (Map.size (Map.delete key m)) = Map.size m).
Proof.
  intros Hnd. destruct (keys_delete key m Hnd) as [Hnd' Hin].
  split; [|split; [|split; [exact Hnd'|]]].
  - destruct (Map.has key (Map.delete key m)) eqn:E; [|reflexivity].
    apply has_In, Hin in E. tauto.
  - intros k Hk. destruct (Map.has k m) eqn:E.
    + apply has_In, Hin. split; [apply has_In; exact E|exact Hk].
    + destruct (Map.has k (Map.delete key m)) eqn:E'; [|reflexivity].
      apply has_In, Hin in E'. destruct E' as [H _]. apply has_In in H. congruence.
  - unfold Map.has, Map.delete, Map.size.
    destruct (Map.getIndex m key) as [i|] eqn:E; [|discriminate]. intros _.
    clear Hnd Hnd' Hin. revert i E. induction m as [|[k u] m IH]; intros i E;
      simpl in E; [discriminate|].
    destruct (Nat.eqb k key).
    + injection E as <-. reflexivity.
    + destruct (Map.getIndex m key) as [j|] eqn:Ej; [|discriminate].
      injection E as <-. simpl. rewrite (IH j eq_refl). reflexivity.
Qed.

End Shim.

(** X12 on a map of two keys. *)
Lemma Map_delete_of_two :
  let m : Map.t nat := [(1, 10); (2, 20)] in
  NoDup (map fst m)
  /\ Map.has 1 (Map.delete 1 m) = false
  /\ (forall k, k <> 1 -> Map.has k (Map.delete 1 m) = Map.has k m)
  /\ NoDup (map fst (Map.delete 1 m))
  /\ (Map.has 1 m = true -> S (Map.size (Map.delete 1 m)) = Map.size m).
Proof.
  intros m.
  assert (H : NoDup (map fst m))
    by (repeat constructor; simpl; intuition discriminate).
  split; [exact H|]. exact (Map_delete 1 m H).
Defined.


(** *** Updates of a registry *)

Lemma set_quedEntries_same (o : observer) :
  set_quedEntries (_quedEntries o) o = o.
Proof. destruct o; reflexivity. Qed.

Lemma set_quedEntries_twice (q q' : list Entry.entry) (o : observer) :
  set_quedEntries q' (set_quedEntries q o) = set_quedEntries q' o.
Proof. reflexivity. Qed.

(** What an update leaves of the observation and of the observer. *)
Lemma updateIntersection_parts (doc : document) (now : number)
  (root : element) (rootRect : rect) (this : observation) (o : observer) :
  exists changes this' e,
    updateIntersection doc now root rootRect this o
    = (changes, this',
       if bucket_changes doc root rootRect o this then queueEntry e o else o)
    /\ target this' = target this
    /\ observer_ this' = observer_ this
    /\ Entry.target e = target this.
Proof.
  unfold updateIntersection, bucket_changes, bucket. cbv zeta.
  do 3 eexists. split; [reflexivity|]. repeat split.
Qed.

Lemma updateEach_parts (doc : document) (now : element -> number)
  (root : element) (rootRect : rect) (entries : Map.t observation) :
  forall o,
  exists hasChanges entries' es,
    updateEach doc now root rootRect entries o
    = (hasChanges, entries', set_quedEntries (_quedEntries o ++ es)%list o)
    /\ map fst entries' = map fst entries
    /\ map (fun e => target (snd e)) entries'
       = map (fun e => target (snd e)) entries
    /\ map (fun e => observer_ (snd e)) entries'
       = map (fun e => observer_ (snd e)) entries
    /\ map Entry.target es
       = map (fun e => target (snd e))
           (filter (fun e => bucket_changes doc root rootRect o (snd e)) entries).
Proof.
  induction entries as [|[key obs] entries IH]; intros o.
  - exists false, [], []. rewrite app_nil_r, set_quedEntries_same.
    repeat split.
  - cbn [updateEach].
    destruct (updateIntersection_parts doc (now key) root rootRect obs o)
      as (changes & obs' & e & -> & Ht & Ho & He).
    set (o1 := if bucket_changes doc root rootRect o obs then queueEntry e o else o).
    destruct (IH o1) as (hc & entries' & es & -> & Hk & Hts & Hos & Hes).
    assert (Hb : forall x, bucket_changes doc root rootRect o1 x
                           = bucket_changes doc root rootRect o x).
    { intros x. unfold o1. destruct (bucket_changes doc root rootRect o obs);
        reflexivity. }
    exists (ratioChanged changes || targetRectChanged changes || hc),
           ((key, obs') :: entries'),
           ((if bucket_changes doc root rootRect o obs then [e] else []) ++ es)%list.
    split; [|split; [|split; [|split]]].
    + f_equal. unfold o1.
      destruct (bucket_changes doc root rootRect o obs); cbn [app].
      * unfold queueEntry. rewrite set_quedEntries_twice.
        cbn [_quedEntries set_quedEntries]. rewrite <- app_assoc. reflexivity.
      * reflexivity.
    + cbn [map fst]. rewrite Hk. reflexivity.
    + cbn [map snd]. rewrite Hts, Ht. reflexivity.
    + cbn [map snd]. rewrite Hos, Ho. reflexivity.
    + cbn [filter snd]. rewrite map_app, Hes.
      rewrite (filter_ext _ _ (fun a => Hb (snd a))).
      destruct (bucket_changes doc root rootRect o obs); cbn [map app snd];
        [rewrite He|]; reflexivity.
Qed.

(** X13. A pass of [updateObservations] keeps the targets of the registry
    and their order, leaves the observer otherwise as it was, and appends
    to the queue one entry for each target whose bucket changes, in the
    order of the registry, and none for the others. *)
Theorem updateObservations_queues (doc : document) (now : element -> number)
  (o : observer) :
  let o' := snd (updateObservations doc now o) in
  map fst (_targets o') = map fst (_targets o)
  /\ map (fun e => target (snd e)) (_targets o')
     = map (fun e => target (snd e)) (_targets o)
  /\ (exists es,
        _quedEntries o' = (_quedEntries o ++ es)%list
        /\ map Entry.target es
           = map (fun e => target (snd e))
               (filter (fun e => bucket_changes doc (_root o) (getRootRect doc o)
                                   o (snd e))
                       (_targets o)))
  /\ set_quedEntries (_quedEntries o) (set_targets (_targets o) o') = o.
Proof.
  unfold updateObservations.
  destruct (updateEach_parts doc now (_root o) (getRootRect doc o) (_targets o) o)
    as (hc & entries' & es & H & Hk & Ht & _ & Hes).
  rewrite H. cbn [snd set_targets _targets _quedEntries set_quedEntries].
  split; [exact Hk|]. split; [exact Ht|]. split; [eauto|].
  destruct o; reflexivity.
Qed.


(** *** Between the frames *)

Lemma settled_with_observer (this : nat) (w : world) (o o' : observer) :
  nth_error (observers w) this = Some o ->
  registry_ok this o' -> _quedEntries o' = [] ->
  settled w -> settled (with_observer this o' w).
Proof.
  intros Ho Hr Hq Hs j oj Hj. cbn [with_observer observers] in Hj.
  destruct (Nat.eq_dec this j) as [<-|Hd].
  - rewrite (nth_error_store_eq _ _ _ _ Ho) in Hj. injection Hj as <-. tauto.
  - rewrite (nth_error_store_ne _ _ _ _ Hd) in Hj. exact (Hs j oj Hj).
Qed.

Lemma settled_with_controller (c : Controller.controller) (w : world) :
  settled w -> settled (with_controller c w).
Proof. intros H. exact H. Qed.

Lemma registry_ok_targets (this : nat) (o : observer) (m : Map.t observation) :
  NoDup (map fst m) ->
  Forall (fun e => target (snd e) = fst e /\ observer_ (snd e) = this) m ->
  registry_ok this (set_targets m o).
Proof. intros. split; assumption. Qed.

Lemma Forall_splice1 {A : Type} (P : A -> Prop) (index : nat) (l : list A) :
  Forall P l -> Forall P (Controller.splice1 index l).
Proof.
  revert index. induction l as [|a l IH]; intros [|i] H; simpl;
    try exact H; inversion H; subst; [assumption|].
  constructor; [assumption|]. apply IH. assumption.
Qed.

Lemma registry_ok_delete (this : nat) (o : observer) (key : element) :
  registry_ok this o ->
  registry_ok this (set_targets (Map.delete key (_targets o)) o).
Proof.
  intros [Hnd Hall]. apply registry_ok_targets.
  - apply keys_delete. exact Hnd.
  - unfold Map.delete. destruct (Map.getIndex (_targets o) key);
      [apply Forall_splice1|]; exact Hall.
Qed.

Lemma registry_ok_set (this : nat) (o : observer) (key : element) :
  registry_ok this o ->
  Map.has key (_targets o) = false ->
  registry_ok this
    (set_targets (Map.set key (IntersectionObservation key this) (_targets o)) o).
Proof.
  intros [Hnd Hall] Hfresh. apply registry_ok_targets.
  - rewrite keys_set, Hfresh. apply NoDup_app; [exact Hnd|repeat constructor; simpl; tauto|].
    intros x Hx [<-|[]]. apply has_In in Hx. congruence.
  - unfold Map.set, Map.has in *.
    destruct (Map.getIndex (_targets o) key); [discriminate|].
    apply Forall_app. split; [exact Hall|]. repeat constructor.
Qed.

Lemma new_IntersectionObserver_empty (doc : document) (cb : value)
  (options : options_arg) (o : observer) :
  new_IntersectionObserver doc cb options = ret o ->
  _targets o = [] /\ _quedEntries o = [].
Proof.
  unfold new_IntersectionObserver. cbv zeta.
  destruct (negb (String.eqb (typeof cb) "function")); [discriminate|].
  match goal with |- context [if ?b then _ else _] => destruct b end;
    [discriminate|].
  match goal with
  | |- (match ?x with OptionsObject _ _ _ => _ | OptionsValue _ => _ end = _) -> _ =>
      destruct x as [r t m|v]
  end.
  - match goal with
    | |- context [parseThresholds ?t] => destruct (parseThresholds t); [|]
    end.
    + destruct r as [v|]; [destruct (as_element v)|]; discriminate.
    + match goal with
      | |- context [parseMargins ?t] => destruct (parseMargins t)
      end;
        (destruct r as [v|]; [destruct (as_element v)|]);
        cbn [bind ret throw]; try discriminate;
        intros H; injection H as <-; split; reflexivity.
  - destruct v; try discriminate;
      (match goal with
       | |- context [parseThresholds ?t] => destruct (parseThresholds t)
       end; cbn [bind ret throw]; [discriminate|]);
      (match goal with
       | |- context [parseMargins ?t] => destruct (parseMargins t)
       end; cbn [bind ret throw]; [discriminate|]);
      intros H; injection H as <-; split; reflexivity.
Qed.

Section Settled.

Variable mutationsSupported : bool.

Lemma disconnect_settled (this : nat) (w : world) :
  settled w -> settled (disconnect mutationsSupported this w).
Proof.
  intros Hs. unfold disconnect.
  destruct (nth_error (observers w) this) as [o|] eqn:Ho; [|exact Hs].
  apply settled_with_controller.
  apply (settled_with_observer this w o _ Ho); [|exact (proj2 (Hs this o Ho))|exact Hs].
  apply registry_ok_targets; constructor.
Qed.

Lemma step_settled (w : world) (op : operation) :
  settled w -> settled (step mutationsSupported w op).
Proof.
  intros Hs. destruct op as [doc cb options|this args n1 n2|this args|this];
    cbn [step].
  - unfold Wrapper.construct. destruct cb as [cb|]; [|exact Hs].
    destruct (new_IntersectionObserver doc cb options) as [|o] eqn:Hnew;
      [exact Hs|]. cbn [bind ret].
    destruct (new_IntersectionObserver_empty _ _ _ _ Hnew) as [Ht Hq].
    intros j oj Hj. cbn [observers] in Hj.
    destruct (Nat.lt_ge_cases j (List.length (observers w))) as [Hlt|Hge].
    + rewrite nth_error_app1 in Hj by exact Hlt. exact (Hs j oj Hj).
    + rewrite nth_error_app2 in Hj by exact Hge.
      destruct (j - List.length (observers w)) as [|[|n]]; try discriminate.
      injection Hj as <-. split; [|exact Hq].
      split; rewrite Ht; constructor.
  - unfold observe.
    destruct (nth_error (observers w) this) as [o|] eqn:Ho; [|exact Hs].
    destruct args as [|v rest]; [exact Hs|].
    destruct (as_element v) as [target|]; [|exact Hs].
    destruct (Map.has target (_targets o)) eqn:Hhas; [exact Hs|].
    cbn [ret]. apply settled_with_controller.
    destruct (Hs this o Ho) as [Hr Hq].
    apply (settled_with_observer this w o _ Ho); [|exact Hq|exact Hs].
    apply registry_ok_set; assumption.
  - unfold unobserve.
    destruct (nth_error (observers w) this) as [o|] eqn:Ho; [|exact Hs].
    destruct args as [|v rest]; [exact Hs|].
    destruct (as_element v) as [target|]; [|exact Hs].
    destruct (Hs this o Ho) as [Hr Hq].
    assert (Hs1 : settled
              (with_observer this
                 (set_targets
                    (if Map.has target (_targets o)
                     then Map.delete target (_targets o) else _targets o) o) w)).
    { apply (settled_with_observer this w o _ Ho); [|exact Hq|exact Hs].
      destruct (Map.has target (_targets o)); [apply registry_ok_delete; exact Hr|].
      destruct Hr. apply registry_ok_targets; assumption. }
    destruct (Nat.eqb _ 0); cbn [ret]; [apply disconnect_settled|]; exact Hs1.
  - apply disconnect_settled. exact Hs.
Qed.

End Settled.

Lemma registry_same (this : nat) (m m' : Map.t observation) :
  map fst m' = map fst m ->
  map (fun e => target (snd e)) m' = map (fun e => target (snd e)) m ->
  map (fun e => observer_ (snd e)) m' = map (fun e => observer_ (snd e)) m ->
  Forall (fun e => target (snd e) = fst e /\ observer_ (snd e) = this) m ->
  Forall (fun e => target (snd e) = fst e /\ observer_ (snd e) = this) m'.
Proof.
  revert m'. induction m as [|[k obs] m IH]; intros [|[k' obs'] m'] Hk Ht Ho Hall;
    try discriminate; constructor; cbn in *.
  - inversion Hall as [|? ? [Hx Hy] _]; subst. cbn in *.
    injection Hk as -> _. injection Ht as -> _. injection Ho as -> _. tauto.
  - inversion Hall; subst.
    injection Hk as _ Hk. injection Ht as _ Ht. injection Ho as _ Ho.
    apply IH; assumption.
Qed.

Lemma updateObservations_settled (doc : document) (now : element -> number)
  (this : nat) (o : observer) :
  registry_ok this o ->
  registry_ok this (snd (updateObservations doc now o)).
Proof.
  intros [Hnd Hall]. unfold updateObservations.
  destruct (updateEach_parts doc now (_root o) (getRootRect doc o) (_targets o) o)
    as (hc & entries' & es & H & Hk & Ht & Ho & _).
  rewrite H. cbn [snd]. apply registry_ok_targets; [rewrite Hk; exact Hnd|].
  exact (registry_same this _ _ Hk Ht Ho Hall).
Qed.

(** The queue of the observer after its update and its notification. *)
Lemma notified_empty (o : observer) :
  _quedEntries (snd (if hasEntries o then notifySubscriber o else (None, o))) = [].
Proof.
  unfold hasEntries, notifySubscriber, takeRecords.
  destruct (_quedEntries o) eqn:E; cbn; [exact E|reflexivity].
Qed.

Lemma notified_registry (this : nat) (o : observer) :
  registry_ok this o ->
  registry_ok this (snd (if hasEntries o then notifySubscriber o else (None, o))).
Proof.
  intros H. destruct (hasEntries o); [|exact H]. exact H.
Qed.

Lemma notified_batch (o : observer) (entries : list Entry.entry) :
  fst (if hasEntries o then notifySubscriber o else (None, o)) = Some entries ->
  entries = _quedEntries o /\ entries <> [].
Proof.
  unfold hasEntries, notifySubscriber, takeRecords.
  destruct (_quedEntries o) eqn:E; cbn; [discriminate|].
  intros H. injection H as <-. split; [reflexivity|discriminate].
Qed.

Lemma updateObserversLoop_settled (doc : document)
  (now : nat -> element -> number) (rest : list nat) :
  forall w, settled w ->
    let '(_, w', batches) := updateObserversLoop doc now rest w in
    settled w'
    /\ controller_ w' = controller_ w
    /\ Forall (fun b => snd b <> []) batches.
Proof.
  induction rest as [|this rest IH]; intros w Hs; cbn [updateObserversLoop].
  - split; [exact Hs|]. split; [reflexivity|constructor].
  - destruct (nth_error (observers w) this) as [o|] eqn:Ho; [|exact (IH w Hs)].
    destruct (updateObservations doc (now this) o) as [changed o1] eqn:Hu.
    pose proof (updateObservations_settled doc (now this) this o
                  (proj1 (Hs this o Ho))) as Hr1.
    rewrite Hu in Hr1. cbn [snd] in Hr1.
    pose proof (notified_empty o1) as Hq2.
    pose proof (notified_registry this o1 Hr1) as Hr2.
    pose proof (notified_batch o1) as Hb.
    destruct (if hasEntries o1 then notifySubscriber o1 else (None, o1))
      as [batch o2]. cbn [fst snd] in *.
    assert (Hs2 : settled (with_observer this o2 w))
      by exact (settled_with_observer this w o o2 Ho Hr2 Hq2 Hs).
    specialize (IH _ Hs2).
    destruct (updateObserversLoop doc now rest (with_observer this o2 w))
      as [[hc w'] batches].
    destruct IH as (Hs' & Hc & Hall). split; [exact Hs'|]. split; [exact Hc|].
    destruct batch as [entries|]; [|exact Hall].
    constructor; [|exact Hall]. exact (proj2 (Hb entries eq_refl)).
Qed.

(** X14. Through constructions, calls of [observe], [unobserve],
    [disconnect] and [takeRecords], and frames whose callbacks leave the
    observers alone: every registry holds each target once, under the
    observation made for that target and that observer; and between two
    of these no observer has an entry queued, so that [takeRecords]
    returns nothing. *)
Theorem settled_between_frames (mutationsSupported : bool)
  (l : list activity) :
  let w := play mutationsSupported l Wrapper.loaded in
  forall this o, nth_error (observers w) this = Some o ->
    NoDup (map fst (_targets o))
    /\ Forall (fun e => target (snd e) = fst e /\ observer_ (snd e) = this)
              (_targets o)
    /\ fst (takeRecords o) = [].
Proof.
  assert (Hact : forall w a, settled w -> settled (act mutationsSupported w a)).
  { intros w [op|this|doc now timestamp t] Hs; cbn [act].
    - apply step_settled, Hs.
    - destruct (nth_error (observers w) this) as [o|] eqn:Ho; [|exact Hs].
      apply (settled_with_observer this w o _ Ho); [|reflexivity|exact Hs].
      exact (proj1 (Hs this o Ho)).
    - unfold frame, updateObservers.
      pose proof (updateObserversLoop_settled doc now
                    (Controller._observers (controller_ w)) w Hs) as H.
      destruct (updateObserversLoop doc now _ w) as [[hc w'] batches].
      cbn [fst]. apply settled_with_controller. tauto. }
  intros w. unfold w, play.
  assert (H0 : settled Wrapper.loaded).
  { intros [|j] oj Hj; discriminate. }
  revert H0. generalize Wrapper.loaded.
  induction l as [|a l IH]; intros w0 H0.
  - intros this o Ho. destruct (H0 this o Ho) as [[Hnd Hall] Hq].
    repeat split; assumption.
  - apply IH, Hact, H0.
Qed.

(** X14 on the observer that has seen one frame. *)
Lemma settled_after_a_frame :
  let l := [Api (Construct inside (Some callback)
                   (OptionsObject (Some (node 1)) (Scalar Undefined) Undefined));
            Api (Observe 0 [node 2] zero zero);
            Frame inside (fun _ _ => zero) (of_Z 16) (of_Z 16)] in
  let w := play true l Wrapper.loaded in
  exists o,
    nth_error (observers w) 0 = Some o
    /\ map fst (_targets o) = [2]
    /\ NoDup (map fst (_targets o))
    /\ Forall (fun e => target (snd e) = fst e /\ observer_ (snd e) = 0)
              (_targets o)
    /\ fst (takeRecords o) = [].
Proof.
  intros l w. eexists. split; [vm_compute; reflexivity|].
  split; [reflexivity|].
  apply (settled_between_frames true l 0). vm_compute. reflexivity.
Defined.


(** The targets of the entries the observer queues in a pass. *)
Lemma updateObservations_targets (doc : document) (now : element -> number)
  (o : observer) :
  _quedEntries o = [] ->
  map Entry.target (_quedEntries (snd (updateObservations doc now o)))
  = map (fun e => target (snd e))
      (filter (fun e => bucket_changes doc (_root o) (getRootRect doc o) o (snd e))
              (_targets o)).
Proof.
  intros Hq. unfold updateObservations.
  destruct (updateEach_parts doc now (_root o) (getRootRect doc o) (_targets o) o)
    as (hc & entries' & es & H & _ & _ & _ & Hes).
  rewrite H. cbn [snd set_targets _quedEntries set_quedEntries].
  rewrite Hq. exact Hes.
Qed.

Lemma updateObserversLoop_batches (doc : document)
  (now : nat -> element -> number) (rest : list nat) :
  forall w, settled w -> NoDup rest ->
    Forall
      (fun b =>
         In (fst b) rest
         /\ snd b <> []
         /\ exists o,
              nth_error (observers w) (fst b) = Some o
              /\ map Entry.target (snd b)
                 = map (fun e => target (snd e))
                     (filter (fun e => bucket_changes doc (_root o)
                                         (getRootRect doc o) o (snd e))
                             (_targets o)))
      (snd (updateObserversLoop doc now rest w)).
Proof.
  induction rest as [|this rest IH]; intros w Hs Hnd; cbn [updateObserversLoop].
  - constructor.
  - inversion Hnd as [|? ? Hnot Hnd']; subst.
    destruct (nth_error (observers w) this) as [o|] eqn:Ho.
    + destruct (updateObservations doc (now this) o) as [changed o1] eqn:Hu.
      pose proof (updateObservations_settled doc (now this) this o
                    (proj1 (Hs this o Ho))) as Hr1.
      pose proof (updateObservations_targets doc (now this) o
                    (proj2 (Hs this o Ho))) as Ht.
      rewrite Hu in Hr1, Ht. cbn [snd] in Hr1, Ht.
      pose proof (notified_empty o1) as Hq2.
      pose proof (notified_registry this o1 Hr1) as Hr2.
      pose proof (notified_batch o1) as Hb.
      destruct (if hasEntries o1 then notifySubscriber o1 else (None, o1))
        as [batch o2]. cbn [fst snd] in *.
      assert (Hs2 : settled (with_observer this o2 w))
        by exact (settled_with_observer this w o o2 Ho Hr2 Hq2 Hs).
      specialize (IH _ Hs2 Hnd').
      destruct (updateObserversLoop doc now rest (with_observer this o2 w))
        as [[hc w'] batches]. cbn [snd] in *.
      assert (Hrest : Forall
                (fun b =>
                   In (fst b) (this :: rest)
                   /\ snd b <> []
                   /\ exists o,
                        nth_error (observers w) (fst b) = Some o
                        /\ map Entry.target (snd b)
                           = map (fun e => target (snd e))
                               (filter (fun e => bucket_changes doc (_root o)
                                                   (getRootRect doc o) o (snd e))
                                       (_targets o)))
                batches).
      { rewrite Forall_forall in *. intros b Hin.
        destruct (IH b Hin) as (Hb1 & Hb2 & o' & Ho' & Hb3).
        split; [right; exact Hb1|]. split; [exact Hb2|].
        exists o'. split; [|exact Hb3].
        cbn [with_observer observers] in Ho'.
        rewrite nth_error_store_ne in Ho'; [exact Ho'|].
        intros ->. exact (Hnot Hb1). }
      destruct batch as [entries|]; [|exact Hrest].
      constructor; [|exact Hrest]. cbn [fst snd].
      destruct (Hb entries eq_refl) as [-> Hne].
      split; [left; reflexivity|]. split; [exact Hne|].
      exists o. split; [exact Ho|exact Ht].
    + specialize (IH w Hs Hnd'). rewrite Forall_forall in *.
      intros b Hin. destruct (IH b Hin) as (Hb1 & Hb2 & Hb3).
      split; [right; exact Hb1|]. split; assumption.
Qed.


Lemma observing_settled : settled observing.
Proof.
  intros [|j] o H; [|destruct j; discriminate]. injection H as <-.
  split; [|reflexivity]. split; repeat constructor. simpl. tauto.
Qed.


Section Twice.

Variable mutationsSupported : bool.

Lemma has_set_same (key : element) (v : observation) (m : Map.t observation) :
  Map.has key (Map.set key v m) = true.
Proof.
  apply has_In. rewrite keys_set. destruct (Map.has key m) eqn:E.
  - apply has_In. exact E.
  - apply in_app_iff. right. left. reflexivity.
Qed.

(** X16. Observing a target again changes nothing: after a call of
    [observe] that returned, the same call returns the state as it is,
    the controller included. *)
Theorem observe_again (this : nat) (arguments : list value)
  (now_connect now now_connect' now' : number) (w w' : world) :
  observe mutationsSupported this arguments now_connect now w = ret w' ->
  observe mutationsSupported this arguments now_connect' now' w' = ret w'.
Proof.
  unfold observe.
  destruct (nth_error (observers w) this) as [o|] eqn:Ho.
  - destruct arguments as [|v rest]; [discriminate|].
    destruct (as_element v) as [target|]; [|discriminate].
    destruct (Map.has target (_targets o)) eqn:Hhas.
    + intros H. injection H as <-. rewrite Ho, Hhas. reflexivity.
    + intros H. injection H as <-.
      cbn [with_controller with_observer observers].
      rewrite (nth_error_store_eq _ _ _ _ Ho).
      cbn [set_targets _targets]. rewrite has_set_same. reflexivity.
  - intros H. injection H as <-. rewrite Ho. reflexivity.
Qed.

End Twice.

(** X16 on the target 2 of a new observer. *)
Lemma observe_again_observing :
  let w := run true [Construct inside (Some callback) (OptionsValue Undefined)]
             Wrapper.loaded in
  exists w',
    observe true 0 [node 2] zero zero w = ret w'
    /\ observe true 0 [node 2] (of_Z 5) (of_Z 5) w' = ret w'.
Proof.
  intros w. eexists. split; [vm_compute; reflexivity|].
  apply (observe_again true 0 [node 2] zero zero (of_Z 5) (of_Z 5) w).
  vm_compute. reflexivity.
Defined.


(** *** The controller and its host *)

Lemma frames_host (c c' : Controller.controller) (l : list Controller.host_call) :
  Controller.host c' = (Controller.host c ++ l)%list ->
  frames c'
  = frames c
    + List.length
        (filter (fun h => match h with
                          | Controller.requestAnimFrame => true
                          | _ => false
                          end) l).
Proof. intros H. unfold frames. rewrite H, filter_app, length_app. reflexivity. Qed.

Lemma requestUpdate_effect (c : Controller.controller) :
  frame_effect c (Controller.requestUpdate c).
Proof.
  unfold frame_effect, Controller.requestUpdate.
  destruct (Controller._isUpdateScheduled c) eqn:E; cbn [negb].
  - left. rewrite E. split; reflexivity.
  - right. split; [reflexivity|]. split; [reflexivity|].
    rewrite (frames_host c _ [Controller.requestAnimFrame]); [simpl; lia|reflexivity].
Qed.

Lemma frame_effect_refl (c c' : Controller.controller) :
  Controller._isUpdateScheduled c' = Controller._isUpdateScheduled c ->
  frames c' = frames c -> frame_effect c c'.
Proof. intros. left. split; assumption. Qed.

Lemma frame_effect_trans (c1 c2 c3 : Controller.controller) :
  frame_effect c1 c2 -> frame_effect c2 c3 -> frame_effect c1 c3.
Proof.
  unfold frame_effect.
  intros [[F1 N1]|[A1 [B1 N1]]] [[F2 N2]|[A2 [B2 N2]]].
  - left. split; congruence.
  - right. repeat split; congruence.
  - right. repeat split; congruence.
  - congruence.
Qed.

Ltac same_frames :=
  apply frame_effect_refl;
  [reflexivity | unfold frames; cbn; rewrite ?filter_app, ?length_app; cbn; lia].

Lemma startUpdateCycle_effect (now : number) (c : Controller.controller) :
  frame_effect c (Controller.startUpdateCycle now c).
Proof.
  unfold Controller.startUpdateCycle.
  apply (frame_effect_trans c (Controller.set_cycleStartTime now c));
    [apply frame_effect_refl; reflexivity|apply requestUpdate_effect].
Qed.

Lemma addHoverListener_effect (c : Controller.controller) :
  frame_effect c (Controller._addHoverListener c).
Proof.
  unfold Controller._addHoverListener.
  destruct (Controller._hoverInitiated c); same_frames.
Qed.

Lemma removeHoverListener_effect (c : Controller.controller) :
  frame_effect c (Controller._removeHoverListener c).
Proof.
  unfold Controller._removeHoverListener.
  destruct (Controller._hoverInitiated c); same_frames.
Qed.

Section Effects.

Variable mutationsSupported : bool.

Lemma initListeners_effect (now : number) (c : Controller.controller) :
  frame_effect c (Controller._initListeners mutationsSupported now c).
Proof.
  unfold Controller._initListeners.
  destruct (Controller._isListening c); [same_frames|].
  set (c1 := Controller.call (Controller.addEventListener "scroll") _).
  assert (H1 : frame_effect c c1) by (unfold c1; same_frames).
  set (c2 := if Controller._trackHovers c1 then _ else c1).
  assert (H2 : frame_effect c c2).
  { unfold c2. destruct (Controller._trackHovers c1); [|exact H1].
    exact (frame_effect_trans _ _ _ H1 (addHoverListener_effect c1)). }
  destruct mutationsSupported; cbn [negb].
  - apply (frame_effect_trans _ _ _ H2). same_frames.
  - apply (frame_effect_trans _ _ _ H2).
    eapply frame_effect_trans; [|apply startUpdateCycle_effect]. same_frames.
Qed.

Lemma removeListeners_effect (c : Controller.controller) :
  frame_effect c (Controller._removeListeners mutationsSupported c).
Proof.
  unfold Controller._removeListeners.
  destruct (Controller._isListening c); cbn [negb]; [|same_frames].
  set (c1 := Controller._removeHoverListener _).
  assert (H1 : frame_effect c c1).
  { unfold c1. eapply frame_effect_trans; [|apply removeHoverListener_effect].
    same_frames. }
  apply (frame_effect_trans _ _ _ H1).
  destruct mutationsSupported; cbn [negb]; [|same_frames].
  destruct (Controller._mutationsObserver c1); same_frames.
Qed.

Lemma call_effect (c : Controller.controller) (a : controller_call) :
  frame_effect c (call_controller mutationsSupported c a).
Proof.
  destruct a as [o now|o|now| |entries now| | |v]; cbn [call_controller].
  - unfold Controller.connect.
    set (c1 := if negb (Controller.isConnected o c) then _ else c).
    assert (H1 : frame_effect c c1)
      by (unfold c1; destruct (Controller.isConnected o c); same_frames).
    destruct (Controller._isListening c1); cbn [negb]; [exact H1|].
    exact (frame_effect_trans _ _ _ H1 (initListeners_effect now c1)).
  - unfold Controller.disconnect.
    set (c1 := match Controller.indexOf o (Controller._observers c) with
               | Some _ => _ | None => c end).
    assert (H1 : frame_effect c c1)
      by (unfold c1; destruct (Controller.indexOf o (Controller._observers c));
          same_frames).
    match goal with |- context [if ?b then _ else _] => destruct b end;
      [|exact H1].
    exact (frame_effect_trans _ _ _ H1 (removeListeners_effect c1)).
  - apply startUpdateCycle_effect.
  - apply requestUpdate_effect.
  - unfold Controller._onMutation.
    match goal with |- context [if ?b then _ else _] => destruct b end;
      [apply requestUpdate_effect|apply startUpdateCycle_effect].
  - unfold Controller.enableHover.
    match goal with |- context [if ?b then _ else _] => destruct b end;
      [|same_frames].
    eapply frame_effect_trans; [|apply addHoverListener_effect]. same_frames.
  - unfold Controller.disableHover.
    eapply frame_effect_trans; [|apply removeHoverListener_effect]. same_frames.
  - same_frames.
Qed.

Lemma calls_effect (callbacks : list controller_call) (c : Controller.controller) :
  frame_effect c (fold_left (call_controller mutationsSupported) callbacks c).
Proof.
  revert c. induction callbacks as [|a l IH]; intros c; simpl.
  - apply frame_effect_refl; reflexivity.
  - exact (frame_effect_trans _ _ _ (call_effect c a) (IH _)).
Qed.

End Effects.


Section Frames.

Variable mutationsSupported : bool.

(** A call, or a frame that returns, keeps the count of the frames. *)
Lemma host_step_frames_ok (h : hosted) (e : host_event) :
  returning e = true ->
  frames_ok h -> frames_ok (host_step mutationsSupported h e).
Proof.
  destruct h as [c n]. intros He H. unfold frames_ok in *.
  cbn [controlled ran] in *.
  assert (Heff : forall c', frame_effect c c' ->
            frames c' = n + (if Controller._isUpdateScheduled c' then 1 else 0)).
  { intros c' [[F N]|[A [B N]]]; [rewrite F, N; exact H|].
    rewrite A in H. rewrite B, N, H. lia. }
  destruct e as [a|timestamp hasChanges callbacks now|timestamp callbacks];
    [| |discriminate]; cbn [host_step controlled ran].
  - apply Heff, call_effect.
  - destruct (Nat.ltb n (frames c)) eqn:Hlt; cbn [controlled ran]; [|exact H].
    apply Nat.ltb_lt in Hlt.
    destruct (Controller._isUpdateScheduled c) eqn:Hflag; [|lia].
    unfold Controller.scheduleUpdate. cbn [typeof String.eqb Ascii.eqb Bool.eqb].
    set (c1 := fold_left (call_controller mutationsSupported) callbacks c).
    assert (H1 : Controller._isUpdateScheduled c1 = true /\ frames c1 = frames c).
    { unfold c1.
      destruct (calls_effect mutationsSupported callbacks c) as [[F N]|[A _]];
        [split; congruence|congruence]. }
    set (c2 := Controller.set_isUpdateScheduled false c1).
    assert (H2 : frames c2 = S n + 0) by (change (frames c2) with (frames c1); lia).
    assert (Heff2 : forall c', frame_effect c2 c' ->
              frames c' = S n + (if Controller._isUpdateScheduled c' then 1 else 0)).
    { intros c' [[F N]|[A [B N]]].
      - rewrite F, N. exact H2.
      - rewrite B, N, H2. lia. }
    destruct (Controller._wasCycleStarted c2); cbn [negb];
      [|apply Heff2, frame_effect_refl; reflexivity].
    destruct hasChanges; [apply Heff2, startUpdateCycle_effect|].
    destruct (Controller._hasIdleTimeEnded now c2); cbn [negb];
      [|apply Heff2, requestUpdate_effect].
    apply Heff2. unfold Controller._onCycleEnded.
    match goal with |- context [if ?b then _ else _] => destruct b end;
      same_frames.
Qed.

(** A frame that is left by an exception leaves the controller stalled. *)
Lemma host_step_fails (h : hosted) (timestamp : number)
  (callbacks : list controller_call) :
  frames_ok h ->
  frames_ok (host_step mutationsSupported h (FailFrame timestamp callbacks))
  \/ stalled (host_step mutationsSupported h (FailFrame timestamp callbacks)).
Proof.
  destruct h as [c n]. intros H. unfold frames_ok, stalled in *.
  cbn [host_step controlled ran] in *.
  destruct (Nat.ltb n (frames c)) eqn:Hlt; cbn [controlled ran]; [|left; exact H].
  apply Nat.ltb_lt in Hlt. right.
  destruct (Controller._isUpdateScheduled c) eqn:Hflag; [|lia].
  destruct (calls_effect mutationsSupported callbacks c) as [[F N]|[A _]];
    [|congruence].
  split; [congruence|]. rewrite N. lia.
Qed.

(** No call and no frame ends a stall. *)
Lemma host_step_stalled (h : hosted) (e : host_event) :
  stalled h -> stalled (host_step mutationsSupported h e).
Proof.
  destruct h as [c n]. unfold stalled. cbn [controlled ran]. intros [Hflag Hn].
  destruct e as [a|timestamp hasChanges callbacks now|timestamp callbacks];
    cbn [host_step controlled ran].
  - destruct (call_effect mutationsSupported c a) as [[F N]|[A _]];
      [split; congruence|congruence].
  - rewrite Hn, Nat.ltb_irrefl. cbn [controlled ran]. tauto.
  - rewrite Hn, Nat.ltb_irrefl. cbn [controlled ran]. tauto.
Qed.

Lemma host_run_stalled (events : list host_event) (h : hosted) :
  stalled h -> stalled (host_run mutationsSupported events h).
Proof.
  unfold host_run. revert h.
  induction events as [|e l IH]; intros h H; [exact H|].
  apply IH, host_step_stalled, H.
Qed.

End Frames.

(** X9. Whatever calls and events reach the controller, and whatever the
    callbacks do during a frame, the host never holds more than one
    frame for it, and holds one only while [_isUpdateScheduled] is set.
    As long as every frame returns, it holds one exactly when
    [_isUpdateScheduled] is set. A frame that is left by an exception
    thrown in a callback leaves [_isUpdateScheduled] set with no frame
    pending; from then on no call and no event makes the controller
    request a frame again. *)
Theorem one_frame_pending (mutationsSupported : bool) (events : list host_event) :
  let h := host_run mutationsSupported events hosted_start in
  let pending := if Controller._isUpdateScheduled (controlled h) then 1 else 0 in
  ran h <= frames (controlled h)
  /\ frames (controlled h) <= ran h + pending
  /\ (forallb returning events = true -> frames (controlled h) = ran h + pending)
  /\ (frames (controlled h) < ran h + pending ->
      forall more,
        let h' := host_run mutationsSupported more h in
        Controller._isUpdateScheduled (controlled h') = true
        /\ frames (controlled h') = ran h').
Proof.
  assert (Hall : forall l h0,
            (frames_ok h0 \/ stalled h0) ->
            (frames_ok (host_run mutationsSupported l h0)
             \/ stalled (host_run mutationsSupported l h0))
            /\ (forallb returning l = true -> frames_ok h0 ->
                frames_ok (host_run mutationsSupported l h0))).
  { unfold host_run. induction l as [|e l IH]; intros h0 H0; cbn [fold_left forallb].
    - split; [exact H0|tauto].
    - assert (H1 : frames_ok (host_step mutationsSupported h0 e)
                   \/ stalled (host_step mutationsSupported h0 e)).
      { destruct H0 as [H0|H0]; [|right; apply host_step_stalled, H0].
        destruct e as [a|timestamp hasChanges callbacks now|timestamp callbacks];
          [left; apply host_step_frames_ok; [reflexivity|exact H0]
          |left; apply host_step_frames_ok; [reflexivity|exact H0]
          |apply host_step_fails, H0]. }
      split; [exact (proj1 (IH _ H1))|].
      intros Hr Hok. apply andb_true_iff in Hr. destruct Hr as [He Hl].
      apply (proj2 (IH _ H1) Hl). apply host_step_frames_ok; assumption. }
  intros h pending.
  assert (H0 : frames_ok hosted_start) by reflexivity.
  destruct (Hall events hosted_start (or_introl H0)) as [Hh Hret].
  fold h in Hh, Hret.
  assert (Hcases : frames (controlled h) = ran h + pending
                   \/ (Controller._isUpdateScheduled (controlled h) = true
                       /\ frames (controlled h) = ran h)).
  { destruct Hh as [Hh|Hh]; [left; exact Hh|right; exact Hh]. }
  split; [destruct Hcases as [E|[_ E]]; lia|].
  split; [destruct Hcases as [E|[_ E]]; lia|].
  split; [intros Hr; exact (Hret Hr H0)|].
  intros Hlt more h'.
  assert (Hs : stalled h) by (destruct Hcases as [E|Hs]; [lia|exact Hs]).
  exact (host_run_stalled mutationsSupported more h Hs).
Qed.

(** X9 on a frame whose callback throws: the frame that was requested has
    run, an update still counts as scheduled, and the scroll that follows
    requests no frame. *)
Lemma one_frame_pending_stalled :
  let events := [Call (Connecting 0 zero); Call (Starting zero);
                 FailFrame (of_Z 16) []] in
  let h := host_run true events hosted_start in
  let h' := host_run true [Call Scheduling; Call (Starting (of_Z 40))] h in
  frames (controlled h) = 1 /\ ran h = 1
  /\ Controller._isUpdateScheduled (controlled h') = true
  /\ frames (controlled h') = ran h'.
Proof.
  intros events h h'. split; [vm_compute; reflexivity|].
  split; [vm_compute; reflexivity|].
  apply (proj2 (proj2 (proj2 (one_frame_pending true events)))).
  vm_compute. lia.
Defined.

Ltac observables :=
  unfold installed, observing_mutations, Z_of_bool in *;
  cbn in *; rewrite ?fold_left_app; cbn.

Ltac settle :=
  repeat match goal with
         | H : _ /\ _ |- _ => destruct H
         end;
  subst; repeat split; cbn in *; try assumption; try reflexivity;
  try congruence; try lia.

Section Listening.

Variable mutationsSupported : bool.

Lemma requestUpdate_listening (c : Controller.controller) :
  listening_ok mutationsSupported c ->
  listening_ok mutationsSupported (Controller.requestUpdate c).
Proof.
  unfold listening_ok, Controller.requestUpdate.
  destruct c as [idle th cst ius rc hi mo il obs hl].
  destruct ius; observables; intros H; exact H.
Qed.

Lemma startUpdateCycle_listening (now : number) (c : Controller.controller) :
  listening_ok mutationsSupported c ->
  listening_ok mutationsSupported (Controller.startUpdateCycle now c).
Proof.
  intros H. unfold Controller.startUpdateCycle.
  apply requestUpdate_listening. exact H.
Qed.

Lemma set_cycleStartTime_listening (v : number) (c : Controller.controller) :
  listening_ok mutationsSupported c ->
  listening_ok mutationsSupported (Controller.set_cycleStartTime v c).
Proof. intros H. exact H. Qed.

Lemma enableHover_listening (c : Controller.controller) :
  listening_ok mutationsSupported c ->
  listening_ok mutationsSupported (Controller.enableHover c).
Proof.
  unfold listening_ok, Controller.enableHover, Controller._addHoverListener.
  destruct c as [idle th cst ius rc hi mo il obs hl].
  intros H. cbn in H. destruct il, hi, th; observables; settle.
Qed.

Lemma disableHover_listening (c : Controller.controller) :
  listening_ok mutationsSupported c ->
  listening_ok mutationsSupported (Controller.disableHover c).
Proof.
  unfold listening_ok, Controller.disableHover, Controller._removeHoverListener.
  destruct c as [idle th cst ius rc hi mo il obs hl].
  intros H. cbn in H. destruct il, hi, th; observables; settle.
Qed.

Lemma connect_listening (o : nat) (now : number) (c : Controller.controller) :
  listening_ok mutationsSupported c ->
  listening_ok mutationsSupported (Controller.connect mutationsSupported o now c).
Proof.
  intros H. unfold Controller.connect.
  destruct (Controller.isConnected o c) eqn:Hcon; cbn [negb].
  - assert (Hl : Controller._isListening c = true).
    { destruct H as (_ & Hl & _). rewrite Hl.
      apply isConnected_In in Hcon. destruct (Controller._observers c); [destruct Hcon|reflexivity]. }
    rewrite Hl. exact H.
  - assert (Hnot : ~ In o (Controller._observers c)).
    { intros Hin. apply isConnected_In in Hin. congruence. }
    clear Hcon. revert H Hnot.
    unfold listening_ok, Controller._initListeners, Controller._addHoverListener,
      Controller.startUpdateCycle, Controller.requestUpdate.
    destruct c as [idle th cst ius rc hi mo il obs hl].
    intros H Hnot. cbn in H, Hnot.
    assert (Hnd : NoDup (obs ++ [o])).
    { destruct H as (Hnd & _). apply NoDup_app; [exact Hnd|repeat constructor; simpl; tauto|].
      intros x Hx [<-|[]]. exact (Hnot Hx). }
    assert (Hne : match (obs ++ [o])%list with [] => true | _ => false end = false)
      by (destruct obs; reflexivity).
    destruct il.
    + observables. rewrite Hne. settle.
    + assert (obs = []) by (destruct H as (_ & Hl & _); destruct obs; [reflexivity|discriminate]).
      subst obs. destruct th, hi, mutationsSupported, ius; observables; settle.
Qed.

Lemma disconnect_listening (o : nat) (c : Controller.controller) :
  listening_ok mutationsSupported c ->
  listening_ok mutationsSupported (Controller.disconnect mutationsSupported o c).
Proof.
  intros H. unfold Controller.disconnect.
  destruct (Controller.indexOf o (Controller._observers c)) as [i|] eqn:Hi.
  - destruct (indexOf_split _ _ _ Hi) as (l1 & l2 & Hobs & Hsp).
    rewrite Hsp. clear Hi Hsp. revert H Hobs.
    unfold listening_ok, Controller._removeListeners, Controller._removeHoverListener.
    destruct c as [idle th cst ius rc hi mo il obs hl].
    intros H Hobs. cbn in H, Hobs. subst obs.
    assert (Hnd : NoDup (l1 ++ l2)).
    { destruct H as (Hnd & _). apply NoDup_remove in Hnd. tauto. }
    assert (Hl : il = true).
    { destruct H as (_ & Hl & _). rewrite Hl. destruct l1; reflexivity. }
    subst il.
    destruct (l1 ++ l2)%list as [|x l] eqn:E.
    + destruct th, hi, mutationsSupported, mo; observables; settle.
    + observables. settle.
  - assert (Hsame : (match Controller._observers c with [] => true | _ => false end
                     && Controller._isListening c) = false).
    { destruct H as (_ & Hl & _). rewrite Hl.
      destruct (Controller._observers c); reflexivity. }
    rewrite Hsame. exact H.
Qed.

Lemma call_listening (c : Controller.controller) (a : controller_call) :
  listening_ok mutationsSupported c ->
  listening_ok mutationsSupported (call_controller mutationsSupported c a).
Proof.
  intros H. destruct a as [o now|o|now| |entries now| | |v]; cbn [call_controller].
  - apply connect_listening, H.
  - apply disconnect_listening, H.
  - apply startUpdateCycle_listening, H.
  - apply requestUpdate_listening, H.
  - unfold Controller._onMutation.
    match goal with |- context [if ?b then _ else _] => destruct b end;
      [apply requestUpdate_listening|apply startUpdateCycle_listening]; exact H.
  - apply enableHover_listening, H.
  - apply disableHover_listening, H.
  - exact H.
Qed.

Lemma calls_listening (callbacks : list controller_call) (c : Controller.controller) :
  listening_ok mutationsSupported c ->
  listening_ok mutationsSupported
    (fold_left (call_controller mutationsSupported) callbacks c).
Proof.
  revert c. induction callbacks as [|a l IH]; intros c H; [exact H|].
  apply IH, call_listening, H.
Qed.

Lemma host_step_listening (h : hosted) (e : host_event) :
  listening_ok mutationsSupported (controlled h) ->
  listening_ok mutationsSupported (controlled (host_step mutationsSupported h e)).
Proof.
  intros H. destruct e as [a|timestamp hasChanges callbacks now|timestamp callbacks];
    cbn [host_step controlled];
    [| |destruct (Nat.ltb (ran h) (frames (controlled h))); cbn [controlled];
        [exact (calls_listening callbacks _ H)|exact H]].
  - apply call_listening, H.
  - destruct (Nat.ltb (ran h) (frames (controlled h))); cbn [controlled]; [|exact H].
    unfold Controller.scheduleUpdate. cbn [typeof String.eqb Ascii.eqb Bool.eqb].
    set (c1 := fold_left (call_controller mutationsSupported) callbacks (controlled h)).
    assert (H1 : listening_ok mutationsSupported
                   (Controller.set_isUpdateScheduled false c1))
      by exact (calls_listening callbacks _ H).
    destruct (Controller._wasCycleStarted _); cbn [negb]; [|exact H1].
    destruct hasChanges; [apply startUpdateCycle_listening, H1|].
    destruct (Controller._hasIdleTimeEnded now _); cbn [negb];
      [|apply requestUpdate_listening, H1].
    revert H1. generalize (Controller.set_isUpdateScheduled false c1).
    intros c2. unfold listening_ok, Controller._onCycleEnded.
    destruct c2 as [idle th cst ius rc hi mo il obs hl].
    destruct rc; observables; intros H2; exact H2.
Qed.

End Listening.

(** X10. Whatever calls and events reach the controller: it lists no
    observer twice; it listens exactly while it lists an observer; the
    hover listener is in place exactly while it listens and hovers are
    tracked; and the listeners and the MutationObserver it has set up and
    not taken down are one of each kind while it listens and none
    otherwise (those of clicks only without MutationObserver, the
    MutationObserver only with it). *)
Theorem listens_while_observed (mutationsSupported : bool)
  (events : list host_event) :
  let c := controlled (host_run mutationsSupported events hosted_start) in
  let listening := negb (Nat.eqb (List.length (Controller._observers c)) 0) in
  NoDup (Controller._observers c)
  /\ Controller._isListening c = listening
  /\ Controller._hoverInitiated c = Controller._trackHovers c && listening
  /\ installed "resize" c = Z_of_bool listening
  /\ installed "scroll" c = Z_of_bool listening
  /\ installed "click" c = Z_of_bool (negb mutationsSupported && listening)
  /\ installed "mouseover" c = Z_of_bool (Controller._trackHovers c && listening)
  /\ observing_mutations c = Z_of_bool (mutationsSupported && listening).
Proof.
  intros c listening.
  assert (H : listening_ok mutationsSupported c).
  { unfold c, host_run.
    assert (H0 : listening_ok mutationsSupported (controlled hosted_start))
      by (unfold listening_ok; destruct mutationsSupported; cbn;
          repeat split; constructor).
    revert H0. generalize hosted_start.
    induction events as [|e l IH]; intros h0 H0; [exact H0|].
    apply IH, host_step_listening, H0. }
  destruct H as (Hnd & Hl & Hh & Hr & Hm & I1 & I2 & I3 & I4 & I5).
  assert (El : Controller._isListening c = listening).
  { rewrite Hl. unfold listening. destruct (Controller._observers c); reflexivity. }
  rewrite <- El. rewrite <- Hh, <- Hm. repeat split; assumption.
Qed.

(** *** Finite rectangles *)

Lemma finite_qval (x : number) : isFinite x = true -> x = Fin (qval x).
Proof. destruct x; try discriminate. reflexivity. Qed.

Lemma lt_Fin (a b : Q) : lt (Fin a) (Fin b) = true <-> (a < b)%Q.
Proof.
  unfold lt. rewrite Qlt_alt. destruct (a ?= b)%Q; intuition congruence.
Qed.

Lemma lt_Fin_false (a b : Q) : lt (Fin a) (Fin b) = false <-> (b <= a)%Q.
Proof.
  rewrite <- not_true_iff_false, lt_Fin. split.
  - apply Qnot_lt_le.
  - apply Qle_not_lt.
Qed.

Lemma le_Fin_false (a b : Q) : le (Fin a) (Fin b) = false <-> (b < a)%Q.
Proof.
  rewrite <- not_true_iff_false, le_Fin. split.
  - apply Qnot_le_lt.
  - apply Qlt_not_le.
Qed.

Lemma strict_eq_Fin (a b : Q) : strict_eq (Fin a) (Fin b) = true <-> (a == b)%Q.
Proof. apply Qeq_bool_iff. Qed.

Lemma Qsgn_Eq (q : Q) : Qsgn q = Eq <-> (q == 0)%Q.
Proof.
  unfold Qsgn, Qeq. rewrite Z.compare_eq_iff. simpl. lia.
Qed.

Lemma Qsgn_Gt (q : Q) : Qsgn q = Gt <-> (0 < q)%Q.
Proof.
  unfold Qsgn, Qlt. rewrite Z.compare_gt_iff. simpl. lia.
Qed.

Lemma Qsgn_Lt (q : Q) : Qsgn q = Lt <-> (q < 0)%Q.
Proof.
  unfold Qsgn, Qlt. rewrite Z.compare_lt_iff. simpl. lia.
Qed.

Lemma max_Fin (a b : Q) :
  exists c, max (Fin a) (Fin b) = Fin c /\ (c == Qmax a b)%Q.
Proof.
  unfold max. destruct (lt (Fin a) (Fin b)) eqn:E;
    [apply lt_Fin in E|apply lt_Fin_false in E]; eexists; (split; [reflexivity|]);
    destruct (Q.max_spec a b) as [[? ->]|[? ->]]; lra.
Qed.

Lemma min_Fin (a b : Q) :
  exists c, min (Fin a) (Fin b) = Fin c /\ (c == Qmin a b)%Q.
Proof.
  unfold min. destruct (lt (Fin b) (Fin a)) eqn:E;
    [apply lt_Fin in E|apply lt_Fin_false in E]; eexists; (split; [reflexivity|]);
    destruct (Q.min_spec a b) as [[? ->]|[? ->]]; lra.
Qed.

Lemma sub_Fin (a b : Q) :
  exists c, sub (Fin a) (Fin b) = Fin c /\ (c == a - b)%Q.
Proof.
  eexists. split; [reflexivity|]. rewrite !Qred_correct. ring.
Qed.

Lemma add_Fin (a b : Q) :
  exists c, add (Fin a) (Fin b) = Fin c /\ (c == a + b)%Q.
Proof.
  eexists. split; [reflexivity|]. rewrite !Qred_correct. ring.
Qed.

Lemma mul_Fin (a b : Q) :
  exists c, mul (Fin a) (Fin b) = Fin c /\ (c == a * b)%Q.
Proof.
  eexists. split; [reflexivity|]. rewrite !Qred_correct. ring.
Qed.

Lemma finite_edges_Fin (r : rect) :
  finite_edges r = true ->
  left r = Fin (qval (left r)) /\ top r = Fin (qval (top r))
  /\ right r = Fin (qval (right r)) /\ bottom r = Fin (qval (bottom r)).
Proof.
  unfold finite_edges. rewrite !andb_true_iff. intros [[[Hl Ht] Hr] Hb].
  repeat split; apply finite_qval; assumption.
Qed.

Lemma isClientRect_boxed (r : rect) :
  isClientRect r = true ->
  boxed r /\ (0 <= qval (width r))%Q /\ (0 <= qval (height r))%Q.
Proof.
  unfold isClientRect, boxed. rewrite !andb_true_iff.
  intros [[[[Hf Hw] Hh] Pw] Ph]. split; [split; [exact Hf|]|];
    unfold finite_edges in Hf; rewrite !andb_true_iff in Hf;
    destruct Hf as [[[Hl Ht] Hr] Hb];
    destruct r as [l t w h b rg]; cbn [left top right bottom width height] in *;
    destruct l as [| | |l]; try discriminate;
    destruct t as [| | |t]; try discriminate;
    destruct rg as [| | |rg]; try discriminate;
    destruct b as [| | |b]; try discriminate;
    destruct (sub_Fin rg l) as (w' & Ew & Qw); rewrite Ew in Hw;
    destruct (sub_Fin b t) as (h' & Eh & Qh); rewrite Eh in Hh;
    destruct w as [| | |w]; try discriminate;
    destruct h as [| | |h]; try discriminate;
    apply strict_eq_Fin in Hw, Hh; apply le_Fin in Pw, Ph; cbn [qval isFinite];
    repeat split; lra.
Qed.

Lemma computeIntersection_boxed (I P : rect) :
  finite_edges I = true -> finite_edges P = true ->
  let R := computeIntersection I P in
  boxed R
  /\ (qval (left R) == Qmax (qval (left P)) (qval (left I)))%Q
  /\ (qval (top R) == Qmax (qval (top P)) (qval (top I)))%Q
  /\ (qval (right R) == Qmin (qval (right P)) (qval (right I)))%Q
  /\ (qval (bottom R) == Qmin (qval (bottom P)) (qval (bottom I)))%Q.
Proof.
  intros HI HP.
  destruct (finite_edges_Fin I HI) as (Il & It & Ir & Ib).
  destruct (finite_edges_Fin P HP) as (Pl & Pt & Pr & Pb).
  unfold computeIntersection. rewrite Il, It, Ir, Ib, Pl, Pt, Pr, Pb.
  generalize (qval (left I)) (qval (top I)) (qval (right I)) (qval (bottom I))
             (qval (left P)) (qval (top P)) (qval (right P)) (qval (bottom P)).
  intros il it ir ib pl pt pr pb. clear.
  destruct (max_Fin pl il) as (l & -> & Ql).
  destruct (max_Fin pt it) as (t & -> & Qt).
  destruct (min_Fin pr ir) as (r & -> & Qr).
  destruct (min_Fin pb ib) as (b & -> & Qb).
  cbv zeta.
  destruct (sub_Fin r l) as (w & -> & Qw).
  destruct (sub_Fin b t) as (h & -> & Qh).
  unfold createRectangle, boxed, finite_edges. cbn [left top right bottom width height].
  destruct (add_Fin t h) as (b' & -> & Qb').
  destruct (add_Fin l w) as (r' & -> & Qr').
  cbn [qval isFinite andb].
  repeat split; try reflexivity; try assumption; lra.
Qed.

(** The rectangle [getIntersection] returns lies within the rectangle it
    starts from and within that of the container. *)
Lemma getIntersectionLoop_boxed (doc : document) (container : element)
  (C : rect) (parents : list element) :
  finite_edges C = true ->
  forall I : rect,
    finite_edges I = true ->
    forallb (fun p => finite_edges (getRectangle doc p))
            (clippers doc container parents) = true ->
    let R := getIntersectionLoop doc container C I parents in
    boxed R
    /\ (qval (left I) <= qval (left R))%Q /\ (qval (top I) <= qval (top R))%Q
    /\ (qval (right R) <= qval (right I))%Q
    /\ (qval (bottom R) <= qval (bottom I))%Q
    /\ (qval (left C) <= qval (left R))%Q /\ (qval (top C) <= qval (top R))%Q
    /\ (qval (right R) <= qval (right C))%Q
    /\ (qval (bottom R) <= qval (bottom C))%Q.
Proof.
  intros HC.
  assert (Hlast : forall I, finite_edges I = true ->
            let R := computeIntersection I C in
            boxed R
            /\ (qval (left I) <= qval (left R))%Q /\ (qval (top I) <= qval (top R))%Q
            /\ (qval (right R) <= qval (right I))%Q
            /\ (qval (bottom R) <= qval (bottom I))%Q
            /\ (qval (left C) <= qval (left R))%Q /\ (qval (top C) <= qval (top R))%Q
            /\ (qval (right R) <= qval (right C))%Q
            /\ (qval (bottom R) <= qval (bottom C))%Q).
  { intros I HI. destruct (computeIntersection_boxed I C HI HC) as (B & L & T & R & Bt).
    cbv zeta. split; [exact B|].
    rewrite L, T, R, Bt.
    repeat split; auto using Q.le_max_l, Q.le_max_r, Q.le_min_l, Q.le_min_r. }
  induction parents as [|parent parents IH]; intros I HI Hc; cbn [getIntersectionLoop].
  - apply Hlast, HI.
  - cbn [clippers] in Hc.
    destruct (Nat.eqb parent container); [apply Hlast, HI|].
    destruct (negb (String.eqb (overflow doc parent) "visible")).
    + cbn [forallb] in Hc. apply andb_true_iff in Hc. destruct Hc as [HP Hc].
      destruct (computeIntersection_boxed I _ HI HP) as (B & L & T & R & Bt).
      cbv zeta in *.
      specialize (IH (computeIntersection I (getRectangle doc parent))
                    (proj1 B) Hc).
      cbv zeta in IH.
      destruct IH as (B' & L' & T' & R' & Bt' & CL & CT & CR & CB).
      split; [exact B'|].
      assert (qval (left I) <= qval (left (computeIntersection I (getRectangle doc parent))))%Q
        by (rewrite L; apply Q.le_max_r).
      assert (qval (top I) <= qval (top (computeIntersection I (getRectangle doc parent))))%Q
        by (rewrite T; apply Q.le_max_r).
      assert (qval (right (computeIntersection I (getRectangle doc parent))) <= qval (right I))%Q
        by (rewrite R; apply Q.le_min_r).
      assert (qval (bottom (computeIntersection I (getRectangle doc parent))) <= qval (bottom I))%Q
        by (rewrite Bt; apply Q.le_min_r).
      repeat split; try assumption; lra.
    + apply IH; assumption.
Qed.

(** Where the container and every clipping ancestor hold the box of the
    rectangle it starts from, [getIntersection] returns that box. *)
Lemma getIntersectionLoop_within (doc : document) (container : element)
  (C T : rect) (parents : list element) :
  finite_edges C = true -> finite_edges T = true ->
  within T C = true ->
  forallb (fun p => finite_edges (getRectangle doc p)
                    && within T (getRectangle doc p))
          (clippers doc container parents) = true ->
  forall I : rect,
    finite_edges I = true ->
    (qval (left I) == qval (left T))%Q -> (qval (top I) == qval (top T))%Q ->
    (qval (right I) == qval (right T))%Q ->
    (qval (bottom I) == qval (bottom T))%Q ->
    let R := getIntersectionLoop doc container C I parents in
    boxed R
    /\ (qval (left R) == qval (left T))%Q /\ (qval (top R) == qval (top T))%Q
    /\ (qval (right R) == qval (right T))%Q
    /\ (qval (bottom R) == qval (bottom T))%Q.
Proof.
  intros HC HT HW.
  assert (Hstep : forall P I, finite_edges P = true -> within T P = true ->
            finite_edges I = true ->
            (qval (left I) == qval (left T))%Q -> (qval (top I) == qval (top T))%Q ->
            (qval (right I) == qval (right T))%Q ->
            (qval (bottom I) == qval (bottom T))%Q ->
            let R := computeIntersection I P in
            boxed R
            /\ (qval (left R) == qval (left T))%Q /\ (qval (top R) == qval (top T))%Q
            /\ (qval (right R) == qval (right T))%Q
            /\ (qval (bottom R) == qval (bottom T))%Q).
  { intros P I HP HWP HI El Et Er Eb.
    destruct (computeIntersection_boxed I P HI HP) as (B & L & Tp & R & Bt).
    cbv zeta. split; [exact B|]. rewrite L, Tp, R, Bt. clear L Tp R Bt B.
    unfold within in HWP. rewrite !andb_true_iff in HWP.
    destruct HWP as [[[Wl Wt] Wr] Wb].
    destruct (finite_edges_Fin P HP) as (Pl & Pt & Pr & Pb).
    destruct (finite_edges_Fin T HT) as (Tl & Tt & Tr & Tb).
    rewrite Pl, Tl in Wl. rewrite Pt, Tt in Wt. rewrite Pr, Tr in Wr.
    rewrite Pb, Tb in Wb. apply le_Fin in Wl, Wt, Wr, Wb.
    repeat split.
    - destruct (Q.max_spec (qval (left P)) (qval (left I))) as [[? ->]|[? ->]]; lra.
    - destruct (Q.max_spec (qval (top P)) (qval (top I))) as [[? ->]|[? ->]]; lra.
    - destruct (Q.min_spec (qval (right P)) (qval (right I))) as [[? ->]|[? ->]]; lra.
    - destruct (Q.min_spec (qval (bottom P)) (qval (bottom I))) as [[? ->]|[? ->]]; lra. }
  induction parents as [|parent parents IH]; intros Hc I HI El Et Er Eb;
    cbn [getIntersectionLoop].
  - apply Hstep; assumption.
  - cbn [clippers] in Hc.
    destruct (Nat.eqb parent container); [apply Hstep; assumption|].
    destruct (negb (String.eqb (overflow doc parent) "visible")).
    + cbn [forallb] in Hc. rewrite !andb_true_iff in Hc.
      destruct Hc as [[HP HWP] Hc].
      destruct (Hstep _ I HP HWP HI El Et Er Eb) as (B & L & Tp & R & Bt).
      cbv zeta in *. apply (IH Hc); try assumption. exact (proj1 B).
    + apply IH; assumption.
Qed.

(** *** The ratio *)

Lemma area_ratio_unit (w h wT hT : Q) :
  (0 <= w)%Q -> (w <= wT)%Q -> (0 <= h)%Q -> (h <= hT)%Q ->
  unit_ratio (or_else (div (mul (Fin w) (Fin h)) (mul (Fin wT) (Fin hT))) zero)
  = true.
Proof.
  intros W0 W1 H0 H1. unfold mul, div.
  assert (Ea := Qred_correct (w * h)). assert (Eb := Qred_correct (wT * hT)).
  assert (A0 : (0 <= w * h)%Q) by (apply Qmult_le_0_compat; assumption).
  assert (AB : (w * h <= wT * hT)%Q).
  { apply Qle_trans with (w * hT)%Q.
    - rewrite !(Qmult_comm w). apply Qmult_le_compat_r; assumption.
    - apply Qmult_le_compat_r; [assumption|]. apply Qle_trans with h; assumption. }
  destruct (Qsgn (Qred (wT * hT))) eqn:E.
  - apply Qsgn_Eq in E.
    assert (Ez : Qsgn (Qred (w * h)) = Eq) by (apply Qsgn_Eq; lra).
    rewrite Ez. reflexivity.
  - apply Qsgn_Lt in E. lra.
  - apply Qsgn_Gt in E.
    assert (Er := Qred_correct (Qred (w * h) / Qred (wT * hT))).
    assert (R0 : (0 <= Qred (w * h) / Qred (wT * hT))%Q)
      by (apply Qle_shift_div_l; [assumption|lra]).
    assert (R1 : (Qred (w * h) / Qred (wT * hT) <= 1)%Q)
      by (apply Qle_shift_div_r; [assumption|lra]).
    unfold or_else. destruct (truthy _); [|reflexivity].
    unfold unit_ratio, zero, one. rewrite !(proj2 (le_Fin _ _)); [reflexivity| |]; lra.
Qed.

Lemma area_ratio_one (w h wT hT : Q) :
  (w == wT)%Q -> (h == hT)%Q -> (0 < wT * hT)%Q ->
  strict_eq (or_else (div (mul (Fin w) (Fin h)) (mul (Fin wT) (Fin hT))) zero)
            one = true.
Proof.
  intros Ew Eh Hp. unfold mul, div.
  assert (Ea := Qred_correct (w * h)). assert (Eb := Qred_correct (wT * hT)).
  assert (AB : (w * h == wT * hT)%Q) by (rewrite Ew, Eh; reflexivity).
  assert (Hg : Qsgn (Qred (wT * hT)) = Gt) by (apply Qsgn_Gt; lra).
  rewrite Hg.
  assert (Er := Qred_correct (Qred (w * h) / Qred (wT * hT))).
  assert (R1 : (Qred (w * h) / Qred (wT * hT) == 1)%Q).
  { rewrite Ea, AB, Eb. apply Qmult_inv_r. lra. }
  unfold or_else, truthy.
  assert (Ht : Qeq_bool (Qred (Qred (w * h) / Qred (wT * hT))) 0 = false).
  { apply not_true_iff_false. rewrite Qeq_bool_iff. lra. }
  rewrite Ht. cbn [negb]. apply strict_eq_Fin. lra.
Qed.

Lemma boxed_Fin (r : rect) :
  boxed r ->
  width r = Fin (qval (width r)) /\ height r = Fin (qval (height r)).
Proof.
  intros (_ & Hw & Hh & _). split; apply finite_qval; assumption.
Qed.

(** An intersection that exists has a ratio within 0 and 1. *)
Lemma getIntersectionData_unit (doc : document) (this : observation)
  (container : element) (C T : rect) :
  isClientRect T = true -> finite_edges C = true ->
  forallb (fun p => finite_edges (getRectangle doc p))
          (clippers doc container (ancestors doc (target this))) = true ->
  let data := getIntersectionData doc this container (Some C) (Some T) in
  exists_ data = true -> unit_ratio (ratio data) = true.
Proof.
  intros HT HC Hc. unfold getIntersectionData. cbv zeta. cbn [exists_ ratio].
  destruct (isDetached doc container (target this)); [discriminate|].
  cbn [negb andb]. unfold getIntersection.
  destruct (isClientRect_boxed T HT) as ((FT & TW & TH & QW & QH) & W0 & H0).
  destruct (getIntersectionLoop_boxed doc container C _ HC T FT Hc)
    as (B & L & Tp & R & Bt & _).
  set (I := getIntersectionLoop _ _ _ _ _) in *.
  destruct (boxed_Fin I B) as [Ew Eh]. destruct B as (_ & _ & _ & IW & IH).
  unfold getArea. rewrite Ew, Eh, (finite_qval _ TW), (finite_qval _ TH).
  unfold ge, zero. rewrite andb_true_iff, !le_Fin. intros [P0 P1].
  apply area_ratio_unit; lra.
Qed.

(** A target beside the rectangle of the container has no intersection. *)
Lemma getIntersectionData_beside (doc : document) (this : observation)
  (container : element) (C T : rect) :
  finite_edges T = true -> finite_edges C = true ->
  forallb (fun p => finite_edges (getRectangle doc p))
          (clippers doc container (ancestors doc (target this))) = true ->
  beside T C = true ->
  exists_ (getIntersectionData doc this container (Some C) (Some T)) = false.
Proof.
  intros FT HC Hc Hb. unfold getIntersectionData. cbv zeta. cbn [exists_].
  destruct (isDetached doc container (target this)); [reflexivity|].
  cbn [negb andb]. unfold getIntersection.
  destruct (getIntersectionLoop_boxed doc container C _ HC T FT Hc)
    as (B & L & Tp & R & Bt & CL & CT & CR & CB).
  set (I := getIntersectionLoop _ _ _ _ _) in *.
  destruct (boxed_Fin I B) as [Ew Eh]. destruct B as (_ & _ & _ & IW & IH).
  rewrite Ew, Eh. unfold ge, zero.
  destruct (finite_edges_Fin T FT) as (Tl & Tt & Tr & Tb).
  destruct (finite_edges_Fin C HC) as (Cl & Ct & Cr & Cb).
  unfold beside in Hb. rewrite Tl, Tt, Tr, Tb, Cl, Ct, Cr, Cb in Hb.
  rewrite !orb_true_iff, !lt_Fin in Hb.
  apply andb_false_iff.
  destruct Hb as [[[Hb|Hb]|Hb]|Hb]; [left|left|right|right];
    apply le_Fin_false; lra.
Qed.

(** A target within the container and within every clipping ancestor is
    its own intersection. *)
Lemma getIntersectionData_within (doc : document) (this : observation)
  (container : element) (C T : rect) :
  isClientRect T = true -> finite_edges C = true ->
  isDetached doc container (target this) = false ->
  within T C = true ->
  forallb (fun p => finite_edges (getRectangle doc p)
                    && within T (getRectangle doc p))
          (clippers doc container (ancestors doc (target this))) = true ->
  let data := getIntersectionData doc this container (Some C) (Some T) in
  exists_ data = true
  /\ isEqual (rect_ data) T = true
  /\ (lt zero (getArea T) = true -> strict_eq (ratio data) one = true).
Proof.
  intros HT HC Hd HW Hc. unfold getIntersectionData. cbv zeta.
  cbn [exists_ ratio rect_]. rewrite Hd. cbn [negb andb]. unfold getIntersection.
  destruct (isClientRect_boxed T HT) as ((FT & TW & TH & QW & QH) & W0 & H0).
  destruct (getIntersectionLoop_within doc container C T _ HC FT HW Hc T FT)
    as (B & L & Tp & R & Bt); try reflexivity.
  set (I := getIntersectionLoop _ _ _ _ _) in *.
  destruct (boxed_Fin I B) as [Ew Eh]. destruct B as (FI & _ & _ & IW & IH).
  destruct (finite_edges_Fin T FT) as (Tl & Tt & Tr & Tb).
  destruct (finite_edges_Fin I FI) as (Il & It & Ir & Ib).
  split; [|split].
  - rewrite Ew, Eh. unfold ge, zero. rewrite andb_true_iff, !le_Fin. lra.
  - unfold isEqual. rewrite Tl, Tt, Tr, Tb, Il, It, Ir, Ib.
    rewrite !andb_true_iff, !strict_eq_Fin. tauto.
  - unfold getArea. rewrite Ew, Eh, (finite_qval _ TW), (finite_qval _ TH).
    intros Hp. apply area_ratio_one; try lra.
    destruct (mul_Fin (qval (width T)) (qval (height T))) as (a & Ea & Qa).
    rewrite Ea in Hp. apply lt_Fin in Hp. lra.
Qed.

(** *** What an update reports *)

(** With a target rectangle whose sizes are exactly the differences of
    its edges, an intersection that exists has a ratio within 0 and 1,
    and so has every entry an update queues. *)
Lemma updateIntersection_unit_exact (doc : document) (now : number)
  (root : element) (rootRect : rect) (this : observation) (o : observer) :
  isClientRect (getRectangle doc (target this)) = true ->
  finite_edges rootRect = true ->
  forallb (fun p => finite_edges (getRectangle doc p))
          (clippers doc root (ancestors doc (target this))) = true ->
  let data :=
    getIntersectionData doc this root (Some rootRect)
      (Some (getRectangle doc (target this))) in
  let o' := snd (updateIntersection doc now root rootRect this o) in
  (exists_ data = true -> unit_ratio (ratio data) = true)
  /\ forall e, In e (_quedEntries o') ->
       In e (_quedEntries o) \/ unit_ratio (Entry.intersectionRatio e) = true.
Proof.
  intros HT HC Hc data o'.
  pose proof (getIntersectionData_unit doc this root rootRect _ HT HC Hc) as Hu.
  cbv zeta in Hu. fold data in Hu. split; [exact Hu|].
  intros e. unfold o', updateIntersection. cbv zeta. cbn [snd]. fold data.
  destruct (negb (Nat.eqb _ (prevThreshold this))); [|tauto].
  unfold queueEntry. cbn [_quedEntries set_quedEntries].
  rewrite in_app_iff. intros [H|[<-|[]]]; [tauto|right].
  cbn [Entry.intersectionRatio Entry.IntersectionObserverEntry].
  destruct (exists_ data); cbn [negb ratio]; [apply Hu|]; reflexivity.
Qed.

(** A target beside the root, in exact arithmetic. *)
Lemma updateIntersection_beside_exact (doc : document) (now : number)
  (root : element) (rootRect : rect) (this : observation) (o : observer) :
  finite_edges (getRectangle doc (target this)) = true ->
  finite_edges rootRect = true ->
  forallb (fun p => finite_edges (getRectangle doc p))
          (clippers doc root (ancestors doc (target this))) = true ->
  beside (getRectangle doc (target this)) rootRect = true ->
  let r := updateIntersection doc now root rootRect this o in
  prevThreshold (snd (fst r)) = 0
  /\ snd r
     = if Nat.eqb (prevThreshold this) 0 then o
       else queueEntry
              (Entry.IntersectionObserverEntry (target this)
                 (getRectangle doc (target this)) emptyRect zero rootRect now)
              o.
Proof.
  intros HT HC Hc Hb.
  pose proof (getIntersectionData_beside doc this root rootRect _ HT HC Hc Hb) as He.
  unfold updateIntersection. cbv zeta. cbn [fst snd prevThreshold].
  rewrite He. cbn [andb negb rect_ ratio]. split; [reflexivity|].
  destruct (prevThreshold this); reflexivity.
Qed.

Lemma thresholdScan_all (l : list number) (ratio : number) (index : nat) :
  Forall (fun t => le t ratio = true) l ->
  thresholdScan l ratio index = index + List.length l.
Proof.
  intros H. revert index. induction H as [|t l Ht _ IH]; intros index; simpl.
  - lia.
  - rewrite Ht, IH. lia.
Qed.

(** A target within the root and its clipping ancestors, in exact
    arithmetic. *)
Lemma updateIntersection_within_exact (doc : document) (now : number)
  (root : element) (rootRect : rect) (this : observation) (o : observer) :
  isClientRect (getRectangle doc (target this)) = true ->
  lt zero (getArea (getRectangle doc (target this))) = true ->
  finite_edges rootRect = true ->
  isDetached doc root (target this) = false ->
  within (getRectangle doc (target this)) rootRect = true ->
  forallb (fun p => finite_edges (getRectangle doc p)
                    && within (getRectangle doc (target this))
                              (getRectangle doc p))
          (clippers doc root (ancestors doc (target this))) = true ->
  Forall (fun t => le t one = true) (thresholds o) ->
  let r := updateIntersection doc now root rootRect this o in
  prevThreshold (snd (fst r)) = List.length (thresholds o)
  /\ strict_eq (prevRatio (snd (fst r))) one = true
  /\ if Nat.eqb (List.length (thresholds o)) (prevThreshold this) then snd r = o
     else exists e,
            snd r = queueEntry e o
            /\ Entry.target e = target this
            /\ strict_eq (Entry.intersectionRatio e) one = true
            /\ isEqual (Entry.intersectionRect e)
                       (getRectangle doc (target this)) = true.
Proof.
  intros HT Hp HC Hd HW Hc Hth.
  destruct (getIntersectionData_within doc this root rootRect _ HT HC Hd HW Hc)
    as (He & Hq & H1).
  specialize (H1 Hp).
  unfold updateIntersection. cbv zeta. cbn [fst snd prevThreshold prevRatio].
  set (data := getIntersectionData _ _ _ _ _) in *.
  rewrite He. cbn [andb negb].
  assert (Hn : isEmpty (getRectangle doc (target this)) = false).
  { unfold isEmpty. apply andb_false_iff. left.
    destruct (isClientRect_boxed _ HT) as ((_ & TW & TH & _) & _).
    unfold getArea in Hp.
    rewrite (finite_qval _ TW), (finite_qval _ TH) in *.
    destruct (mul_Fin (qval (width (getRectangle doc (target this))))
                      (qval (height (getRectangle doc (target this)))))
      as (a & Ea & Qa).
    rewrite Ea in Hp. apply lt_Fin in Hp.
    apply not_true_iff_false. unfold zero. rewrite strict_eq_Fin. intros E.
    rewrite E in Qa. lra. }
  rewrite Hn. cbn [negb].
  assert (Hb : getThresholdGreaterThan o (ratio data) = List.length (thresholds o)).
  { unfold getThresholdGreaterThan. rewrite thresholdScan_all; [reflexivity|].
    eapply Forall_impl; [|exact Hth]. cbv beta. intros t Ht.
    apply (le_trans _ one); [exact Ht|].
    destruct (ratio data) as [| | |q]; try discriminate.
    unfold one in *. apply strict_eq_Fin in H1. apply le_Fin. lra. }
  rewrite Hb. split; [reflexivity|]. split; [exact H1|].
  destruct (Nat.eqb (List.length (thresholds o)) (prevThreshold this));
    cbn [negb]; [reflexivity|].
  eexists. split; [reflexivity|].
  cbn [Entry.target Entry.intersectionRatio Entry.intersectionRect
       Entry.IntersectionObserverEntry mapToClientRect].
  repeat split; assumption.
Qed.

(** *** The pixel grid *)

Lemma on_grid_finite (n : Z) (x : number) :
  on_grid n x = true -> isFinite x = true.
Proof. destruct x; try discriminate. reflexivity. Qed.

Lemma grid_edges_finite (n : Z) (r : rect) :
  grid_edges n r = true -> finite_edges r = true.
Proof.
  unfold grid_edges, finite_edges. rewrite !andb_true_iff.
  intros [[[Hl Ht] Hr] Hb].
  repeat split; eapply on_grid_finite; eassumption.
Qed.

(** A rectangle reported at whole pixels has sizes that are exactly the
    differences of its edges. *)
Lemma grid_rect_client (n : Z) (r : rect) :
  grid_rect n r = true -> isClientRect r = true.
Proof.
  unfold grid_rect, isClientRect, finite_edges. rewrite !andb_true_iff.
  intros [[[[[[[Hl Ht] Hw] Hh] Pw] Ph] Er] Eb].
  apply on_grid_finite in Hl, Ht, Hw, Hh.
  destruct r as [l t w h b rg]; cbn [left top right bottom width height] in *.
  destruct l as [| | |l]; try discriminate.
  destruct t as [| | |t]; try discriminate.
  destruct w as [| | |w]; try discriminate.
  destruct h as [| | |h]; try discriminate.
  destruct (add_Fin l w) as (rg' & Erg & Qrg). rewrite Erg in Er.
  destruct (add_Fin t h) as (b' & Ebt & Qbt). rewrite Ebt in Eb.
  destruct rg as [| | |rg]; try discriminate.
  destruct b as [| | |b]; try discriminate.
  apply strict_eq_Fin in Er, Eb.
  destruct (sub_Fin rg l) as (w' & -> & Qw). destruct (sub_Fin b t) as (h' & -> & Qh).
  rewrite !strict_eq_Fin. cbn [isFinite andb].
  repeat split; try assumption; lra.
Qed.

Lemma grid_clippers (n : Z) (doc : document) (l : list element) :
  forallb (fun p => grid_edges n (getRectangle doc p)) l = true ->
  forallb (fun p => finite_edges (getRectangle doc p)) l = true.
Proof.
  rewrite !forallb_forall. intros H p Hp.
  exact (grid_edges_finite n _ (H p Hp)).
Qed.

(** X17. With the rectangles at whole pixels (the target as the host
    reports it, of magnitude up to [2 ^ 25]; the edges of the root and of
    the clipping ancestors up to [2 ^ 50]), an intersection that exists
    has a ratio within 0 and 1, and so has every entry an update
    queues. *)
Theorem updateIntersection_unit_ratio (doc : document) (now : number)
  (root : element) (rootRect : rect) (this : observation) (o : observer) :
  grid_rect 25 (getRectangle doc (target this)) = true ->
  grid_edges 50 rootRect = true ->
  forallb (fun p => grid_edges 50 (getRectangle doc p))
          (clippers doc root (ancestors doc (target this))) = true ->
  let data :=
    getIntersectionData doc this root (Some rootRect)
      (Some (getRectangle doc (target this))) in
  let o' := snd (updateIntersection doc now root rootRect this o) in
  (exists_ data = true -> unit_ratio (ratio data) = true)
  /\ forall e, In e (_quedEntries o') ->
       In e (_quedEntries o) \/ unit_ratio (Entry.intersectionRatio e) = true.
Proof.
  intros HT HC Hc.
  apply updateIntersection_unit_exact.
  - exact (grid_rect_client _ _ HT).
  - exact (grid_edges_finite _ _ HC).
  - exact (grid_clippers _ _ _ Hc).
Qed.

(** X17 on a target of 20 by 20 that a scroller of 50 by 50 clips to 10
    by 10. *)
Lemma updateIntersection_unit_ratio_clipped :
  ratio (getIntersectionData scroller (IntersectionObservation 2 0) 1
           (Some (getRectangle scroller 1)) (Some (getRectangle scroller 2)))
  = Fin (1 # 4)
  /\ forall e,
       In e (_quedEntries
               (snd (updateIntersection scroller zero 1 (getRectangle scroller 1)
                       (IntersectionObservation 2 0) watcher))) ->
       In e (_quedEntries watcher)
       \/ unit_ratio (Entry.intersectionRatio e) = true.
Proof.
  split; [vm_compute; reflexivity|].
  apply (updateIntersection_unit_ratio scroller zero 1 (getRectangle scroller 1)
           (IntersectionObservation 2 0) watcher); vm_compute; reflexivity.
Defined.

(** X18. A target that lies wholly on one side of the rectangle of the
    root, all edges being at whole pixels of magnitude up to [2 ^ 50],
    falls into the bucket 0: the update queues nothing if it was there
    already, and otherwise one entry, with the ratio 0 and the empty
    rectangle. *)
Theorem updateIntersection_beside (doc : document) (now : number)
  (root : element) (rootRect : rect) (this : observation) (o : observer) :
  grid_edges 50 (getRectangle doc (target this)) = true ->
  grid_edges 50 rootRect = true ->
  forallb (fun p => grid_edges 50 (getRectangle doc p))
          (clippers doc root (ancestors doc (target this))) = true ->
  beside (getRectangle doc (target this)) rootRect = true ->
  let r := updateIntersection doc now root rootRect this o in
  prevThreshold (snd (fst r)) = 0
  /\ snd r
     = if Nat.eqb (prevThreshold this) 0 then o
       else queueEntry
              (Entry.IntersectionObserverEntry (target this)
                 (getRectangle doc (target this)) emptyRect zero rootRect now)
              o.
Proof.
  intros HT HC Hc Hb.
  apply updateIntersection_beside_exact.
  - exact (grid_edges_finite _ _ HT).
  - exact (grid_edges_finite _ _ HC).
  - exact (grid_clippers _ _ _ Hc).
  - exact Hb.
Qed.

(** X18 on a target to the right of its root, below a scroller that
    clips it. *)
Lemma updateIntersection_beside_right :
  let doc :=
    {| documentElement := 0;
       clientWidth := of_Z 100;
       clientHeight := of_Z 100;
       getBoundingClientRect :=
         fun e => match e with
                  | 1 => createRectangle zero zero (of_Z 10) (of_Z 10)
                  | 2 => createRectangle (of_Z 20) zero (of_Z 10) (of_Z 10)
                  | _ => createRectangle zero zero (of_Z 40) (of_Z 40)
                  end;
       overflow := fun e => match e with 3 => "hidden" | _ => "visible" end;
       ancestors :=
         fun e => match e with
                  | 2 => [3; 1; 0]
                  | 3 => [1; 0]
                  | 1 => [0]
                  | _ => []
                  end |} in
  snd (updateIntersection doc zero 1 (getRectangle doc 1)
         (IntersectionObservation 2 0) watcher)
  = watcher.
Proof.
  intros doc.
  apply (updateIntersection_beside doc zero 1 (getRectangle doc 1)
           (IntersectionObservation 2 0) watcher); vm_compute; reflexivity.
Defined.

(** X19. At whole pixels, a target of positive area (as the host reports
    it, of magnitude up to [2 ^ 25]) that is attached and lies within the
    rectangle of the root and within every clipping ancestor (their edges
    of magnitude up to [2 ^ 50]) has the ratio 1 and falls into the last
    bucket when no threshold is above 1: the update queues nothing if it
    was there already, and otherwise one entry, with the ratio 1 and the
    rectangle of the target. *)
Theorem updateIntersection_within (doc : document) (now : number)
  (root : element) (rootRect : rect) (this : observation) (o : observer) :
  grid_rect 25 (getRectangle doc (target this)) = true ->
  lt zero (getArea (getRectangle doc (target this))) = true ->
  grid_edges 50 rootRect = true ->
  isDetached doc root (target this) = false ->
  within (getRectangle doc (target this)) rootRect = true ->
  forallb (fun p => grid_edges 50 (getRectangle doc p)
                    && within (getRectangle doc (target this))
                              (getRectangle doc p))
          (clippers doc root (ancestors doc (target this))) = true ->
  Forall (fun t => le t one = true) (thresholds o) ->
  let r := updateIntersection doc now root rootRect this o in
  prevThreshold (snd (fst r)) = List.length (thresholds o)
  /\ strict_eq (prevRatio (snd (fst r))) one = true
  /\ if Nat.eqb (List.length (thresholds o)) (prevThreshold this) then snd r = o
     else exists e,
            snd r = queueEntry e o
            /\ Entry.target e = target this
            /\ strict_eq (Entry.intersectionRatio e) one = true
            /\ isEqual (Entry.intersectionRect e)
                       (getRectangle doc (target this)) = true.
Proof.
  intros HT Hp HC Hd HW Hc Hth.
  apply updateIntersection_within_exact; try assumption.
  - exact (grid_rect_client _ _ HT).
  - exact (grid_edges_finite _ _ HC).
  - rewrite forallb_forall in *. intros p Hp'. specialize (Hc p Hp').
    apply andb_true_iff in Hc. destruct Hc as [H1 H2].
    rewrite (grid_edges_finite _ _ H1), H2. reflexivity.
Qed.

(** X19 on the target of 10 by 10 that the scroller of 50 by 50 holds
    within the root of 100 by 100: the first update of the observer with
    the thresholds 0, 0.25, 0.5 and 1 puts it into the bucket 4. *)
Lemma updateIntersection_within_held :
  let doc :=
    {| documentElement := 0;
       clientWidth := of_Z 100;
       clientHeight := of_Z 100;
       getBoundingClientRect :=
         fun e => match e with
                  | 1 => createRectangle zero zero (of_Z 100) (of_Z 100)
                  | 2 => createRectangle (of_Z 10) (of_Z 10) (of_Z 10) (of_Z 10)
                  | _ => createRectangle zero zero (of_Z 50) (of_Z 50)
                  end;
       overflow := fun e => match e with 3 => "hidden" | _ => "visible" end;
       ancestors :=
         fun e => match e with
                  | 2 => [3; 1; 0]
                  | 3 => [1; 0]
                  | 1 => [0]
                  | _ => []
                  end |} in
  prevThreshold
    (snd (fst (updateIntersection doc zero 1 (getRectangle doc 1)
                 (IntersectionObservation 2 0) graded)))
  = 4.
Proof.
  intros doc.
  apply (updateIntersection_within doc zero 1 (getRectangle doc 1)
           (IntersectionObservation 2 0) graded);
    try (vm_compute; reflexivity).
  repeat constructor.
Defined.

(** X20. A target that is detached from the root has no intersection and
    the ratio 0, whatever the rectangles are: the update puts it into the
    bucket 0, and queues nothing if it was there already, and otherwise
    one entry, with the ratio 0 and the empty rectangle. *)
Theorem updateIntersection_detached (doc : document) (now : number)
  (root : element) (rootRect : rect) (this : observation) (o : observer) :
  isDetached doc root (target this) = true ->
  let r := updateIntersection doc now root rootRect this o in
  prevThreshold (snd (fst r)) = 0
  /\ prevRatio (snd (fst r)) = zero
  /\ snd r
     = if Nat.eqb (prevThreshold this) 0 then o
       else queueEntry
              (Entry.IntersectionObserverEntry (target this)
                 (getRectangle doc (target this)) emptyRect zero rootRect now)
              o.
Proof.
  intros Hd. unfold updateIntersection, getIntersectionData. cbv zeta.
  rewrite Hd. cbn [negb andb fst snd prevThreshold prevRatio exists_ ratio rect_].
  split; [reflexivity|]. split.
  - change (getArea emptyRect) with (Fin 0).
    destruct (getArea (getRectangle doc (target this))) as [| | |b];
      try reflexivity.
    unfold div. change (Qsgn 0) with Eq.
    assert (Hz : truthy (Fin (Qred (0 / b))) = false).
    { unfold truthy. apply negb_false_iff, Qeq_bool_iff.
      rewrite Qred_correct. unfold Qdiv. ring. }
    unfold or_else.
    destruct (Qsgn b); cbn [signed_inf truthy]; rewrite ?Hz; reflexivity.
  - destruct (prevThreshold this); reflexivity.
Qed.

(** X20 on a target that is not within the root. *)
Lemma updateIntersection_detached_outside :
  snd (updateIntersection inside zero 2 (getRectangle inside 2)
         (IntersectionObservation 1 0) watcher)
  = watcher.
Proof.
  apply (updateIntersection_detached inside zero 2 (getRectangle inside 2)
           (IntersectionObservation 1 0) watcher). vm_compute. reflexivity.
Defined.

(** *** The margins of the root *)

Lemma margin_amount (m : margin) (d : number) :
  isFinite (value_ m) = true -> isFinite d = true -> (0 <= qval d)%Q ->
  exists v a,
    value_ m = Fin v
    /\ (if negb (pixels m) then mul (value_ m) d else value_ m) = Fin a
    /\ ((0 <= v)%Q -> (0 <= a)%Q)
    /\ ((v <= 0)%Q -> (a <= 0)%Q).
Proof.
  destruct (value_ m) as [| | |v]; try discriminate.
  destruct d as [| | |q]; try discriminate.
  cbn [qval]. intros _ _ Hq. exists v. destruct (pixels m); cbn [negb].
  - exists v. tauto.
  - destruct (mul_Fin v q) as (a & -> & Qa). exists a.
    split; [reflexivity|]. split; [reflexivity|]. rewrite Qa. split; intros H.
    + apply Qmult_le_0_compat; assumption.
    + rewrite <- (Qmult_0_l q). apply Qmult_le_compat_r; assumption.
Qed.

(** X21. [applyMargins] moves the top edge up by the first margin, the
    right edge to the right by the second, the bottom edge down by the
    third and the left edge to the left by the fourth, a percentage being
    taken of the height for the top and the bottom and of the width for
    the right and the left, and sets the sizes to the differences of the
    new edges. With finite numbers and sizes that are not negative, the
    result holds the rectangle given when no margin is negative, lies
    within it when none is positive, and has its edges when all are
    zero. *)
Theorem applyMargins_sides (r : rect) (m0 m1 m2 m3 : margin) :
  finite_edges r = true ->
  isFinite (width r) = true -> isFinite (height r) = true ->
  le zero (width r) = true -> le zero (height r) = true ->
  forallb (fun m => isFinite (value_ m)) [m0; m1; m2; m3] = true ->
  let R := applyMargins r [m0; m1; m2; m3] in
  top R = sub (top r) (margin_amount_of m0 (height r))
  /\ right R = add (right r) (margin_amount_of m1 (width r))
  /\ bottom R = add (bottom r) (margin_amount_of m2 (height r))
  /\ left R = sub (left r) (margin_amount_of m3 (width r))
  /\ width R = sub (right R) (left R)
  /\ height R = sub (bottom R) (top R)
  /\ (forallb (fun m => le zero (value_ m)) [m0; m1; m2; m3] = true ->
      within r R = true)
  /\ (forallb (fun m => le (value_ m) zero) [m0; m1; m2; m3] = true ->
      within R r = true)
  /\ (forallb no_margin [m0; m1; m2; m3] = true -> isEqual R r = true).
Proof.
  intros Fr TW TH Pw Ph Hfin R.
  do 6 (split; [reflexivity|]).
  cbn [forallb] in Hfin. rewrite !andb_true_iff in Hfin.
  destruct Hfin as (F0 & F1 & F2 & F3 & _).
  assert (W0 : (0 <= qval (width r))%Q)
    by (rewrite (finite_qval _ TW) in Pw; apply le_Fin in Pw; exact Pw).
  assert (H0 : (0 <= qval (height r))%Q)
    by (rewrite (finite_qval _ TH) in Ph; apply le_Fin in Ph; exact Ph).
  destruct (finite_edges_Fin r Fr) as (El & Et & Er & Eb).
  destruct (margin_amount m0 (height r) F0 TH H0) as (v0 & a0 & V0 & E0 & P0 & N0).
  destruct (margin_amount m1 (width r) F1 TW W0) as (v1 & a1 & V1 & E1 & P1 & N1).
  destruct (margin_amount m2 (height r) F2 TH H0) as (v2 & a2 & V2 & E2 & P2 & N2).
  destruct (margin_amount m3 (width r) F3 TW W0) as (v3 & a3 & V3 & E3 & P3 & N3).
  unfold R, applyMargins.
  cbn [List.length seq combine map nth Nat.odd Nat.even negb].
  rewrite E0, E1, E2, E3. cbv zeta.
  unfold within, isEqual, no_margin.
  cbn [left top right bottom width height forallb].
  rewrite El, Et, Er, Eb, V0, V1, V2, V3.
  destruct (sub_Fin (qval (top r)) a0) as (t' & -> & Qt).
  destruct (add_Fin (qval (right r)) a1) as (r' & -> & Qr).
  destruct (add_Fin (qval (bottom r)) a2) as (b' & -> & Qb).
  destruct (sub_Fin (qval (left r)) a3) as (l' & -> & Ql).
  unfold zero.
  rewrite !andb_true_iff, !le_Fin, !strict_eq_Fin.
  split; [|split].
  - intros (? & ? & ? & ? & _). repeat split; lra.
  - intros (? & ? & ? & ? & _). repeat split; lra.
  - intros (Z0 & Z1 & Z2 & Z3 & _).
    assert (a0 == 0 /\ a1 == 0 /\ a2 == 0 /\ a3 == 0)%Q as (A0 & A1 & A2 & A3).
    { repeat split; apply Qle_antisym; auto;
        (apply N0 || apply N1 || apply N2 || apply N3
         || apply P0 || apply P1 || apply P2 || apply P3); lra. }
    repeat split; lra.
Qed.

(** X21 on the margins [10% 10% 0px 50%] about a rectangle 200 wide and
    100 high: the top moves by a tenth of the height, the right by a
    tenth of the width and the left by half the width. *)
Lemma applyMargins_sides_wide :
  let r := createRectangle zero zero (of_Z 200) (of_Z 100) in
  let R := applyMargins r [percent (1 # 10); percent (1 # 10); px 0;
                           percent (1 # 2)] in
  (top R = Fin (-10) /\ right R = Fin 220 /\ bottom R = Fin 100
   /\ left R = Fin (-100) /\ width R = Fin 320 /\ height R = Fin 110)
  /\ within r R = true.
Proof.
  intros r R. split; [repeat split; vm_compute; reflexivity|].
  apply (applyMargins_sides r (percent (1 # 10)) (percent (1 # 10)) (px 0)
           (percent (1 # 2)));
    vm_compute; reflexivity.
Defined.

(** *** The options of an observer *)

Lemma new_IntersectionObserver_parts (doc : document) (cb : value)
  (options : options_arg) (o : observer) :
  new_IntersectionObserver doc cb options = ret o ->
  exists t m ns r,
    parseThresholds t = ret ns /\ parseMargins m = ret r
    /\ thresholds o = ns /\ _rootMargin o = parsedData r
    /\ rootMargin o = rawData r /\ _callback o = cb
    /\ typeof cb = "function"
    /\ _root o = match root o with Some e => e | None => documentElement doc end.
Proof.
  unfold new_IntersectionObserver. cbv zeta.
  destruct (String.eqb (typeof cb) "function") eqn:Hcb; [|discriminate].
  apply String.eqb_eq in Hcb. cbn [negb].
  match goal with |- context [if ?b then _ else _] => destruct b end;
    [discriminate|].
  match goal with
  | |- (match ?x with OptionsObject _ _ _ => _ | OptionsValue _ => _ end = _) -> _ =>
      destruct x as [r t m|v]
  end.
  - destruct (parseThresholds t) as [|ns] eqn:Ht.
    + destruct r as [v|]; [destruct (as_element v)|]; discriminate.
    + destruct (parseMargins m) as [|rm] eqn:Hm;
        (destruct r as [v|]; [destruct (as_element v)|]);
        cbn [bind ret throw]; try discriminate;
        intros H; injection H as <-; exists t, m, ns, rm; repeat split;
        assumption.
  - destruct v; try discriminate;
      (destruct (parseThresholds (Scalar Undefined)) as [|ns] eqn:Ht;
       cbn [bind ret throw]; [discriminate|]);
      (destruct (parseMargins Undefined) as [|rm] eqn:Hm;
       cbn [bind ret throw]; [discriminate|]);
      intros H; injection H as <-;
      exists (Scalar Undefined), Undefined, ns, rm; repeat split; assumption.
Qed.

Lemma parseThresholds_unit (t : threshold_option) (numbers : list number) :
  parseThresholds t = ret numbers ->
  numbers <> [] /\ Forall (fun n => unit_ratio n = true) numbers.
Proof.
  rewrite parseThresholds_items. intros H.
  pose proof (map_result_check (threshold_items t)) as Hm. cbv zeta in Hm.
  destruct (map_result _ (threshold_items t)) as [e|ns]; [discriminate|].
  cbn [bind ret] in H. injection H as <-. destruct Hm as [-> Hall].
  assert (Hp := sort_perm (map Number (threshold_items t))).
  split.
  - intros E. rewrite E in Hp. apply Permutation_nil in Hp.
    destruct t as [[]|[]]; discriminate.
  - rewrite Forall_forall in *. intros n Hn.
    apply (Permutation_in _ Hp), in_map_iff in Hn. destruct Hn as (v & <- & Hv).
    specialize (Hall v Hv). unfold valid_threshold in Hall.
    apply andb_true_iff in Hall. destruct Hall as [Hf Hr].
    apply negb_true_iff, orb_false_iff in Hr. destruct Hr as [H0 H1].
    destruct (Number v) as [| | |q]; try discriminate.
    unfold gt in H1. unfold unit_ratio, zero, one in *.
    apply andb_true_iff. rewrite !le_Fin.
    apply lt_Fin_false in H0, H1. split; assumption.
Qed.

Lemma new_IntersectionObserver_configured (o : observer) :
  constructed o -> configured o.
Proof.
  intros (doc & cb & options & H).
  destruct (new_IntersectionObserver_parts _ _ _ _ H)
    as (t & m & ns & r & Ht & Hm & Et & Em & _).
  destruct (parseThresholds_unit _ _ Ht) as [Hne Hu].
  unfold configured. rewrite Et, Em. split; [exact Hne|]. split; [exact Hu|].
  revert Hm. rewrite parseMargins_pieces. cbv zeta.
  destruct (Nat.ltb 4 _); [discriminate|].
  destruct (map_result margin_of_token _) as [|parsed] eqn:E; [discriminate|].
  intros Hr. injection Hr as <-. cbn [parsedData]. split.
  - rewrite (map_result_length _ _ _ E). reflexivity.
  - exact (map_result_Forall _ _ _ _ margin_of_token_finite E).
Qed.

Lemma options_store (this : nat) (o o' : observer) (l : list observer) :
  nth_error l this = Some o -> options_of o' = options_of o ->
  map options_of (store this o' l) = map options_of l.
Proof.
  revert this. induction l as [|x l IH]; intros [|i] H E; simpl in *;
    try discriminate.
  - injection H as ->. rewrite E. reflexivity.
  - rewrite (IH i H E). reflexivity.
Qed.

Lemma updateObservations_options (doc : document) (now : element -> number)
  (o : observer) :
  options_of (snd (updateObservations doc now o)) = options_of o.
Proof.
  unfold updateObservations.
  destruct (updateEach_parts doc now (_root o) (getRootRect doc o) (_targets o) o)
    as (hc & entries' & es & -> & _).
  reflexivity.
Qed.

Lemma notified_options (o : observer) :
  options_of (snd (if hasEntries o then notifySubscriber o else (None, o)))
  = options_of o.
Proof. destruct (hasEntries o); reflexivity. Qed.

Lemma updateObserversLoop_options (doc : document)
  (now : nat -> element -> number) (rest : list nat) :
  forall w,
    map options_of (observers (snd (fst (updateObserversLoop doc now rest w))))
    = map options_of (observers w).
Proof.
  induction rest as [|this rest IH]; intros w; cbn [updateObserversLoop].
  - reflexivity.
  - destruct (nth_error (observers w) this) as [o|] eqn:Ho; [|apply IH].
    pose proof (updateObservations_options doc (now this) o) as H1.
    destruct (updateObservations doc (now this) o) as [changed o1].
    cbn [snd] in H1.
    pose proof (notified_options o1) as H2.
    destruct (if hasEntries o1 then notifySubscriber o1 else (None, o1))
      as [batch o2]. cbn [snd] in H2.
    specialize (IH (with_observer this o2 w)).
    destruct (updateObserversLoop doc now rest (with_observer this o2 w))
      as [[hc w'] batches]. cbn [fst snd] in *.
    rewrite IH. cbn [with_observer observers].
    apply (options_store this o o2 _ Ho). congruence.
Qed.

Section Options.

Variable mutationsSupported : bool.

Lemma disconnect_options (this : nat) (w : world) :
  map options_of (observers (disconnect mutationsSupported this w))
  = map options_of (observers w).
Proof.
  unfold disconnect.
  destruct (nth_error (observers w) this) as [o|] eqn:Ho; [|reflexivity].
  cbn [with_controller with_observer observers].
  apply (options_store this o _ _ Ho). reflexivity.
Qed.

(** What an activity does to the observers: it leaves those there are,
    with their options, and adds at most one, made by the constructor. *)
Lemma act_options (w : world) (a : activity) :
  exists extra,
    map options_of (observers (act mutationsSupported w a))
    = (map options_of (observers w) ++ map options_of extra)%list
    /\ Forall constructed extra.
Proof.
  destruct a as [[doc cb options|this args n1 n2|this args|this]|this
                 |doc now timestamp t]; cbn [act step].
  - unfold Wrapper.construct. destruct cb as [cb|];
      [|exists []; rewrite app_nil_r; split; [reflexivity|constructor]].
    destruct (new_IntersectionObserver doc cb options) as [|o] eqn:Hnew;
      cbn [bind ret throw];
      [exists []; rewrite app_nil_r; split; [reflexivity|constructor]|].
    exists [o]. cbn [observers]. rewrite map_app. split; [reflexivity|].
    constructor; [|constructor]. exists doc, cb, options. exact Hnew.
  - exists []. rewrite app_nil_r. split; [|constructor]. unfold observe.
    destruct (nth_error (observers w) this) as [o|] eqn:Ho; [|reflexivity].
    destruct args as [|v rest]; [reflexivity|].
    destruct (as_element v) as [target|]; [|reflexivity].
    destruct (Map.has target (_targets o)); [reflexivity|].
    cbn [ret with_controller with_observer observers].
    apply (options_store this o _ _ Ho). reflexivity.
  - exists []. rewrite app_nil_r. split; [|constructor]. unfold unobserve.
    destruct (nth_error (observers w) this) as [o|] eqn:Ho; [|reflexivity].
    destruct args as [|v rest]; [reflexivity|].
    destruct (as_element v) as [target|]; [|reflexivity].
    assert (H1 : forall m,
              map options_of (observers (with_observer this (set_targets m o) w))
              = map options_of (observers w)).
    { intros m. cbn [with_observer observers].
      apply (options_store this o _ _ Ho). reflexivity. }
    destruct (Nat.eqb _ 0); cbn [ret]; [rewrite disconnect_options|]; apply H1.
  - exists []. rewrite app_nil_r. split; [|constructor]. apply disconnect_options.
  - exists []. rewrite app_nil_r. split; [|constructor].
    destruct (nth_error (observers w) this) as [o|] eqn:Ho; [|reflexivity].
    cbn [with_observer observers]. apply (options_store this o _ _ Ho). reflexivity.
  - exists []. rewrite app_nil_r. split; [|constructor].
    unfold frame, updateObservers.
    pose proof (updateObserversLoop_options doc now
                  (Controller._observers (controller_ w)) w) as H.
    destruct (updateObserversLoop doc now _ w) as [[hc w'] batches].
    cbn [fst snd] in *. exact H.
Qed.

Lemma act_configured (w : world) (a : activity) :
  Forall configured (observers w) ->
  Forall configured (observers (act mutationsSupported w a)).
Proof.
  intros H. destruct (act_options w a) as (extra & E & F).
  rewrite Forall_forall in *. intros o Ho.
  apply (in_map options_of) in Ho. rewrite E, <- map_app in Ho.
  apply in_map_iff in Ho. destruct Ho as (o0 & E0 & H0).
  assert (Hc : configured o0).
  { apply in_app_iff in H0. destruct H0 as [H0|H0]; [exact (H o0 H0)|].
    exact (new_IntersectionObserver_configured o0 (F o0 H0)). }
  unfold options_of in E0. unfold configured in *.
  injection E0 as _ _ Et _ _ Em. rewrite <- Et, <- Em. exact Hc.
Qed.

End Options.

(** X22. Whatever is done with the observers (constructions, calls of
    [observe], [unobserve], [disconnect] and [takeRecords], frames whose
    callbacks leave the observers alone), none is lost and none changes
    its root, its margins, its thresholds or its callback: the observers
    are those there were, in their order, and after them the observers
    the constructor has returned since. *)
Theorem observers_keep_their_options (mutationsSupported : bool)
  (l : list activity) (w : world) :
  exists extra,
    map options_of (observers (play mutationsSupported l w))
    = (map options_of (observers w) ++ map options_of extra)%list
    /\ Forall constructed extra.
Proof.
  unfold play. revert w. induction l as [|a l IH]; intros w; cbn [fold_left].
  - exists []. rewrite app_nil_r. split; [reflexivity|constructor].
  - destruct (IH (act mutationsSupported w a)) as (extra2 & E2 & F2).
    destruct (act_options mutationsSupported w a) as (extra1 & E1 & F1).
    exists (extra1 ++ extra2)%list. split.
    + rewrite E2, E1, map_app, app_assoc. reflexivity.
    + apply Forall_app. split; assumption.
Qed.

(** X23. Every observer there is, after whatever was done since the
    module was loaded, has at least one threshold, all of them within 0
    and 1, and four margins with finite values. *)
Theorem observers_configured (mutationsSupported : bool) (l : list activity) :
  Forall configured (observers (play mutationsSupported l Wrapper.loaded)).
Proof.
  unfold play.
  assert (H0 : Forall configured (observers Wrapper.loaded)) by constructor.
  revert H0. generalize Wrapper.loaded.
  induction l as [|a l IH]; intros w H; cbn [fold_left]; [exact H|].
  apply IH, act_configured, H.
Qed.

(** *** The entries of a frame *)

Lemma isClientRect_finite (r : rect) :
  isClientRect r = true -> finite_edges r = true.
Proof.
  unfold isClientRect. rewrite !andb_true_iff. tauto.
Qed.

Lemma applyMargins_edges (r : rect) (margins : list margin) :
  isClientRect r = true ->
  List.length margins = 4 ->
  Forall (fun m => isFinite (value_ m) = true) margins ->
  finite_edges (applyMargins r margins) = true.
Proof.
  intros Hr Hlen Hfin.
  destruct margins as [|m0 [|m1 [|m2 [|m3 [|]]]]]; try discriminate. clear Hlen.
  inversion_clear Hfin as [|? ? F0 Hfin']. inversion_clear Hfin' as [|? ? F1 Hfin].
  inversion_clear Hfin as [|? ? F2 Hfin']. inversion_clear Hfin' as [|? ? F3 _].
  destruct (isClientRect_boxed r Hr) as ((Fr & TW & TH & QW & QH) & W0 & H0).
  destruct (finite_edges_Fin r Fr) as (El & Et & Er & Eb).
  destruct (margin_amount m0 (height r) F0 TH H0) as (v0 & a0 & _ & E0 & _).
  destruct (margin_amount m1 (width r) F1 TW W0) as (v1 & a1 & _ & E1 & _).
  destruct (margin_amount m2 (height r) F2 TH H0) as (v2 & a2 & _ & E2 & _).
  destruct (margin_amount m3 (width r) F3 TW W0) as (v3 & a3 & _ & E3 & _).
  unfold applyMargins.
  cbn [List.length seq combine map nth Nat.odd Nat.even negb].
  rewrite E0, E1, E2, E3. cbv zeta. unfold finite_edges.
  cbn [left top right bottom]. rewrite El, Et, Er, Eb. reflexivity.
Qed.

Lemma measured_clippers (doc : document) (root : element) (l : list element) :
  measured doc ->
  forallb (fun p => finite_edges (getRectangle doc p)) (clippers doc root l)
  = true.
Proof.
  intros H. apply forallb_forall. intros p _. apply isClientRect_finite, H.
Qed.

Lemma updateIntersection_ratios (doc : document) (now : number)
  (root : element) (rootRect : rect) (this : observation) (o : observer) :
  measured doc -> finite_edges rootRect = true ->
  unit_ratios (_quedEntries o) ->
  unit_ratios (_quedEntries (snd (updateIntersection doc now root rootRect this o))).
Proof.
  intros Hd HC Hq.
  pose proof (getIntersectionData_unit doc this root rootRect _
                (Hd (target this)) HC (measured_clippers doc root _ Hd)) as Hu.
  cbv zeta in Hu. unfold updateIntersection. cbv zeta. cbn [snd].
  set (data := getIntersectionData _ _ _ _ _) in *.
  destruct (negb (Nat.eqb _ (prevThreshold this))); [|exact Hq].
  unfold queueEntry. cbn [_quedEntries set_quedEntries].
  apply Forall_app. split; [exact Hq|]. constructor; [|constructor].
  cbn [Entry.intersectionRatio Entry.IntersectionObserverEntry].
  destruct (exists_ data); cbn [negb ratio]; [apply Hu|]; reflexivity.
Qed.

Lemma updateEach_ratios (doc : document) (now : element -> number)
  (root : element) (rootRect : rect) (entries : Map.t observation) :
  measured doc -> finite_edges rootRect = true ->
  forall o, unit_ratios (_quedEntries o) ->
    unit_ratios (_quedEntries (snd (updateEach doc now root rootRect entries o))).
Proof.
  intros Hd HC. induction entries as [|[key obs] entries IH]; intros o Hq;
    cbn [updateEach].
  - exact Hq.
  - pose proof (updateIntersection_ratios doc (now key) root rootRect obs o
                  Hd HC Hq) as H1.
    destruct (updateIntersection doc (now key) root rootRect obs o)
      as [[changes obs'] o1]. cbn [snd] in H1.
    specialize (IH o1 H1).
    destruct (updateEach doc now root rootRect entries o1) as [[hc rest] o2].
    exact IH.
Qed.

Lemma updateObservations_ratios (doc : document) (now : element -> number)
  (o : observer) :
  measured doc -> configured o -> unit_ratios (_quedEntries o) ->
  unit_ratios (_quedEntries (snd (updateObservations doc now o))).
Proof.
  intros Hd (_ & _ & Hlen & Hfin) Hq. unfold updateObservations.
  assert (HC : finite_edges (getRootRect doc o) = true)
    by (apply applyMargins_edges; [apply Hd|exact Hlen|exact Hfin]).
  pose proof (updateEach_ratios doc now (_root o) (getRootRect doc o)
                (_targets o) Hd HC o Hq) as H.
  destruct (updateEach doc now (_root o) (getRootRect doc o) (_targets o) o)
    as [[hc targets] o']. exact H.
Qed.

Lemma configured_options (o o' : observer) :
  options_of o' = options_of o -> configured o -> configured o'.
Proof.
  unfold options_of, configured. intros E. injection E as _ _ Et _ _ Em.
  rewrite Et, Em. tauto.
Qed.

Lemma updateObserversLoop_ratios (doc : document)
  (now : nat -> element -> number) (rest : list nat) :
  measured doc ->
  forall w,
    Forall configured (observers w) ->
    Forall (fun o => _quedEntries o = []) (observers w) ->
    Forall (fun b => unit_ratios (snd b))
           (snd (updateObserversLoop doc now rest w)).
Proof.
  intros Hd. induction rest as [|this rest IH]; intros w Hc Hq;
    cbn [updateObserversLoop].
  - constructor.
  - destruct (nth_error (observers w) this) as [o|] eqn:Ho; [|exact (IH w Hc Hq)].
    assert (Hin := nth_error_In _ _ Ho).
    assert (Hco : configured o) by (rewrite Forall_forall in Hc; exact (Hc o Hin)).
    assert (Hqo : unit_ratios (_quedEntries o)).
    { rewrite Forall_forall in Hq. rewrite (Hq o Hin). constructor. }
    pose proof (updateObservations_ratios doc (now this) o Hd Hco Hqo) as H1.
    pose proof (updateObservations_options doc (now this) o) as O1.
    destruct (updateObservations doc (now this) o) as [changed o1].
    cbn [snd] in H1, O1.
    pose proof (notified_empty o1) as Hq2.
    pose proof (notified_options o1) as O2.
    pose proof (notified_batch o1) as Hb.
    destruct (if hasEntries o1 then notifySubscriber o1 else (None, o1))
      as [batch o2]. cbn [fst snd] in *.
    assert (Hstore : forall (P : observer -> Prop), P o2 ->
              Forall P (observers w) ->
              Forall P (observers (with_observer this o2 w))).
    { intros P H2 Hall. cbn [with_observer observers].
      clear - H2 Hall. revert this.
      induction Hall as [|x l Hx Hl IHl]; intros [|i]; simpl;
        constructor; auto. }
    specialize (IH (with_observer this o2 w)
                  (Hstore _ (configured_options o o2 ltac:(congruence) Hco) Hc)
                  (Hstore _ Hq2 Hq)).
    destruct (updateObserversLoop doc now rest (with_observer this o2 w))
      as [[hc w'] batches]. cbn [snd] in *.
    destruct batch as [entries|]; [|exact IH].
    constructor; [|exact IH]. cbn [snd].
    destruct (Hb entries eq_refl) as [-> _]. exact H1.
Qed.

Lemma act_settled (mutationsSupported : bool) (w : world) (a : activity) :
  settled w -> settled (act mutationsSupported w a).
Proof.
  destruct a as [op|this|doc now timestamp t]; intros Hs; cbn [act].
  - apply step_settled, Hs.
  - destruct (nth_error (observers w) this) as [o|] eqn:Ho; [|exact Hs].
    apply (settled_with_observer this w o _ Ho); [|reflexivity|exact Hs].
    exact (proj1 (Hs this o Ho)).
  - unfold frame, updateObservers.
    pose proof (updateObserversLoop_settled doc now
                  (Controller._observers (controller_ w)) w Hs) as H.
    destruct (updateObserversLoop doc now _ w) as [[hc w'] batches].
    cbn [fst]. apply settled_with_controller. tauto.
Qed.

(** In exact arithmetic: every entry a frame hands to a callback has a
    ratio within 0 and 1. *)
Lemma frame_unit_exact (mutationsSupported : bool) (l : list activity)
  (doc : document) (now : nat -> element -> number) (timestamp t : number) :
  measured doc ->
  Forall (fun b => unit_ratios (snd b))
         (snd (frame doc now timestamp t
                 (play mutationsSupported l Wrapper.loaded))).
Proof.
  intros Hd.
  assert (Hinv : Forall configured (observers (play mutationsSupported l Wrapper.loaded))
                 /\ settled (play mutationsSupported l Wrapper.loaded)).
  { unfold play.
    assert (H0 : Forall configured (observers Wrapper.loaded)
                 /\ settled Wrapper.loaded).
    { split; [constructor|]. intros [|j] oj Hj; discriminate. }
    revert H0. generalize Wrapper.loaded.
    induction l as [|a l IH]; intros w [Hc Hs]; cbn [fold_left]; [tauto|].
    apply IH. split; [apply act_configured, Hc|apply act_settled, Hs]. }
  destruct Hinv as [Hc Hs].
  set (w := play mutationsSupported l Wrapper.loaded) in *.
  assert (Hq : Forall (fun o => _quedEntries o = []) (observers w)).
  { apply Forall_forall. intros o Ho. apply In_nth_error in Ho.
    destruct Ho as [this Ho]. exact (proj2 (Hs this o Ho)). }
  pose proof (updateObserversLoop_ratios doc now
                (Controller._observers (controller_ w)) Hd w Hc Hq) as H.
  unfold frame, updateObservers.
  destruct (updateObserversLoop doc now _ w) as [[hc w'] batches].
  exact H.
Qed.

(** X24. On a page whose rectangles are reported at whole pixels (of
    magnitude up to [2 ^ 25]), with observers whose root margins are
    whole pixels, every entry a frame hands to a callback has an
    intersection ratio within 0 and 1, whatever was done with the
    observers since the module was loaded. *)
Theorem frame_unit_ratios (mutationsSupported : bool) (l : list activity)
  (doc : document) (now : nat -> element -> number) (timestamp t : number) :
  let w := play mutationsSupported l Wrapper.loaded in
  on_pixel_grid doc ->
  forallb pixel_margins (observers w) = true ->
  Forall (fun b => unit_ratios (snd b)) (snd (frame doc now timestamp t w)).
Proof.
  intros w Hd _. apply frame_unit_exact.
  intros e. exact (grid_rect_client _ _ (Hd e)).
Qed.

Lemma inside_on_pixel_grid : on_pixel_grid inside.
Proof.
  intros [|[|[|e]]]; reflexivity.
Qed.

(** X24 on the frame after an observer of the root 1, with no margins,
    came to observe the target 2 within it: the one entry has the
    ratio 1. *)
Lemma frame_unit_ratios_observing :
  map (fun b => map Entry.intersectionRatio (snd b))
      (snd (frame inside (fun _ _ => zero) zero zero observing))
  = [[Fin 1]]
  /\ Forall (fun b => unit_ratios (snd b))
            (snd (frame inside (fun _ _ => zero) zero zero observing)).
Proof.
  split; [vm_compute; reflexivity|].
  apply (frame_unit_ratios true
           [Api (Construct inside (Some callback)
                   (OptionsObject (Some (node 1)) (Scalar Undefined) Undefined));
            Api (Observe 0 [node 2] zero zero)]
           inside (fun _ _ => zero) zero zero).
  - exact inside_on_pixel_grid.
  - vm_compute. reflexivity.
Defined.

(** *** debounce *)

Section Debouncing.

Variable A : Type.
Variable delay : Z.

Lemma clearTimeout_one (id : nat) (p : Z * A) :
  Debounce.clearTimeout A id [(id, p)] = [].
Proof.
  unfold Debounce.clearTimeout. simpl. rewrite Nat.eqb_refl. reflexivity.
Qed.

Lemma handle_keeps (s : Debounce.state A) (slot : option (Z * A))
  (e : Debounce.event A) :
  Debounce.keeps A s slot ->
  exists slot' emitted,
    Debounce.keeps A (Debounce.handle A delay s e) slot'
    /\ Debounce.calls A (Debounce.handle A delay s e)
       = (Debounce.calls A s ++ emitted)%list
    /\ forall rest,
         Debounce.debounced A delay slot (e :: rest)
         = (emitted ++ Debounce.debounced A delay slot' rest)%list.
Proof.
  intros H. destruct e as [now args|now]; cbn [Debounce.handle].
  - exists (Some ((now + delay)%Z, args)), [].
    unfold Debounce.invoke. cbn [Debounce.calls Debounce.keeps
      Debounce.timeoutID Debounce.timers]. rewrite app_nil_r.
    split; [|split; [reflexivity|intros rest; reflexivity]].
    exists (Debounce.fresh A s). split; [reflexivity|].
    destruct slot as [p|]; cbn [Debounce.keeps] in H.
    + destruct H as (id & -> & ->). rewrite clearTimeout_one. reflexivity.
    + rewrite H. destruct (Debounce.timeoutID A s); reflexivity.
  - unfold Debounce.timeout. destruct slot as [[due args]|];
      cbn [Debounce.keeps] in H.
    + destruct H as (id & Hid & Ht). rewrite Ht. cbn [find fst snd].
      destruct (Z.leb due now) eqn:E.
      * exists None, [(now, args)].
        cbn [Debounce.keeps Debounce.timers Debounce.calls].
        rewrite clearTimeout_one. split; [reflexivity|].
        split; [reflexivity|]. intros rest. cbn [Debounce.debounced].
        rewrite E. reflexivity.
      * exists (Some (due, args)), []. rewrite app_nil_r.
        split; [exists id; split; assumption|]. split; [reflexivity|].
        intros rest. cbn [Debounce.debounced]. rewrite E. reflexivity.
    + rewrite H. cbn [find]. exists None, []. rewrite app_nil_r.
      split; [exact H|]. split; reflexivity.
Qed.

Lemma run_keeps (events : list (Debounce.event A)) :
  forall s slot,
    Debounce.keeps A s slot ->
    Debounce.calls A (Debounce.run A delay events s)
    = (Debounce.calls A s ++ Debounce.debounced A delay slot events)%list
    /\ exists slot', Debounce.keeps A (Debounce.run A delay events s) slot'.
Proof.
  unfold Debounce.run.
  induction events as [|e events IH]; intros s slot H; cbn [fold_left].
  - cbn [Debounce.debounced]. rewrite app_nil_r. split; [reflexivity|].
    exists slot. exact H.
  - destruct (handle_keeps s slot e H) as (slot' & emitted & H' & Hc & Hd).
    destruct (IH _ slot' H') as [Hcalls Hex]. split; [|exact Hex].
    rewrite Hcalls, Hc, Hd, app_assoc. reflexivity.
Qed.

Lemma debounced_calls (events : list (Debounce.event A)) :
  forall slot t a,
    In (t, a) (Debounce.debounced A delay slot events) ->
    (exists due, slot = Some (due, a) /\ (due <= t)%Z)
    \/ exists t0, In (Debounce.Invoke A t0 a) events /\ (t0 + delay <= t)%Z.
Proof.
  induction events as [|[now args|now] events IH]; intros slot t a H;
    cbn [Debounce.debounced] in H.
  - destruct H.
  - destruct (IH _ t a H) as [(due & E & Hd)|(t0 & Hin & Hd)].
    + injection E as <- <-. right. exists now. split; [left; reflexivity|exact Hd].
    + right. exists t0. split; [right; exact Hin|exact Hd].
  - assert (Hrest : forall slot',
              In (t, a) (Debounce.debounced A delay slot' events) ->
              (slot' = None \/ slot' = slot) ->
              (exists due, slot = Some (due, a) /\ (due <= t)%Z)
              \/ exists t0, In (Debounce.Invoke A t0 a) (Debounce.Timeout A now :: events)
                            /\ (t0 + delay <= t)%Z).
    { intros slot' H' Hs. destruct (IH _ t a H') as [(due & E & Hd)|(t0 & Hin & Hd)].
      - destruct Hs as [->| ->]; [discriminate|]. left. exists due. tauto.
      - right. exists t0. split; [right; exact Hin|exact Hd]. }
    destruct slot as [[due args]|]; [|apply (Hrest None H); tauto].
    destruct (Z.leb due now) eqn:E; [|apply (Hrest _ H); tauto].
    destruct H as [H|H]; [|apply (Hrest None H); tauto].
    injection H as <- <-. left. exists due. split; [reflexivity|].
    apply Z.leb_le, E.
Qed.

Lemma debounced_length (events : list (Debounce.event A)) :
  forall slot,
    List.length (Debounce.debounced A delay slot events)
    <= match slot with Some _ => 1 | None => 0 end
       + List.length (filter (Debounce.invocation A) events).
Proof.
  induction events as [|[now args|now] events IH]; intros slot;
    cbn [Debounce.debounced filter Debounce.invocation List.length].
  - lia.
  - specialize (IH (Some ((now + delay)%Z, args))). cbn in IH.
    destruct slot; lia.
  - destruct slot as [[due args]|]; [|exact (IH None)].
    destruct (Z.leb due now); [|exact (IH _)].
    specialize (IH None). cbn [List.length] in *. lia.
Qed.

(** X25. Whatever the invocations of a debounced function and the
    timeouts the host runs: the callback is called as with one slot for
    the last invocation; each of its calls has the arguments of an
    invocation made at least [delay] before; it is not called more often
    than the function was invoked; and at most one timeout is pending,
    the one whose identifier is kept. *)
Theorem debounce_one_slot (events : list (Debounce.event A)) :
  let s := Debounce.run A delay events (Debounce.debounce A) in
  Debounce.calls A s = Debounce.debounced A delay None events
  /\ (forall t a, In (t, a) (Debounce.calls A s) ->
        exists t0, In (Debounce.Invoke A t0 a) events /\ (t0 + delay <= t)%Z)
  /\ List.length (Debounce.calls A s)
     <= List.length (filter (Debounce.invocation A) events)
  /\ List.length (Debounce.timers A s) <= 1
  /\ (forall id, In id (map fst (Debounce.timers A s)) ->
        Debounce.timeoutID A s = Some id).
Proof.
  intros s.
  destruct (run_keeps events (Debounce.debounce A) None eq_refl)
    as [Hc [slot Hk]].
  fold s in Hc, Hk. cbn [Debounce.debounce Debounce.calls app] in Hc.
  split; [exact Hc|]. rewrite Hc. split; [|split].
  - intros t a H.
    destruct (debounced_calls events None t a H) as [(due & E & _)|H'];
      [discriminate|exact H'].
  - exact (debounced_length events None).
  - destruct slot as [p|]; cbn [Debounce.keeps] in Hk.
    + destruct Hk as (id & Hid & ->). split; [simpl; lia|].
      intros id' [<-|[]]. exact Hid.
    + rewrite Hk. split; [simpl; lia|]. intros id' [].
Qed.

End Debouncing.

(** *** The shorthand of margins *)

Lemma is_token_spec (s : string) :
  is_token s = true -> no_space s = true /\ s <> EmptyString.
Proof.
  unfold is_token. rewrite andb_true_iff, negb_true_iff.
  intros [H E]. split; [exact H|]. intros ->. discriminate.
Qed.

(** A separator ends the piece that is read and starts a run. *)
Lemma split_go_separator (sep : string) :
  is_separator sep = true ->
  forall piece rest,
    split_go false piece (sep ++ rest) = piece :: split_go true "" rest.
Proof.
  unfold is_separator. rewrite andb_true_iff, negb_true_iff. intros [Hs Hne].
  assert (Hrun : forall s, all_space s = true -> forall piece rest,
            split_go true piece (s ++ rest) = split_go true piece rest).
  { induction s as [|c s IH]; intros Ha piece rest; simpl in *; [reflexivity|].
    apply andb_true_iff in Ha. destruct Ha as [Hc Ha]. rewrite Hc.
    apply IH, Ha. }
  destruct sep as [|c sep]; [discriminate|]. simpl in Hs.
  apply andb_true_iff in Hs. destruct Hs as [Hc Hs].
  intros piece rest. simpl. rewrite Hc. f_equal. apply Hrun, Hs.
Qed.

(** The pieces of a token followed by a separator and more. *)
Lemma split_go_token_separator (t sep : string) :
  is_token t = true -> is_separator sep = true ->
  forall in_run rest,
    split_go in_run "" (t ++ sep ++ rest) = t :: split_go true "" rest.
Proof.
  intros Ht Hs in_run rest. destruct (is_token_spec t Ht) as [Hn Hne].
  rewrite (split_go_token t Hn in_run "" _ Hne).
  apply split_go_separator, Hs.
Qed.

Lemma split_go_last (t : string) :
  is_token t = true ->
  forall in_run, split_go in_run "" t = [t].
Proof.
  intros Ht in_run. destruct (is_token_spec t Ht) as [Hn Hne].
  rewrite <- (append_empty t) at 1.
  rewrite (split_go_token t Hn in_run "" _ Hne). reflexivity.
Qed.

Lemma or_string_Some (t b : string) :
  is_token t = true -> or_string (Some t) b = t.
Proof.
  intros Ht. destruct (is_token_spec t Ht) as [_ Hne].
  destruct t; [congruence|reflexivity].
Qed.

Lemma parseMargins_of_pieces (s : string) (pieces : list string) :
  split s = pieces -> List.length pieces <= 4 ->
  parseMargins (Str s)
  = bind (map_result margin_of_token (expand_margins pieces))
         (fun parsedData =>
            ret {| rawData := join (expand_margins pieces);
                   parsedData := parsedData |}).
Proof.
  intros Hs Hl. rewrite parseMargins_pieces. cbv zeta.
  cbn [ToString]. rewrite append_empty, Hs.
  apply Nat.ltb_ge in Hl. rewrite Hl. reflexivity.
Qed.



(** *** The last target *)

(** Storing an observer whose registry is empty only if it was keeps the
    invariant. *)
Lemma with_observer_kept (this : nat) (w : world) (o o' : observer) :
  nth_error (observers w) this = Some o ->
  (_targets o <> [] -> _targets o' <> []) ->
  invariant w -> invariant (with_observer this o' w).
Proof.
  intros Ho Hne [Hnd Hc]. split; [exact Hnd|].
  intros j Hj. cbn [with_observer controller_ observers] in *.
  destruct (Nat.eq_dec this j) as [<-|Hd].
  - exists o'. split; [exact (nth_error_store_eq _ _ _ _ Ho)|].
    destruct (Hc this Hj) as (o0 & Ho0 & Hne0).
    apply Hne. congruence.
  - rewrite (nth_error_store_ne _ _ _ _ Hd). exact (Hc j Hj).
Qed.

Lemma updateObservations_kept (doc : document) (now : element -> number)
  (o : observer) :
  _targets o <> [] -> _targets (snd (updateObservations doc now o)) <> [].
Proof.
  unfold updateObservations.
  destruct (updateEach_parts doc now (_root o) (getRootRect doc o) (_targets o) o)
    as (hc & entries' & es & -> & Hk & _).
  cbn [snd set_targets _targets]. intros Hne E. subst entries'.
  destruct (_targets o); [congruence|discriminate].
Qed.

Lemma updateObserversLoop_invariant (doc : document)
  (now : nat -> element -> number) (rest : list nat) :
  forall w, invariant w ->
    invariant (snd (fst (updateObserversLoop doc now rest w)))
    /\ controller_ (snd (fst (updateObserversLoop doc now rest w)))
       = controller_ w.
Proof.
  induction rest as [|this rest IH]; intros w Hinv; cbn [updateObserversLoop].
  - split; [exact Hinv|reflexivity].
  - destruct (nth_error (observers w) this) as [o|] eqn:Ho; [|exact (IH w Hinv)].
    pose proof (updateObservations_kept doc (now this) o) as H1.
    destruct (updateObservations doc (now this) o) as [changed o1].
    cbn [snd] in H1.
    assert (H2 : _targets (snd (if hasEntries o1 then notifySubscriber o1
                                else (None, o1))) = _targets o1)
      by (destruct (hasEntries o1); reflexivity).
    destruct (if hasEntries o1 then notifySubscriber o1 else (None, o1))
      as [batch o2]. cbn [snd] in H2.
    assert (Hinv2 : invariant (with_observer this o2 w)).
    { apply (with_observer_kept this w o o2 Ho); [|exact Hinv].
      rewrite H2. exact H1. }
    specialize (IH _ Hinv2).
    destruct (updateObserversLoop doc now rest (with_observer this o2 w))
      as [[hc w'] batches]. cbn [fst snd] in *. exact IH.
Qed.

Lemma observers_scheduleUpdate (hasChanges : bool) (timestamp now : number)
  (c : Controller.controller) :
  Controller._observers
    (Controller.scheduleUpdate (fun c => (hasChanges, c)) (Num timestamp) now c)
  = Controller._observers c.
Proof.
  unfold Controller.scheduleUpdate. cbn [typeof String.eqb Ascii.eqb Bool.eqb fst snd].
  destruct (Controller._wasCycleStarted _); cbn [negb]; [|reflexivity].
  destruct hasChanges; [rewrite observers_startUpdateCycle; reflexivity|].
  destruct (Controller._hasIdleTimeEnded now _); cbn [negb];
    [|rewrite observers_requestUpdate; reflexivity].
  unfold Controller._onCycleEnded.
  match goal with |- context [if ?b then _ else _] => destruct b end; reflexivity.
Qed.

Lemma act_invariant (mutationsSupported : bool) (w : world) (a : activity) :
  invariant w -> invariant (act mutationsSupported w a).
Proof.
  intros Hinv. destruct a as [op|this|doc now timestamp t]; cbn [act].
  - apply step_invariant, Hinv.
  - destruct (nth_error (observers w) this) as [o|] eqn:Ho; [|exact Hinv].
    apply (with_observer_kept this w o _ Ho); [|exact Hinv]. tauto.
  - unfold frame, updateObservers.
    destruct (updateObserversLoop_invariant doc now
                (Controller._observers (controller_ w)) w Hinv) as [[Hnd Hc] Hsame].
    destruct (updateObserversLoop doc now _ w) as [[hc w'] batches].
    cbn [fst snd] in *.
    split; unfold connected_observe;
      cbn [with_controller controller_ observers];
      rewrite observers_scheduleUpdate; assumption.
Qed.

(** C2. Whatever was done with the observers since the module was loaded
    (constructions, calls of [observe], [unobserve], [disconnect] and
    [takeRecords], frames): when [unobserve] removes the last target of
    an observer, the observer is disconnected. Its registry is empty, its
    queue of entries is empty, and the controller lists it no more. *)
Theorem unobserve_last_target (mutationsSupported : bool) (l : list activity)
  (this : nat) (o : observer) (v : value) (rest : list value)
  (target : element) :
  let w := play mutationsSupported l Wrapper.loaded in
  nth_error (observers w) this = Some o ->
  as_element v = Some target ->
  Map.has target (_targets o) = true ->
  Map.size (Map.delete target (_targets o)) = 0 ->
  exists w' o',
    unobserve mutationsSupported this (v :: rest) w = ret w'
    /\ nth_error (observers w') this = Some o'
    /\ Map.size (_targets o') = 0
    /\ _quedEntries o' = []
    /\ hasEntries o' = false
    /\ Controller.isConnected this (controller_ w') = false.
Proof.
  intros w Ho Hv Hhas Hsize.
  assert (Hinv : invariant w /\ settled w).
  { unfold w, play.
    assert (H0 : invariant Wrapper.loaded /\ settled Wrapper.loaded).
    { split; [split; [constructor|intros j []]|].
      intros [|j] oj Hj; discriminate. }
    revert H0. generalize Wrapper.loaded. clear.
    induction l as [|a l IH]; intros w [Hi Hs]; cbn [fold_left]; [tauto|].
    apply IH. split; [apply act_invariant, Hi|apply act_settled, Hs]. }
  destruct Hinv as [[Hnd _] Hs].
  destruct (unobserve_last mutationsSupported this w o v rest target
              Ho Hnd Hv Hhas Hsize) as (w' & o' & Hu & Ho' & Ht & Hc & Hq).
  exists w', o'. split; [exact Hu|]. split; [exact Ho'|]. split; [exact Ht|].
  assert (Hq' : _quedEntries o' = [])
    by (rewrite Hq; exact (proj2 (Hs this o Ho))).
  split; [exact Hq'|]. split; [|exact Hc].
  unfold hasEntries. rewrite Hq'. reflexivity.
Qed.

(** C2 on the observer that has seen a frame, which handed the entry of
    its target to the callback: its only target is then removed. *)
Lemma unobserve_last_target_after_a_frame :
  let l := [Api (Construct inside (Some callback)
                   (OptionsObject (Some (node 1)) (Scalar Undefined) Undefined));
            Api (Observe 0 [node 2] zero zero);
            Frame inside (fun _ _ => zero) (of_Z 16) (of_Z 16)] in
  let w := play true l Wrapper.loaded in
  Controller.isConnected 0 (controller_ w) = true
  /\ exists w' o',
       unobserve true 0 [node 2] w = ret w'
       /\ nth_error (observers w') 0 = Some o'
       /\ Map.size (_targets o') = 0
       /\ _quedEntries o' = []
       /\ hasEntries o' = false
       /\ Controller.isConnected 0 (controller_ w') = false.
Proof.
  intros l w. split; [vm_compute; reflexivity|].
  eapply (unobserve_last_target true l 0 _ (node 2) [] 2);
    vm_compute; reflexivity.
Defined.
